(** * Paragraph extraction from page HTML: a shallow embedding

    Embedding of [extract_paragraphs_from_page_htmls.py]: the text
    normalisers, the pedigree ("blood") table parser, the section walker
    over a BeautifulSoup tree and the filtering loop of [main].

    Python strings are sequences of Unicode code points, so a string is a
    list of code points ([N]).  The parts of the Unicode character
    database that the program reads through [unicodedata.normalize] and
    [str.isprintable] are parameters of the development outside the ASCII
    range; the white-space set of [str.split], [str.strip] and [\s] is
    small and fixed, and is written out. *)

From Stdlib Require Import Strings.String Strings.Ascii Numbers.DecimalString.
From Stdlib Require Import Numbers.DecimalZ Numbers.DecimalPos.
From Stdlib Require Import List NArith ZArith Bool Lia Arith.
Import ListNotations.

Local Open Scope N_scope.

(** ** Python strings *)

Definition char := N.
Definition str := list char.

(** A string literal of the source written in ASCII. *)
Definition py (s : string) : str := map N_of_ascii (list_ascii_of_string s).
Arguments py s%_string.

Definition char_eqb (a b : char) : bool := N.eqb a b.

Fixpoint str_eqb (a b : str) : bool :=
  match a, b with
  | [], [] => true
  | x :: a', y :: b' => char_eqb x y && str_eqb a' b'
  | _, _ => false
  end.

(** [x in l] for a list of strings. *)
Definition str_in (x : str) (l : list str) : bool := existsb (str_eqb x) l.

(** [sep.join(l)] *)
Fixpoint join (sep : str) (l : list str) : str :=
  match l with
  | [] => []
  | [x] => x
  | x :: l' => x ++ sep ++ join sep l'
  end.

(** [s.startswith(prefix)] *)
Fixpoint startswith (prefix s : str) : bool :=
  match prefix, s with
  | [], _ => true
  | p :: prefix', c :: s' => char_eqb p c && startswith prefix' s'
  | _ :: _, [] => false
  end.

(** [s.replace(c, '')] for a one-character [c]: every occurrence goes. *)
Definition replace_char_empty (c : char) (s : str) : str :=
  filter (fun x => negb (char_eqb x c)) s.

(** White space as [str.isspace], [str.split()], [str.strip()] and the
    [\s] class of [re] on [str] patterns see it (CPython's
    [_PyUnicode_IsWhitespace]). *)
Definition isspace (c : char) : bool :=
  ((0x09 <=? c) && (c <=? 0x0D)) || ((0x1C <=? c) && (c <=? 0x20))
  || (c =? 0x85) || (c =? 0xA0) || (c =? 0x1680)
  || ((0x2000 <=? c) && (c <=? 0x200A))
  || (c =? 0x2028) || (c =? 0x2029) || (c =? 0x202F) || (c =? 0x205F)
  || (c =? 0x3000).

Definition SPACE : char := 0x20.

(** [s.lstrip()], [s.rstrip()], [s.strip()] *)
Fixpoint lstrip (s : str) : str :=
  match s with
  | [] => []
  | c :: s' => if isspace c then lstrip s' else s
  end.

Fixpoint rstrip (s : str) : str :=
  match s with
  | [] => []
  | c :: s' =>
      match rstrip s' with
      | [] => if isspace c then [] else [c]
      | r => c :: r
      end
  end.

Definition strip (s : str) : str := lstrip (rstrip s).

(** [s.split()]: the maximal runs of characters that are not white space,
    in order.  [cur] holds the run being read, last character first. *)
Fixpoint split_from (cur : str) (s : str) : list str :=
  match s with
  | [] => match cur with [] => [] | _ => [rev cur] end
  | c :: s' =>
      if isspace c then
        match cur with
        | [] => split_from [] s'
        | _ => rev cur :: split_from [] s'
        end
      else split_from (c :: cur) s'
  end.

Definition split (s : str) : list str := split_from [] s.

(** [re.sub(r'\s+', repl, s)]: every maximal run of white space is
    replaced by [repl].  [in_run] says that the previous character was
    white space (and so already replaced). *)
Fixpoint re_sub_ws_from (repl : str) (in_run : bool) (s : str) : str :=
  match s with
  | [] => []
  | c :: s' =>
      if isspace c then
        if in_run then re_sub_ws_from repl true s'
        else repl ++ re_sub_ws_from repl true s'
      else c :: re_sub_ws_from repl false s'
  end.

Definition re_sub_ws (repl s : str) : str := re_sub_ws_from repl false s.

(** [re.sub(r'\s+', repl, s, count=1)]: only the leftmost run. *)
Fixpoint re_sub_ws_count1 (repl s : str) : str :=
  match s with
  | [] => []
  | c :: s' =>
      if isspace c then repl ++ lstrip s'
      else c :: re_sub_ws_count1 repl s'
  end.

(** Shapes of strings the specification speaks about. *)
Definition leading_ws (s : str) : bool :=
  match s with
  | [] => false
  | c :: _ => isspace c
  end.

Definition trailing_ws (s : str) : bool := leading_ws (rev s).

Fixpoint consecutive_ws (s : str) : bool :=
  match s with
  | [] => false
  | c :: s' => (isspace c && leading_ws s') || consecutive_ws s'
  end.

(** A word: a string with a character in it and no white space. *)
Definition word (w : str) : Prop :=
  w <> [] /\ forallb (fun c => negb (isspace c)) w = true.

(** Every string of a list with a space in front of it. *)
Definition spaced (l : list str) : str := concat (map (app [SPACE]) l).

(** ** The Unicode character database *)

Definition is_ascii (c : char) : bool := c <? 0x80.

Section Unicode.

(** [unicodedata.normalize("NFKC", s)] on strings that are not pure
    ASCII, and [c.isprintable()] on the code points that are neither
    ASCII nor white space: both read tables of the Unicode character
    database of the running interpreter. *)
Variable ucd_nfkc : str -> str.
Variable ucd_printable : char -> bool.

(** [unicodedata.normalize("NFKC", s)].  Every ASCII character is its
    own NFKC form and has combining class 0, so an ASCII string is
    returned as it is. *)
Definition normalize_NFKC (s : str) : str :=
  if forallb is_ascii s then s else ucd_nfkc s.

(** [c.isprintable()]: false on the categories Other and Separator,
    apart from the ASCII space.  In ASCII these are the controls
    U+0000..U+001F and U+007F; every white-space character other than
    U+0020 is a control or a separator. *)
Definition isprintable (c : char) : bool :=
  if is_ascii c then (0x20 <=? c) && (c <? 0x7F)
  else if isspace c then false
  else ucd_printable c.

(** [normalize_text], lines 49-54. *)
Definition normalize_text (text : str) : str :=
  let text := normalize_NFKC text in
  let text := join [SPACE] (split text) in
  let text := filter isprintable text in
  let text := strip text in
  text.

(** *** The pipeline as the specification words it *)

(** Step 2 in the specification's words: every run of white space
    becomes one ASCII space, and leading and trailing white space is
    trimmed. *)
Definition collapse_and_trim (s : str) : str :=
  strip (re_sub_ws [SPACE] s).

(** Step 3: every character that is not printable is removed. *)
Fixpoint remove_nonprintable (s : str) : str :=
  match s with
  | [] => []
  | c :: s' =>
      if isprintable c then c :: remove_nonprintable s'
      else remove_nonprintable s'
  end.

Definition spec_normalize_pipeline (s : str) : str :=
  strip (remove_nonprintable (collapse_and_trim (normalize_NFKC s))).

End Unicode.

(** A character database with nothing in it, for running the functions on
    ASCII text, where the tables are never read. *)
Definition ascii_nfkc : str -> str := fun s => s.
Definition ascii_printable : char -> bool := fun _ => false.

(** ** Exceptions *)

(** The one exception the program's own code can raise: indexing a list
    out of range. *)
Inductive exn : Type :=
| IndexError.

Inductive result (A : Type) : Type :=
| Ok (a : A)
| Raise (e : exn).
Arguments Ok {A} a.
Arguments Raise {A} e.

Definition bind {A B : Type} (r : result A) (k : A -> result B) : result B :=
  match r with
  | Ok a => k a
  | Raise e => Raise e
  end.

Notation "x <- r ;; k" := (bind r (fun x => k))
  (at level 100, r at next level, right associativity).

(** [l[i]] *)
Definition getitem {A : Type} (l : list A) (i : nat) : result A :=
  match nth_error l i with
  | Some x => Ok x
  | None => Raise IndexError
  end.

(** [l[i] = x] *)
Fixpoint setitem {A : Type} (l : list A) (i : nat) (x : A) : result (list A) :=
  match l, i with
  | [], _ => Raise IndexError
  | _ :: l', O => Ok (x :: l')
  | y :: l', S i' => l'' <- setitem l' i' x ;; Ok (y :: l'')
  end.

(** ** The pedigree table parser, row by row *)

Definition FATHER : char := 0x7236.     (* U+7236, father *)
Definition MOTHER : char := 0x6BCD.     (* U+6BCD, mother *)
Definition NO : char := 0x306E.         (* U+306E, the particle "of" *)
Definition ASTERISK : char := 0x2A.

(** The keyword lists of lines 67, 70 and 74. *)
Definition parent_keywords : list str :=
  [[FATHER; SPACE]; [MOTHER; SPACE]; [FATHER; NO]; [MOTHER; NO]].
(** "within 5 generations": the digit 5, U+4EE3, U+5185. *)
Definition WITHIN_5 : str := [0x35; 0x4EE3; 0x5185].
Definition inbreeding_keywords : list str := [WITHIN_5].
(** "maternal line": U+6BCD, U+7CFB. *)
Definition MATERNAL_LINE : str := [MOTHER; 0x7CFB].
Definition maternal_keywords : list str := [MATERNAL_LINE].

(** [any(cell.startswith(keyword) for keyword in keywords)] *)
Definition starts_with_any (keywords : list str) (cell : str) : bool :=
  existsb (fun keyword => startswith keyword cell) keywords.

(** The body of the loop of [normalize_blood_table_text], lines 67-75, on
    the row of cell texts of one [tr]: the line appended to [csv_data],
    if any. *)
Definition blood_row (row : list str) : result (option str) :=
  row0 <- getitem row 0 ;;
  if starts_with_any parent_keywords row0 then
    row <- setitem row 0 (re_sub_ws_count1 (py ": ") row0) ;;
    Ok (Some (join (py " - ") row))
  else if starts_with_any inbreeding_keywords row0 then
    row <- setitem row 0 (replace_char_empty SPACE row0) ;;
    row1 <- getitem row 1 ;;
    row <- setitem row 1 (re_sub_ws [SPACE] row1) ;;
    Ok (Some (join (py ": ") row))
  else if starts_with_any maternal_keywords row0 then
    Ok (Some (join (py ": ") row))
  else Ok None.

(** The loop over the rows: [csv_data] after the last row, unless a row
    raises. *)
Fixpoint blood_rows (csv_data : list str) (rows : list (list str))
  : result (list str) :=
  match rows with
  | [] => Ok csv_data
  | row :: rows' =>
      line <- blood_row row ;;
      match line with
      | Some l => blood_rows (csv_data ++ [l]) rows'
      | None => blood_rows csv_data rows'
      end
  end.

Definition NEWLINE : char := 0x0A.

(** What one row adds to [csv_data], and whether the row raises. *)
Definition kept_line (row : list str) : list str :=
  match blood_row row with
  | Ok (Some line) => [line]
  | _ => []
  end.

Definition row_raises (row : list str) : bool :=
  match blood_row row with
  | Raise _ => true
  | Ok _ => false
  end.

(** *** The row classification as the specification words it *)

(** [s] without any of its white space. *)
Definition remove_all_ws (s : str) : str :=
  filter (fun c => negb (isspace c)) s.

(** What the specification says is kept of a row with at least one cell:
    a parent row has the first run of white space of its first cell made
    [": "] and its cells joined by [" - "]; a "within 5 generations" row
    has its first cell without white space, its second cell with runs of
    white space collapsed, and the two joined by [": "]; a maternal-line
    row has its cells joined by [": "]; any other row is dropped. *)
Definition spec_blood_row (row : list str) : option str :=
  match row with
  | [] => None
  | first :: others =>
      if starts_with_any parent_keywords first then
        Some (join (py " - ") (re_sub_ws_count1 (py ": ") first :: others))
      else if starts_with_any inbreeding_keywords first then
        Some (join (py ": ")
                [remove_all_ws first; re_sub_ws [SPACE] (nth 0 others [])])
      else if starts_with_any maternal_keywords first then
        Some (join (py ": ") row)
      else None
  end.

(** ** BeautifulSoup trees *)

(** An attribute value: a string, or a list of strings for a
    multi-valued attribute such as [class]. *)
Inductive attr_value : Type :=
| AttrStr (s : str)
| AttrList (l : list str).

Definition attrs := list (str * attr_value).

(** The classes of the string objects of a tree: [NavigableString]
    itself, written [Plain], and its subclasses. *)
Inductive string_class : Type :=
| Plain
| CData
| Comment
| Declaration
| Doctype
| ProcessingInstruction
| Stylesheet
| Script
| TemplateString
| RubyTextString
| RubyParenthesisString.

Definition class_code (c : string_class) : nat :=
  match c with
  | Plain => 0
  | CData => 1
  | Comment => 2
  | Declaration => 3
  | Doctype => 4
  | ProcessingInstruction => 5
  | Stylesheet => 6
  | Script => 7
  | TemplateString => 8
  | RubyTextString => 9
  | RubyParenthesisString => 10
  end%nat.

Definition class_eqb (c d : string_class) : bool :=
  Nat.eqb (class_code c) (class_code d).

(** The markup the parser reads: what [BeautifulSoup(html, "lxml")] builds
    its objects from, and what [str(tag)] writes out.  [Text] is
    character data; [Special] is a comment, a CDATA section, a
    declaration, a doctype or a processing instruction. *)
#[warnings="-register-all"]
Inductive markup : Type :=
| Text (s : str)
| Special (c : string_class) (s : str)
| Element (name : str) (a : attrs) (children : list markup).

(** The objects of a parsed document.  The program clears and rewrites
    tags in place while it holds lists of tags found earlier, so the
    objects live in a store and refer to their children by index. *)
Inductive node : Type :=
| NavigableString (c : string_class) (s : str)
| Tag (name : str) (a : attrs) (contents : list nat).

Definition soup := list node.

(** The tree builder's string containers: character data inside one of
    these elements becomes a string of the class given. *)
Definition string_container (name : str) : option string_class :=
  if str_eqb name (py "rt") then Some RubyTextString
  else if str_eqb name (py "rp") then Some RubyParenthesisString
  else if str_eqb name (py "style") then Some Stylesheet
  else if str_eqb name (py "script") then Some Script
  else if str_eqb name (py "template") then Some TemplateString
  else None.

(** The class character data gets inside an element of this name. *)
Definition container_in (name : str) (container : string_class)
  : string_class :=
  match string_container name with
  | Some c => c
  | None => container
  end.

(** The objects of [m] added to the store, and the index of the object
    for [m] itself.  [container] is the class character data gets where
    [m] stands: that of the innermost string container around it. *)
Fixpoint load_in (container : string_class) (m : markup) (sp : soup)
  : soup * nat :=
  match m with
  | Text s => (sp ++ [NavigableString container s], length sp)
  | Special c s => (sp ++ [NavigableString c s], length sp)
  | Element name a children =>
      let inside := container_in name container in
      let fix load_all (ms : list markup) (sp : soup) : soup * list nat :=
        match ms with
        | [] => (sp, [])
        | m' :: ms' =>
            let (sp1, i) := load_in inside m' sp in
            let (sp2, ids) := load_all ms' sp1 in
            (sp2, i :: ids)
        end in
      let (sp', cs) := load_all children sp in
      (sp' ++ [Tag name a cs], length sp')
  end.

(** [BeautifulSoup(html, ...)] *)
Definition load (m : markup) (sp : soup) : soup * nat := load_in Plain m sp.

Definition contents (sp : soup) (i : nat) : list nat :=
  match nth_error sp i with
  | Some (Tag _ _ cs) => cs
  | _ => []
  end.

(** [tag.name] *)
Definition tag_name (sp : soup) (i : nat) : str :=
  match nth_error sp i with
  | Some (Tag name _ _) => name
  | _ => []
  end.

(** [tag.descendants]: document order, the tag itself left out.  A tree
    of [n] objects is at most [n] deep, which bounds the recursion. *)
Fixpoint descendants_upto (depth : nat) (sp : soup) (i : nat) : list nat :=
  match depth with
  | O => []
  | S depth' =>
      flat_map (fun c => c :: descendants_upto depth' sp c) (contents sp i)
  end.

Definition descendants (sp : soup) (i : nat) : list nat :=
  descendants_upto (length sp) sp i.

Fixpoint lookup_attr (k : str) (a : attrs) : option attr_value :=
  match a with
  | [] => None
  | (k', v) :: a' => if str_eqb k k' then Some v else lookup_attr k a'
  end.

(** An attribute filter such as [{"class": "navbox"}] against the value a
    tag has: a multi-valued attribute matches when one of its values is
    the wanted string, or when its values joined by spaces are. *)
Definition attr_value_matches (want : str) (v : attr_value) : bool :=
  match v with
  | AttrStr s => str_eqb s want
  | AttrList l =>
      existsb (fun s => str_eqb s want) l || str_eqb (join [SPACE] l) want
  end.

Definition attrs_match (want : list (str * str)) (a : attrs) : bool :=
  forallb (fun kv =>
             match lookup_attr (fst kv) a with
             | Some v => attr_value_matches (snd kv) v
             | None => false
             end) want.

(** A list of names filters tags by name (an empty list, which [main]
    never passes, filters nothing out). *)
Definition name_matches (names : list str) (name : str) : bool :=
  match names with
  | [] => true
  | _ => str_in name names
  end.

Definition tag_matches (names : list str) (want : list (str * str))
  (nd : option node) : bool :=
  match nd with
  | Some (Tag name a _) => name_matches names name && attrs_match want a
  | _ => false
  end.

(** [tag.find_all(names, want)]: the list is built when the call is made,
    and later changes of the tree do not change it. *)
Definition find_all (sp : soup) (i : nat) (names : list str)
  (want : list (str * str)) : list nat :=
  filter (fun j => tag_matches names want (nth_error sp j)) (descendants sp i).

(** [tag.find(names)], also written [tag.h2] *)
Definition find (sp : soup) (i : nat) (names : list str) : option nat :=
  hd_error (find_all sp i names []).

(** [tag.interesting_string_types]: the classes of the strings that
    count as the text of a tag of this name. *)
Definition interesting_string_types (name : str) : list string_class :=
  match string_container name with
  | Some c => [c]
  | None => [Plain; CData]
  end.

(** [tag._all_strings()]: the strings below a tag whose class is one of
    the tag's interesting ones, in document order.  Comments are never
    among them, nor, for an ordinary tag, what stands in [style],
    [script], [template], [rt] or [rp]. *)
Definition all_strings (sp : soup) (i : nat) : list str :=
  flat_map (fun j => match nth_error sp j with
                     | Some (NavigableString c s) =>
                         if existsb (class_eqb c)
                              (interesting_string_types (tag_name sp i))
                         then [s] else []
                     | _ => []
                     end) (descendants sp i).

(** The strings below a tag that are plain strings or CDATA sections. *)
Definition is_text_class (c : string_class) : bool :=
  match c with
  | Plain | CData => true
  | _ => false
  end.

Definition text_strings (sp : soup) (i : nat) : list str :=
  flat_map (fun j => match nth_error sp j with
                     | Some (NavigableString c s) =>
                         if is_text_class c then [s] else []
                     | _ => []
                     end) (descendants sp i).

(** [tag.get_text(separator=sep)]; [tag.text] is [get_text sp i []]. *)
Definition get_text (sp : soup) (i : nat) (sep : str) : str :=
  join sep (all_strings sp i).

Fixpoint update_nth {A : Type} (l : list A) (i : nat) (x : A) : list A :=
  match l, i with
  | [], _ => []
  | _ :: l', O => x :: l'
  | y :: l', S i' => y :: update_nth l' i' x
  end.

Definition set_contents (sp : soup) (i : nat) (cs : list nat) : soup :=
  match nth_error sp i with
  | Some (Tag name a _) => update_nth sp i (Tag name a cs)
  | _ => sp
  end.

(** [tag.clear()]: the children are taken out of the tag; they keep their
    own contents. *)
Definition clear (sp : soup) (i : nat) : soup := set_contents sp i [].

(** [tag.string = s]: the tag is cleared and gets one new string, a
    plain [NavigableString]. *)
Definition set_string (sp : soup) (i : nat) (s : str) : soup :=
  set_contents (sp ++ [NavigableString Plain s]) i [length sp].

(** The tag that holds [i] as one of its children. *)
Definition parent (sp : soup) (i : nat) : option nat :=
  List.find (fun p => existsb (Nat.eqb i) (contents sp p)) (seq 0 (length sp)).

Fixpoint after (i : nat) (l : list nat) : list nat :=
  match l with
  | [] => []
  | j :: l' => if Nat.eqb i j then l' else after i l'
  end.

(** [tag.find_next_sibling(names)] *)
Definition find_next_sibling (sp : soup) (i : nat) (names : list str)
  : option nat :=
  match parent sp i with
  | Some p =>
      List.find (fun j => tag_matches names [] (nth_error sp j))
        (after i (contents sp p))
  | None => None
  end.

(** The markup below an object, as [str(tag)] serialises it. *)
Fixpoint markup_upto (depth : nat) (sp : soup) (i : nat) : markup :=
  match depth with
  | O => Text []
  | S depth' =>
      match nth_error sp i with
      | Some (NavigableString c s) =>
          match c with
          | CData | Comment | Declaration | Doctype | ProcessingInstruction =>
              Special c s
          | _ => Text s
          end
      | Some (Tag name a cs) => Element name a (map (markup_upto depth' sp) cs)
      | None => Text []
      end
  end.

Definition markup_of (sp : soup) (i : nat) : markup :=
  markup_upto (S (length sp)) sp i.

(** *** Stores the parser builds, and what the program does to them *)

(** [load_in] on the children of an element. *)
Definition load_all (inside : string_class)
  : list markup -> soup -> soup * list nat :=
  fix load_all (ms : list markup) (sp : soup) : soup * list nat :=
    match ms with
    | [] => (sp, [])
    | m' :: ms' =>
        let (sp1, i) := load_in inside m' sp in
        let (sp2, ids) := load_all ms' sp1 in
        (sp2, i :: ids)
    end.

Definition is_tag (sp : soup) (i : nat) : bool :=
  match nth_error sp i with
  | Some (Tag _ _ _) => true
  | _ => false
  end.

Fixpoint increasing (l : list nat) : Prop :=
  match l with
  | [] => True
  | i :: l' => Forall (lt i) l' /\ increasing l'
  end.

(** In a store as [load] builds it, the children of a tag stand before the
    tag, in their order. *)
Definition tidy (sp : soup) : Prop :=
  forall i, Forall (fun c => (c < i)%nat) (contents sp i)
            /\ increasing (contents sp i).

(** After tags have been cleared and given new strings, a child of a tag
    still stands before the tag, or it is a string (a new one stands at
    the end of the store). *)
Definition ordered (sp : soup) : Prop :=
  forall i c, In c (contents sp i) -> (c < i)%nat \/ is_tag sp c = false.

(** [sp'] comes from [sp] by clearing tags and setting strings of tags
    that stand before [k]. *)
Inductive writes_below (k : nat) (sp : soup) : soup -> Prop :=
| wb_none : writes_below k sp sp
| wb_clear (sp' : soup) (i : nat) :
    writes_below k sp sp' -> (i < k)%nat -> writes_below k sp (clear sp' i)
| wb_set_string (sp' : soup) (i : nat) (s : str) :
    writes_below k sp sp' -> (i < k)%nat ->
    writes_below k sp (set_string sp' i s).

(** The names of the elements of a page. *)
Fixpoint element_names (m : markup) : list str :=
  match m with
  | Text _ | Special _ _ => []
  | Element name _ children => name :: flat_map element_names children
  end.

(** No object is a child of two tags. *)
Definition single_parent (sp : soup) : Prop :=
  forall p q c, In c (contents sp p) -> In c (contents sp q) -> p = q.

(** Every child a tag lists is an object of the store. *)
Definition closed (sp : soup) : Prop :=
  forall i c, In c (contents sp i) -> (c < length sp)%nat.

(** The tag [i] has one child, the string [t]. *)
Definition holds_string (sp : soup) (i : nat) (t : str) : Prop :=
  exists k,
    contents sp i = [k] /\ nth_error sp k = Some (NavigableString Plain t).

(** [sp'] comes from [sp] by clearing tags only: no object is added, a
    tag keeps its name and attributes, and it keeps its children or has
    none left. *)
Definition narrows (sp sp' : soup) : Prop :=
  length sp' = length sp
  /\ (forall j, contents sp' j = contents sp j \/ contents sp' j = [])
  /\ (forall j names want,
         tag_matches names want (nth_error sp' j)
         = tag_matches names want (nth_error sp j)).

(** The body of the loop of lines 58-60 for one cell. *)
Definition rewrite_cell (ucd_nfkc : str -> str) (sp : soup) (cell : nat)
  : soup :=
  set_string sp cell
    (join [SPACE]
       (split (normalize_NFKC ucd_nfkc (get_text sp cell [SPACE])))).

(** A removal rule of [tags_to_remove]: a tag name, or a list of a tag
    name and an attribute filter (line 87 tells them apart). *)
Inductive noise_spec : Type :=
| ByTag (name : str)
| ByTagAttrs (name : str) (want : list (str * str)).

(** The name and the attribute filter a removal rule searches with. *)
Definition spec_name (spec : noise_spec) : str :=
  match spec with
  | ByTag name => name
  | ByTagAttrs name _ => name
  end.

Definition spec_want (spec : noise_spec) : list (str * str) :=
  match spec with
  | ByTag _ => []
  | ByTagAttrs _ want => want
  end.

(** What the generator yields: section title, paragraph text, tag name. *)
Definition paragraph := (str * str * str)%type.

Definition LEAD : str := py "__LEAD__".
(** The title of the pedigree section: U+8840 U+7D71 U+8868. *)
Definition BLOOD_TABLE_SECTION : str := [0x8840; 0x7D71; 0x8868].

(** ** The node normalisers and the section walker *)

Section Walker.

Variable ucd_nfkc : str -> str.
Variable ucd_printable : char -> bool.

(** [text_maker.handle(str(tag))]: the HTML-to-text converter of
    [html2text], with links ignored and no line wrapping, on the
    serialised tag. *)
Variable text_maker_handle : markup -> str.

(** [normalize_table_text], lines 56-61: every cell gets its own
    normalised text as its only string.  The cells are listed first;
    each text is read when its turn comes. *)
Definition normalize_table_text (sp : soup) (table_tag : nat) : soup :=
  fold_left
    (fun sp cell =>
       let cell_text := get_text sp cell [SPACE] in
       let normalized_cell_text := normalize_NFKC ucd_nfkc cell_text in
       set_string sp cell (join [SPACE] (split normalized_cell_text)))
    (find_all sp table_tag [py "th"; py "td"] []) sp.

(** The row of line 66 for one [tr]. *)
Definition row_of_tr (sp : soup) (tr : nat) : list str :=
  map (fun td => strip (replace_char_empty ASTERISK (get_text sp td [SPACE])))
    (find_all sp tr [py "td"; py "th"] []).

(** [normalize_blood_table_text], lines 63-76. *)
Definition normalize_blood_table_text (sp : soup) (table_tag : nat)
  : result str :=
  csv_data <- blood_rows []
                (map (row_of_tr sp) (find_all sp table_tag [py "tr"] [])) ;;
  Ok (normalize_NFKC ucd_nfkc (join [NEWLINE] csv_data)).

(** Lines 86-92 for one section. *)
Definition remove_tags (sp : soup) (section : nat)
  (tags_to_remove : list noise_spec) : soup :=
  fold_left
    (fun sp tag =>
       match tag with
       | ByTagAttrs name want =>
           fold_left clear (find_all sp section [name] want) sp
       | ByTag name => fold_left clear (find_all sp section [name] []) sp
       end)
    tags_to_remove sp.

(** The body of the loop of line 94 for one tag: the store afterwards
    and the text of the paragraph, unless the pedigree parser raises. *)
Definition paragraph_text_of (sp : soup) (section_title : str) (tag : nat)
  (inner_tags_to_remove : list str) : soup * result str :=
  let sp := fold_left clear (find_all sp tag inner_tags_to_remove []) sp in
  if str_eqb (tag_name sp tag) (py "table") then
    if str_eqb section_title BLOOD_TABLE_SECTION then
      (sp, normalize_blood_table_text sp tag)
    else
      let sp := normalize_table_text sp tag in
      (sp, Ok (text_maker_handle (markup_of sp tag)))
  else
    (sp, Ok (normalize_text ucd_nfkc ucd_printable (get_text sp tag []))).

(** The loop of lines 94-109 over the tags found in a section: the
    store afterwards, the paragraphs yielded, and the exception that
    ended the generator, if one did. *)
Fixpoint extract_tags (sp : soup) (section_title : str) (tags : list nat)
  (inner_tags_to_remove : list str) : soup * list paragraph * option exn :=
  match tags with
  | [] => (sp, [], None)
  | tag :: tags' =>
      match paragraph_text_of sp section_title tag inner_tags_to_remove with
      | (sp', Raise e) => (sp', [], Some e)
      | (sp', Ok paragraph_text) =>
          let '(sp'', yielded, raised) :=
            extract_tags sp' section_title tags' inner_tags_to_remove in
          (sp'', (section_title, paragraph_text, tag_name sp' tag) :: yielded,
           raised)
      end
  end.

(** Lines 83-84: the title for a section, given the title so far. *)
Definition title_of_section (sp : soup) (section : nat) (section_title : str)
  : str :=
  match find sp section [py "h2"] with
  | Some h2 => get_text sp h2 []
  | None => section_title
  end.

(** One turn of the [while] loop, lines 83-109: the store afterwards,
    the title in force, the paragraphs yielded and the exception
    raised, if any. *)
Definition walk_section (sp : soup) (section : nat) (section_title : str)
  (tags_to_extract : list str) (tags_to_remove : list noise_spec)
  (inner_tags_to_remove : list str)
  : soup * str * list paragraph * option exn :=
  let section_title := title_of_section sp section section_title in
  let sp := remove_tags sp section tags_to_remove in
  let '(sp, yielded, raised) :=
    extract_tags sp section_title (find_all sp section tags_to_extract [])
      inner_tags_to_remove in
  (sp, section_title, yielded, raised).

(** The [while section:] loop, lines 82-111.  [turns] bounds the number
    of sections visited; [None] says the bound was too small. *)
Fixpoint walk (turns : nat) (sp : soup) (section : option nat)
  (section_title : str) (tags_to_extract : list str)
  (tags_to_remove : list noise_spec) (inner_tags_to_remove : list str)
  : option (list paragraph * option exn) :=
  match section with
  | None => Some ([], None)
  | Some sec =>
      match turns with
      | O => None
      | S turns' =>
          let '(sp', section_title', yielded, raised) :=
            walk_section sp sec section_title tags_to_extract tags_to_remove
              inner_tags_to_remove in
          match raised with
          | Some e => Some (yielded, Some e)
          | None =>
              match walk turns' sp' (find_next_sibling sp' sec [py "section"])
                      section_title' tags_to_extract tags_to_remove
                      inner_tags_to_remove with
              | Some (later, raised') => Some (yielded ++ later, raised')
              | None => None
              end
          end
      end
  end.

(** [extract_paragraphs_from_html], lines 78-111, on the parsed page:
    everything the generator yields, and the exception that ends it, if
    any.  A store holds at least as many objects as it has sections. *)
Definition extract_paragraphs_from_html (html : markup)
  (tags_to_extract : list str) (tags_to_remove : list noise_spec)
  (inner_tags_to_remove : list str)
  : option (list paragraph * option exn) :=
  let (sp, root) := load html [] in
  let section_title := LEAD in
  let section := find sp root [py "section"] in
  walk (length sp) sp section section_title tags_to_extract tags_to_remove
    inner_tags_to_remove.

End Walker.

(** ** The defaults and the loop of [main] *)

(** Footnotes, sources, references, related items, external links. *)
Definition DEFAULT_SECTIONS_TO_IGNORE : list str :=
  [ [0x811A; 0x6CE8]; [0x51FA; 0x5178]; [0x53C2; 0x8003; 0x6587; 0x732E];
    [0x95A2; 0x9023; 0x9805; 0x76EE]; [0x5916; 0x90E8; 0x30EA; 0x30F3; 0x30AF] ].

Definition class_is (value : str) : list (str * str) := [(py "class", value)].

Definition DEFAULT_TAGS_TO_REMOVE : list noise_spec :=
  [ ByTagAttrs (py "div") (class_is (py "hatnote dablink noprint"));
    ByTagAttrs (py "table") (class_is (py "box-" ++ [0x99AC; 0x9F62; 0x65B0]));
    ByTagAttrs (py "table") (class_is (py "box-" ++ [0x99AC; 0x9F62; 0x65E7]));
    ByTagAttrs (py "table")
      (class_is (py "box-" ++ [0x73FE; 0x5F79; 0x7AF6; 0x8D70; 0x99AC]));
    ByTagAttrs (py "table") (class_is (py "infobox"));
    ByTagAttrs (py "table") (class_is (py "navbox"));
    ByTagAttrs (py "div") (class_is (py "navbox")) ].

Definition DEFAULT_TAGS_TO_EXTRACT : list str :=
  [py "p"; py "dd"; py "table"; py "blockquote"].

Definition DEFAULT_INNER_TAGS_TO_REMOVE : list str := [py "sup"].

(** The parsed command line; a list option that was not given is [None]. *)
Record Args : Type := {
  tags_to_extract : option (list str);
  tags_to_remove : option (list str);
  inner_tags_to_remove : option (list str);
  sections_to_ignore : option (list str);
  min_paragraph_length : Z;
  max_paragraph_length : Z
}.

(** The arguments when no option is given. *)
Definition default_args : Args :=
  {| tags_to_extract := None; tags_to_remove := None;
     inner_tags_to_remove := None; sections_to_ignore := None;
     min_paragraph_length := 10; max_paragraph_length := 1000 |}.

(** One line of the input file, with its [html] parsed. *)
Record input_item : Type := {
  in_pageid : Z;
  in_revid : Z;
  in_title : str;
  in_html : markup
}.

Record output_item : Type := {
  id : str;
  pageid : Z;
  revid : Z;
  paragraph_index : Z;
  title : str;
  section : str;
  text : str;
  html_tag : str
}.

(** ["{}".format(z)] for an integer. *)
Definition format_int (z : Z) : str := py (NilZero.string_of_int (Z.to_int z)).

Definition HYPHEN : str := py "-".

(** The record of lines 159-168. *)
Definition output_of (page : input_item) (index : Z)
  (section_title paragraph_text tag_name : str) : output_item :=
  {| id := format_int (in_pageid page) ++ HYPHEN
           ++ format_int (in_revid page) ++ HYPHEN ++ format_int index;
     pageid := in_pageid page;
     revid := in_revid page;
     paragraph_index := index;
     title := in_title page;
     section := section_title;
     text := paragraph_text;
     html_tag := tag_name |}.

(** The loop of lines 149-170 over the paragraphs of one page.  Only a
    paragraph that is written takes an index. *)
Fixpoint write_paragraphs (page : input_item) (ignore : list str)
  (min_length max_length : Z) (index : Z) (items : list paragraph)
  : list output_item :=
  match items with
  | [] => []
  | (section_title, paragraph_text, tag_name) :: items' =>
      if str_in section_title ignore then
        write_paragraphs page ignore min_length max_length index items'
      else if (Z.of_nat (length paragraph_text) <? min_length)%Z then
        write_paragraphs page ignore min_length max_length index items'
      else if (Z.of_nat (length paragraph_text) >? max_length)%Z then
        write_paragraphs page ignore min_length max_length index items'
      else
        output_of page index section_title paragraph_text tag_name
        :: write_paragraphs page ignore min_length max_length (index + 1)%Z
             items'
  end.

(** The three tests of lines 152-157 together: the paragraph is written. *)
Definition passes_filters (ignore : list str) (min_length max_length : Z)
  (item : paragraph) : bool :=
  let '(section_title, paragraph_text, _) := item in
  negb (str_in section_title ignore)
  && negb (Z.of_nat (length paragraph_text) <? min_length)%Z
  && negb (Z.of_nat (length paragraph_text) >? max_length)%Z.

(** The paragraph a record was written from. *)
Definition paragraph_of_output (r : output_item) : paragraph :=
  (section r, text r, html_tag r).

Definition or_default {A : Type} (given : option A) (default : A) : A :=
  match given with
  | Some x => x
  | None => default
  end.

Section Main.

Variable ucd_nfkc : str -> str.
Variable ucd_printable : char -> bool.
Variable text_maker_handle : markup -> str.

(** The body of the loop over the input lines for one page: the records
    written and the exception that went through, if any. *)
Definition main_page (args : Args) (page : input_item)
  : option (list output_item * option exn) :=
  let tags_to_extract :=
    or_default (tags_to_extract args) DEFAULT_TAGS_TO_EXTRACT in
  let tags_to_remove :=
    match tags_to_remove args with
    | Some tags => map ByTag tags
    | None => DEFAULT_TAGS_TO_REMOVE
    end in
  let inner_tags_to_remove :=
    or_default (inner_tags_to_remove args) DEFAULT_INNER_TAGS_TO_REMOVE in
  let sections_to_ignore :=
    or_default (sections_to_ignore args) DEFAULT_SECTIONS_TO_IGNORE in
  match extract_paragraphs_from_html ucd_nfkc ucd_printable text_maker_handle
          (in_html page) tags_to_extract tags_to_remove inner_tags_to_remove
  with
  | Some (items, raised) =>
      Some (write_paragraphs page sections_to_ignore
              (min_paragraph_length args) (max_paragraph_length args) 0%Z
              items,
            raised)
  | None => None
  end.

(** [main], lines 140-170: the records written for the pages of the
    input file, up to the first exception. *)
Fixpoint main (args : Args) (pages : list input_item)
  : option (list output_item * option exn) :=
  match pages with
  | [] => Some ([], None)
  | page :: pages' =>
      match main_page args page with
      | Some (written, Some e) => Some (written, Some e)
      | Some (written, None) =>
          match main args pages' with
          | Some (later, raised) => Some (written ++ later, raised)
          | None => None
          end
      | None => None
      end
  end.

End Main.

(** A converter that writes nothing, for running the walker on pages
    without tables outside the pedigree section. *)
Definition no_text_maker : markup -> str := fun _ => [].

(** ** Pages used as examples *)

Definition element (name : string) (children : list markup) : markup :=
  Element (py name) [] children.
Arguments element name%_string children.

(** A parsed page: the document object, [html], [body], the sections. *)
Definition page_of (sections : list markup) : markup :=
  element "[document]" [element "html" [element "body" sections]].

(** Three sections: a lead paragraph, and two sections that open with a
    second-level heading and hold one paragraph each. *)
Definition three_section_page (h1 h2 p0 p1 p2 : str) : markup :=
  page_of
    [ element "section" [element "p" [Text p0]];
      element "section" [element "h2" [Text h1]; element "p" [Text p1]];
      element "section" [element "h2" [Text h2]; element "p" [Text p2]] ].

(** A lead section, a section with a heading, and a section without
    one, with one paragraph each. *)
Definition carried_title_page (h p0 p1 p2 : str) : markup :=
  page_of
    [ element "section" [element "p" [Text p0]];
      element "section" [element "h2" [Text h]; element "p" [Text p1]];
      element "section" [element "p" [Text p2]] ].

(** A section with a heading, then a section whose children are a
    paragraph and a sub-section; the sub-section has a heading. *)
Definition subsection_heading_page : markup :=
  page_of
    [ element "section"
        [element "h2" [Text (py "A")]; element "p" [Text (py "first")]];
      element "section"
        [ element "p" [Text (py "second")];
          element "section"
            [ element "h2" [Text (py "Sub")];
              element "p" [Text (py "third")] ] ] ].

(** A paragraph and a heading that hold a style sheet and a comment
    between their words. *)
Definition styled_page : markup :=
  page_of
    [ element "section"
        [ element "h2"
            [ Text (py "A"); element "style" [Text (py ".x{}")];
              Text (py "B") ];
          element "p"
            [ Text (py "Visible");
              element "style" [Text (py ".x{color:red}")];
              Text (py " text"); Special Comment (py "note");
              Text (py " end") ] ] ].

(** A paragraph inside a table cell, and one inside a quotation. *)
Definition nested_page : markup :=
  page_of
    [ element "section"
        [ element "table"
            [element "tr" [element "td" [element "p" [Text (py "in a cell")]]]];
          element "blockquote" [element "p" [Text (py "quoted")]] ] ].

(** A heading with two spaces in its text. *)
Definition spaced_heading_page : markup :=
  page_of
    [ element "section"
        [element "h2" [Text (py "A  B")]; element "p" [Text (py "text")]] ].

(** A section whose only second-level heading is inside a [div]. *)
Definition nested_heading_page : markup :=
  page_of
    [ element "section"
        [ element "div" [element "h2" [Text (py "Nested")]];
          element "p" [Text (py "text")] ] ].

(** A pedigree table with a row without cells, and one with a row that is
    a lone "within 5 generations" cell. *)
Definition empty_row_table : markup :=
  element "table"
    [ element "tr" [element "td" [Text ([FATHER; SPACE] ++ py "Sire")]];
      element "tr" [] ].

Definition lone_cell_table : markup :=
  element "table" [element "tr" [element "th" [Text (WITHIN_5 ++ py " *")]]].

(** A table of two rows of two cells, and a page with a lead paragraph that
    carries a footnote marker and a section "History" that holds the
    table. *)
Definition two_by_two_table : markup :=
  element "table"
    [ element "tr" [element "td" [Text (py "a")]; element "td" [Text (py "b")]];
      element "tr" [element "td" [Text (py "c")]; element "td" [Text (py "d")]] ].

Definition history_page : markup :=
  page_of
    [ element "section"
        [ element "p"
            [Text (py "Hello   world"); element "sup" [Text (py "[1]")]] ];
      element "section"
        [element "h2" [Text (py "History")]; two_by_two_table] ].

(** A section with a navigation box before its paragraph. *)
Definition navbox_page : markup :=
  page_of
    [ element "section"
        [ Element (py "div") [(py "class", AttrList [py "navbox"])]
            [element "p" [Text (py "See also")]];
          element "p" [Text (py "Body text")] ] ].

(** A page whose paragraph is in no [section] element. *)
Definition bare_page : markup :=
  page_of [element "p" [Text (py "No section around this paragraph")]].

(** A page with one paragraph of the given text in its lead section. *)
Definition one_paragraph_page (t : str) : input_item :=
  {| in_pageid := 7; in_revid := 42; in_title := py "T";
     in_html := page_of [element "section" [element "p" [Text t]]] |}.

(** ** Facts about the string functions *)

Lemma isspace_SPACE : isspace SPACE = true.
Proof. reflexivity. Qed.

Lemma rstrip_cons_nonspace (c : char) (s : str) :
  isspace c = false -> rstrip (c :: s) = c :: rstrip s.
Proof.
  intros Hc. simpl. rewrite Hc. destruct (rstrip s); reflexivity.
Qed.

Lemma rstrip_cons_space (c : char) (s : str) :
  isspace c = true ->
  rstrip (c :: s) = match rstrip s with [] => [] | r => c :: r end.
Proof.
  intros Hc. simpl. rewrite Hc. reflexivity.
Qed.

Lemma lstrip_no_leading (s : str) : leading_ws s = false -> lstrip s = s.
Proof.
  destruct s as [|c s]; simpl; intros H; [reflexivity|]. now rewrite H.
Qed.

Lemma leading_ws_lstrip (s : str) : leading_ws (lstrip s) = false.
Proof.
  induction s as [|c s IH]; simpl; [reflexivity|].
  destruct (isspace c) eqn:Hc; [exact IH|]. simpl. exact Hc.
Qed.

(** The last character of [rstrip s], when there is one, is no white
    space. *)
Lemma trailing_ws_rstrip (s : str) : trailing_ws (rstrip s) = false.
Proof.
  unfold trailing_ws.
  induction s as [|c s IH]; simpl; [reflexivity|].
  destruct (rstrip s) as [|d r] eqn:Hr.
  - destruct (isspace c) eqn:Hc; simpl; [reflexivity | exact Hc].
  - change (rev (c :: d :: r)) with (rev (d :: r) ++ [c]).
    destruct (rev (d :: r)) as [|e t] eqn:He.
    + apply (f_equal (@List.length _)) in He.
      rewrite length_rev in He. discriminate He.
    + simpl in IH |- *. exact IH.
Qed.

(** Dropping leading white space leaves the end of the string alone. *)
Lemma trailing_ws_lstrip (s : str) :
  trailing_ws s = false -> trailing_ws (lstrip s) = false.
Proof.
  unfold trailing_ws.
  induction s as [|c s IH]; simpl; intros H; [reflexivity|].
  destruct (isspace c) eqn:Hc; [|exact H].
  apply IH. destruct (rev s) as [|d r] eqn:Hr; [reflexivity|].
  simpl in H |- *. exact H.
Qed.

Lemma leading_ws_strip (s : str) : leading_ws (strip s) = false.
Proof. apply leading_ws_lstrip. Qed.

Lemma trailing_ws_strip (s : str) : trailing_ws (strip s) = false.
Proof. apply trailing_ws_lstrip, trailing_ws_rstrip. Qed.

(** *** [" ".join(s.split())] collapses and trims *)

Lemma spaced_join (x : str) (l : list str) :
  spaced (x :: l) = SPACE :: join [SPACE] (x :: l).
Proof.
  revert x. induction l as [|y l IH]; intros x.
  - unfold spaced. simpl. now rewrite app_nil_r.
  - change (spaced (x :: y :: l)) with (SPACE :: x ++ spaced (y :: l)).
    rewrite IH. reflexivity.
Qed.

Lemma join_tl_spaced (l : list str) : join [SPACE] l = tl (spaced l).
Proof.
  destruct l as [|x l]; [reflexivity|]. now rewrite spaced_join.
Qed.

Lemma leading_ws_rstrip_sub (s : str) :
  leading_ws (rstrip (re_sub_ws_from [SPACE] true s)) = false.
Proof.
  induction s as [|c s IH]; simpl; [reflexivity|].
  destruct (isspace c) eqn:Hc; [exact IH|].
  fold (rstrip (c :: re_sub_ws_from [SPACE] false s)).
  rewrite rstrip_cons_nonspace by exact Hc. simpl. exact Hc.
Qed.

Lemma spaced_split_from (s : str) :
  spaced (split_from [] s)
  = match rstrip (re_sub_ws_from [SPACE] true s) with
    | [] => []
    | r => SPACE :: r
    end
  /\ forall cur, cur <> [] ->
       spaced (split_from cur s)
       = SPACE :: rev cur ++ rstrip (re_sub_ws_from [SPACE] false s).
Proof.
  induction s as [|c s [IH0 IH1]].
  - split; [reflexivity|].
    intros [|d cur] Hcur; [congruence|].
    unfold spaced. simpl. now rewrite !app_nil_r.
  - split.
    + simpl. destruct (isspace c) eqn:Hc; [exact IH0|].
      rewrite IH1 by discriminate.
      fold (rstrip (c :: re_sub_ws_from [SPACE] false s)).
      rewrite rstrip_cons_nonspace by exact Hc. reflexivity.
    + intros cur Hcur. simpl. destruct (isspace c) eqn:Hc.
      * destruct cur as [|d cur]; [congruence|].
        change (spaced (rev (d :: cur) :: split_from [] s))
          with (SPACE :: rev (d :: cur) ++ spaced (split_from [] s)).
        rewrite IH0.
        change ([SPACE] ++ re_sub_ws_from [SPACE] true s)
          with (SPACE :: re_sub_ws_from [SPACE] true s).
        rewrite (rstrip_cons_space SPACE _ isspace_SPACE).
        destruct (rstrip (re_sub_ws_from [SPACE] true s)); reflexivity.
      * rewrite IH1 by discriminate.
        fold (rstrip (c :: re_sub_ws_from [SPACE] false s)).
        rewrite rstrip_cons_nonspace by exact Hc.
        simpl. now rewrite <- app_assoc.
Qed.

Lemma strip_re_sub_ws (s : str) :
  strip (re_sub_ws [SPACE] s) = rstrip (re_sub_ws_from [SPACE] true s).
Proof.
  unfold strip, re_sub_ws. destruct s as [|c s]; [reflexivity|].
  simpl re_sub_ws_from. destruct (isspace c) eqn:Hc.
  - change ([SPACE] ++ re_sub_ws_from [SPACE] true s)
      with (SPACE :: re_sub_ws_from [SPACE] true s).
    rewrite (rstrip_cons_space SPACE _ isspace_SPACE).
    pose proof (leading_ws_rstrip_sub s) as Hl.
    destruct (rstrip (re_sub_ws_from [SPACE] true s)) as [|d r] eqn:Hr;
      [reflexivity|].
    change (lstrip (SPACE :: d :: r)) with (lstrip (d :: r)).
    now apply lstrip_no_leading.
  - rewrite rstrip_cons_nonspace by exact Hc. simpl. now rewrite Hc.
Qed.

(** Splitting on white space and joining with single spaces is the same
    as replacing every run of white space by one space and trimming. *)
Lemma join_split_collapse (s : str) :
  join [SPACE] (split s) = strip (re_sub_ws [SPACE] s).
Proof.
  rewrite join_tl_spaced, strip_re_sub_ws. unfold split.
  rewrite (proj1 (spaced_split_from s)).
  destruct (rstrip (re_sub_ws_from [SPACE] true s)); reflexivity.
Qed.

Section UnicodeFacts.

Variable ucd_nfkc : str -> str.
Variable ucd_printable : char -> bool.

Lemma filter_remove_nonprintable (s : str) :
  filter (isprintable ucd_printable) s
  = remove_nonprintable ucd_printable s.
Proof.
  induction s as [|c s IH]; simpl; [reflexivity|].
  now rewrite IH.
Qed.

(** C1. For every input string and every character database,
    [normalize_text] computes the four steps of the specification in
    their order: NFKC normalisation, then every run of white space
    collapsed to one ASCII space with the ends trimmed (which is what
    splitting on white space and joining with single spaces does), then
    the characters that are not printable removed, then the ends
    trimmed again. *)
Theorem normalize_text_four_steps (s : str) :
  normalize_text ucd_nfkc ucd_printable s
  = spec_normalize_pipeline ucd_nfkc ucd_printable s
  /\ collapse_and_trim (normalize_NFKC ucd_nfkc s)
     = join [SPACE] (split (normalize_NFKC ucd_nfkc s)).
Proof.
  unfold normalize_text, spec_normalize_pipeline, collapse_and_trim.
  rewrite join_split_collapse, filter_remove_nonprintable.
  split; reflexivity.
Qed.

End UnicodeFacts.

(** ** The pedigree rows *)

Lemma startswith_cons (p : char) (prefix s : str) :
  startswith (p :: prefix) s = true ->
  exists s', s = p :: s' /\ startswith prefix s' = true.
Proof.
  destruct s as [|c s]; simpl; [discriminate|].
  intros H. apply andb_true_iff in H as [Hc H].
  apply N.eqb_eq in Hc. subst c. now exists s.
Qed.

Lemma starts_with_one (keyword cell : str) :
  starts_with_any [keyword] cell = startswith keyword cell.
Proof. unfold starts_with_any. simpl. apply orb_false_r. Qed.

Lemma inbreeding_not_parent (cell : str) :
  starts_with_any inbreeding_keywords cell = true ->
  starts_with_any parent_keywords cell = false.
Proof.
  unfold inbreeding_keywords. rewrite starts_with_one. intros H.
  apply startswith_cons in H as (s1 & -> & _). reflexivity.
Qed.

Lemma maternal_not_parent (cell : str) :
  starts_with_any maternal_keywords cell = true ->
  starts_with_any parent_keywords cell = false.
Proof.
  unfold maternal_keywords. rewrite starts_with_one. intros H.
  apply startswith_cons in H as (s1 & -> & H).
  apply startswith_cons in H as (s2 & -> & _). reflexivity.
Qed.

Lemma maternal_not_inbreeding (cell : str) :
  starts_with_any maternal_keywords cell = true ->
  starts_with_any inbreeding_keywords cell = false.
Proof.
  unfold maternal_keywords. rewrite starts_with_one. intros H.
  apply startswith_cons in H as (s1 & -> & _). reflexivity.
Qed.

(** One run of white space in front of [post] is what [lstrip] drops. *)
Lemma lstrip_run (ws post : str) :
  forallb isspace ws = true -> leading_ws post = false ->
  lstrip (ws ++ post) = post.
Proof.
  induction ws as [|c ws IH]; simpl; intros Hws Hpost.
  - now apply lstrip_no_leading.
  - apply andb_true_iff in Hws as [Hc Hws]. rewrite Hc. now apply IH.
Qed.

(** [re.sub(r'\s+', repl, s, count=1)] replaces the leftmost run of white
    space, all of it, and nothing after it. *)
Lemma re_sub_ws_count1_first_run (repl pre ws post : str) :
  forallb (fun c => negb (isspace c)) pre = true ->
  ws <> [] -> forallb isspace ws = true -> leading_ws post = false ->
  re_sub_ws_count1 repl (pre ++ ws ++ post) = pre ++ repl ++ post.
Proof.
  intros Hpre Hne Hws Hpost.
  induction pre as [|c pre IH]; simpl in *.
  - destruct ws as [|w ws]; [congruence|]. simpl in *.
    apply andb_true_iff in Hws as [Hw Hws]. rewrite Hw.
    now rewrite lstrip_run.
  - apply andb_true_iff in Hpre as [Hc Hpre].
    apply negb_true_iff in Hc. rewrite Hc. now rewrite IH.
Qed.

Lemma re_sub_ws_count1_no_ws (repl s : str) :
  forallb (fun c => negb (isspace c)) s = true ->
  re_sub_ws_count1 repl s = s.
Proof.
  induction s as [|c s IH]; simpl; intros H; [reflexivity|].
  apply andb_true_iff in H as [Hc H]. apply negb_true_iff in Hc.
  rewrite Hc. now rewrite IH.
Qed.

Lemma blood_row_parent (first : str) (others : list str) :
  starts_with_any parent_keywords first = true ->
  blood_row (first :: others)
  = Ok (Some (join (py " - ")
                (re_sub_ws_count1 (py ": ") first :: others))).
Proof.
  intros H. unfold blood_row. cbn [getitem nth_error bind]. rewrite H.
  reflexivity.
Qed.

Lemma blood_row_inbreeding (first second : str) (others : list str) :
  starts_with_any inbreeding_keywords first = true ->
  blood_row (first :: second :: others)
  = Ok (Some (join (py ": ")
                (replace_char_empty SPACE first
                 :: re_sub_ws [SPACE] second :: others))).
Proof.
  intros H. unfold blood_row. cbn [getitem nth_error bind].
  rewrite (inbreeding_not_parent _ H), H. reflexivity.
Qed.

Lemma blood_row_inbreeding_alone (first : str) :
  starts_with_any inbreeding_keywords first = true ->
  blood_row [first] = Raise IndexError.
Proof.
  intros H. unfold blood_row. cbn [getitem nth_error bind].
  rewrite (inbreeding_not_parent _ H), H. reflexivity.
Qed.

Lemma blood_row_maternal (first : str) (others : list str) :
  starts_with_any maternal_keywords first = true ->
  blood_row (first :: others) = Ok (Some (join (py ": ") (first :: others))).
Proof.
  intros H. unfold blood_row. cbn [getitem nth_error bind].
  rewrite (maternal_not_parent _ H), (maternal_not_inbreeding _ H), H.
  reflexivity.
Qed.

Lemma blood_row_other (first : str) (others : list str) :
  starts_with_any parent_keywords first = false ->
  starts_with_any inbreeding_keywords first = false ->
  starts_with_any maternal_keywords first = false ->
  blood_row (first :: others) = Ok None.
Proof.
  intros H1 H2 H3. unfold blood_row. cbn [getitem nth_error bind].
  rewrite H1, H2, H3. reflexivity.
Qed.

Lemma blood_rows_app (rows1 rows2 : list (list str)) :
  forall csv_data,
    blood_rows csv_data (rows1 ++ rows2)
    = (csv_data' <- blood_rows csv_data rows1 ;; blood_rows csv_data' rows2).
Proof.
  induction rows1 as [|row rows1 IH]; intros csv_data; simpl; [reflexivity|].
  destruct (blood_row row) as [[l|]|e]; simpl; auto.
Qed.

(** A table with a row that raises makes the parser raise: the rows
    before it raise or go through, and the loop stops there at the
    latest. *)
Lemma blood_rows_raise (rows : list (list str)) (row : list str) :
  In row rows -> blood_row row = Raise IndexError ->
  forall csv_data, blood_rows csv_data rows = Raise IndexError.
Proof.
  intros Hin Hrow.
  induction rows as [|r rows IH]; [destruct Hin|].
  intros csv_data. simpl.
  destruct Hin as [->|Hin].
  - rewrite Hrow. reflexivity.
  - destruct (blood_row r) as [[l|]|[]]; simpl; auto.
Qed.

(** A row that is neither empty nor recognised leaves the parser's result
    as it is without the row. *)
Lemma blood_rows_skip (before after : list (list str)) (row : list str) :
  blood_row row = Ok None ->
  forall csv_data,
    blood_rows csv_data (before ++ row :: after)
    = blood_rows csv_data (before ++ after).
Proof.
  intros Hrow csv_data. rewrite !blood_rows_app.
  destruct (blood_rows csv_data before) as [csv_data'|e]; simpl; [|reflexivity].
  now rewrite Hrow.
Qed.

(** When the loop over the rows raises, one of the rows does. *)
Lemma blood_rows_raise_inv (rows : list (list str)) :
  forall csv_data e,
    blood_rows csv_data rows = Raise e ->
    exists row, In row rows /\ blood_row row = Raise e.
Proof.
  induction rows as [|r rows IH]; intros csv_data e; simpl; [discriminate|].
  destruct (blood_row r) as [[l|]|e'] eqn:Hr; simpl; intros H.
  - destruct (IH _ _ H) as (row & Hin & Hrow). exists row. auto.
  - destruct (IH _ _ H) as (row & Hin & Hrow). exists row. auto.
  - injection H as ->. exists r. auto.
Qed.

(** A row raises only when it is empty or is a lone "within 5
    generations" cell. *)
Lemma blood_row_raise_inv (row : list str) (e : exn) :
  blood_row row = Raise e ->
  row = []
  \/ exists first,
       row = [first] /\ starts_with_any inbreeding_keywords first = true.
Proof.
  destruct row as [|first [|second others]]; [now left| |].
  - intros H. right. exists first. split; [reflexivity|].
    unfold blood_row in H. cbn [getitem nth_error bind] in H.
    destruct (starts_with_any parent_keywords first); [discriminate|].
    destruct (starts_with_any inbreeding_keywords first); [reflexivity|].
    destruct (starts_with_any maternal_keywords first); discriminate.
  - unfold blood_row. cbn [getitem nth_error bind setitem].
    destruct (starts_with_any parent_keywords first); [discriminate|].
    destruct (starts_with_any inbreeding_keywords first); [discriminate|].
    destruct (starts_with_any maternal_keywords first); discriminate.
Qed.

(** C8, as the specification states it, fails on the code: a "within 5
    generations" row keeps the white space of its first cell that is not
    an ASCII space (here a tab), joins all of its cells and not the first
    two only, and raises when it has one cell.  The keywords are those of
    the source: the rows of the specification's examples, with their
    English labels taken literally, are dropped. *)
Lemma blood_row_not_as_specified :
  (blood_row [WITHIN_5 ++ [0x09] ++ py "x"; py "y"]
   = Ok (Some (WITHIN_5 ++ [0x09] ++ py "x: y"))
   /\ spec_blood_row [WITHIN_5 ++ [0x09] ++ py "x"; py "y"]
      = Some (WITHIN_5 ++ py "x: y"))
  /\ (blood_row [WITHIN_5; py "a"; py "b"] = Ok (Some (WITHIN_5 ++ py ": a: b"))
      /\ spec_blood_row [WITHIN_5; py "a"; py "b"]
         = Some (WITHIN_5 ++ py ": a"))
  /\ (blood_row [WITHIN_5] = Raise IndexError
      /\ spec_blood_row [WITHIN_5] = Some (WITHIN_5 ++ py ": "))
  /\ blood_row [py "father name"; py "x"] = Ok None
  /\ blood_row [py "within 5 generations"; py "a b  c"] = Ok None.
Proof. repeat split; reflexivity. Qed.

(** C8, amended.  For every row [first :: others] of cell texts:
    if [first] starts with a parent keyword (U+7236 or U+6BCD followed by
    a space or by U+306E), the leftmost run of white space of [first], and
    only that run, becomes [": "] and all cells are joined by [" - "];
    if it starts with the "within 5 generations" keyword and the row has
    a second cell, the ASCII spaces of [first] are removed, the runs of
    white space of the second cell become single spaces, and all cells
    are joined by [": "];
    if it starts with the maternal-line keyword, all cells are joined by
    [": "];
    otherwise the row is dropped.  The three rows of the specification,
    with the keywords of the source for its English labels, come out as it
    says. *)
Theorem blood_row_classification (first : str) (others : list str) :
  (starts_with_any parent_keywords first = true ->
   blood_row (first :: others)
   = Ok (Some (join (py " - ")
                 (re_sub_ws_count1 (py ": ") first :: others)))
   /\ forall pre ws post,
        first = pre ++ ws ++ post ->
        forallb (fun c => negb (isspace c)) pre = true ->
        ws <> [] -> forallb isspace ws = true -> leading_ws post = false ->
        re_sub_ws_count1 (py ": ") first = pre ++ py ": " ++ post)
  /\ (starts_with_any inbreeding_keywords first = true ->
      forall second others',
        others = second :: others' ->
        blood_row (first :: others)
        = Ok (Some (join (py ": ")
                      (replace_char_empty SPACE first
                       :: re_sub_ws [SPACE] second :: others'))))
  /\ (starts_with_any maternal_keywords first = true ->
      blood_row (first :: others)
      = Ok (Some (join (py ": ") (first :: others))))
  /\ (starts_with_any parent_keywords first = false ->
      starts_with_any inbreeding_keywords first = false ->
      starts_with_any maternal_keywords first = false ->
      blood_row (first :: others) = Ok None)
  /\ blood_row [[FATHER; SPACE] ++ py "name"; py "x"]
     = Ok (Some ([FATHER] ++ py ": name - x"))
  /\ blood_row [WITHIN_5 ++ py " 2 x"; py "a b  c"]
     = Ok (Some (WITHIN_5 ++ py "2x: a b c"))
  /\ blood_row [py "unrelated"; py "x"] = Ok None.
Proof.
  split; [|split; [|split; [|split; [|repeat split; reflexivity]]]].
  - intros H. split; [now apply blood_row_parent|].
    intros pre ws post -> Hpre Hne Hws Hpost.
    now apply re_sub_ws_count1_first_run.
  - intros H second others' ->. now apply blood_row_inbreeding.
  - apply blood_row_maternal.
  - apply blood_row_other.
Qed.

Lemma blood_row_classification_witness :
  blood_row [[FATHER; NO; FATHER] ++ py "  A B"; py "x"; py "y"]
  = Ok (Some ([FATHER; NO; FATHER] ++ py ": A B - x - y"))
  /\ blood_row [WITHIN_5 ++ py " a"; py "b   c"; py "d"]
     = Ok (Some (WITHIN_5 ++ py "a: b c: d"))
  /\ blood_row [MATERNAL_LINE; py "F4"] = Ok (Some (MATERNAL_LINE ++ py ": F4")).
Proof.
  split; [|split].
  - destruct (blood_row_classification
                ([FATHER; NO; FATHER] ++ py "  A B") [py "x"; py "y"])
      as [Hp _].
    destruct (Hp eq_refl) as [Hrow Hrun].
    refine (eq_trans Hrow _).
    rewrite (Hrun [FATHER; NO; FATHER] (py "  ") (py "A B"));
      [reflexivity | reflexivity | reflexivity | discriminate
      | reflexivity | reflexivity].
  - destruct (blood_row_classification (WITHIN_5 ++ py " a")
                [py "b   c"; py "d"]) as (_ & Hi & _).
    refine (eq_trans (Hi eq_refl (py "b   c") [py "d"] eq_refl) _).
    reflexivity.
  - destruct (blood_row_classification MATERNAL_LINE [py "F4"])
      as (_ & _ & Hm & _).
    refine (eq_trans (Hm eq_refl) _). reflexivity.
Defined.

(** ** The store: what clearing and rewriting tags leaves alone *)

Lemma nth_error_update_nth {A : Type} (l : list A) (i j : nat) (x : A) :
  nth_error (update_nth l i x) j
  = if Nat.eqb i j then option_map (fun _ => x) (nth_error l j)
    else nth_error l j.
Proof.
  revert i j. induction l as [|y l IH]; intros [|i] [|j]; simpl; try reflexivity.
  - now destruct (Nat.eqb i j).
  - apply IH.
Qed.

Lemma tag_name_set_contents (sp : soup) (i : nat) (cs : list nat) (j : nat) :
  tag_name (set_contents sp i cs) j = tag_name sp j.
Proof.
  unfold set_contents.
  destruct (nth_error sp i) as [[s|name a cs']|] eqn:Hi; try reflexivity.
  unfold tag_name. rewrite nth_error_update_nth.
  destruct (Nat.eqb_spec i j) as [->|Hne]; [|reflexivity].
  rewrite Hi. reflexivity.
Qed.

Lemma tag_name_new_string (sp : soup) (s : str) (j : nat) :
  tag_name (sp ++ [NavigableString Plain s]) j = tag_name sp j.
Proof.
  unfold tag_name.
  destruct (Nat.lt_ge_cases j (length sp)) as [Hlt|Hge].
  - now rewrite nth_error_app1.
  - rewrite nth_error_app2 by exact Hge.
    rewrite (proj2 (nth_error_None sp j) Hge).
    destruct (j - length sp)%nat as [|[|k]]; reflexivity.
Qed.

Lemma tag_name_clear (sp : soup) (i j : nat) :
  tag_name (clear sp i) j = tag_name sp j.
Proof. apply tag_name_set_contents. Qed.

Lemma tag_name_set_string (sp : soup) (i : nat) (s : str) (j : nat) :
  tag_name (set_string sp i s) j = tag_name sp j.
Proof.
  unfold set_string. now rewrite tag_name_set_contents, tag_name_new_string.
Qed.

Lemma tag_name_fold_left {A : Type} (f : soup -> A -> soup) (j : nat) :
  (forall sp x, tag_name (f sp x) j = tag_name sp j) ->
  forall l sp, tag_name (fold_left f l sp) j = tag_name sp j.
Proof.
  intros Hf l. induction l as [|x l IH]; intros sp; simpl; [reflexivity|].
  now rewrite IH, Hf.
Qed.

Lemma tag_matches_name (names : list str) (want : list (str * str))
  (sp : soup) (j : nat) :
  tag_matches names want (nth_error sp j) = true ->
  name_matches names (tag_name sp j) = true.
Proof.
  unfold tag_matches, tag_name.
  destruct (nth_error sp j) as [[s|name a cs]|]; try discriminate.
  intros H. now apply andb_prop in H as [H _].
Qed.

Lemma str_eqb_eq (a : str) : forall b, str_eqb a b = true -> a = b.
Proof.
  induction a as [|x a IH]; intros [|y b]; simpl; try discriminate;
    [reflexivity|].
  intros H. apply andb_prop in H as [Hx Hb]. apply N.eqb_eq in Hx.
  f_equal; [exact Hx | now apply IH].
Qed.

(** For a tag that is no string container, the strings that count are
    the plain ones and the CDATA sections. *)
Lemma all_strings_text (sp : soup) (i : nat) :
  string_container (tag_name sp i) = None ->
  all_strings sp i = text_strings sp i.
Proof.
  intros H. unfold all_strings, text_strings, interesting_string_types.
  rewrite H. apply flat_map_ext. intros j.
  destruct (nth_error sp j) as [[c s|name a cs]|]; try reflexivity.
  now destruct c.
Qed.

(** A tag found under one name carries that name. *)
Lemma find_all_name (sp : soup) (i j : nat) (name : str)
  (want : list (str * str)) :
  In j (find_all sp i [name] want) -> tag_name sp j = name.
Proof.
  intros H. unfold find_all in H. apply filter_In in H as [_ H].
  apply tag_matches_name in H. unfold name_matches, str_in in H.
  simpl in H. rewrite orb_false_r in H. now apply str_eqb_eq.
Qed.

Section WalkerFacts.

Variable ucd_nfkc : str -> str.
Variable ucd_printable : char -> bool.
Variable text_maker_handle : markup -> str.

Lemma tag_name_normalize_table_text (sp : soup) (table_tag j : nat) :
  tag_name (normalize_table_text ucd_nfkc sp table_tag) j = tag_name sp j.
Proof.
  unfold normalize_table_text. apply tag_name_fold_left.
  intros sp' cell. apply tag_name_set_string.
Qed.

Lemma tag_name_paragraph_text_of (sp : soup) (section_title : str)
  (tag : nat) (inner : list str) (j : nat) :
  tag_name (fst (paragraph_text_of ucd_nfkc ucd_printable text_maker_handle
                   sp section_title tag inner)) j
  = tag_name sp j.
Proof.
  unfold paragraph_text_of.
  set (sp1 := fold_left clear (find_all sp tag inner []) sp).
  assert (H1 : tag_name sp1 j = tag_name sp j)
    by (apply tag_name_fold_left; intros; apply tag_name_clear).
  destruct (str_eqb (tag_name sp1 tag) (py "table")); [|exact H1].
  destruct (str_eqb section_title BLOOD_TABLE_SECTION); [exact H1|].
  simpl. now rewrite tag_name_normalize_table_text.
Qed.

(** Outside the pedigree section no tag makes the loop raise. *)
Lemma paragraph_text_of_no_raise (sp : soup) (section_title : str)
  (tag : nat) (inner : list str) :
  str_eqb section_title BLOOD_TABLE_SECTION = false ->
  exists paragraph_text,
    snd (paragraph_text_of ucd_nfkc ucd_printable text_maker_handle
           sp section_title tag inner) = Ok paragraph_text.
Proof.
  intros Ht. unfold paragraph_text_of. rewrite Ht.
  destruct (str_eqb _ (py "table")); simpl; eauto.
Qed.

(** The loop over the tags of a section: every paragraph carries the
    title in force; the tag names yielded are those of the tags found,
    in their order, up to the tag that raises, if any; and nothing
    raises outside the pedigree section. *)
Lemma extract_tags_spec (section_title : str) (inner : list str)
  (tags : list nat) :
  forall sp,
    let '(_, yielded, raised) :=
      extract_tags ucd_nfkc ucd_printable text_maker_handle
        sp section_title tags inner in
    Forall (fun y => fst (fst y) = section_title) yielded
    /\ map snd yielded = map (tag_name sp) (firstn (length yielded) tags)
    /\ (raised = None -> length yielded = length tags)
    /\ (str_eqb section_title BLOOD_TABLE_SECTION = false -> raised = None).
Proof.
  induction tags as [|tag tags IH]; intros sp; simpl.
  - repeat split; auto.
  - pose proof (tag_name_paragraph_text_of sp section_title tag inner) as Hn.
    pose proof (paragraph_text_of_no_raise sp section_title tag inner) as Hr.
    destruct (paragraph_text_of ucd_nfkc ucd_printable text_maker_handle
                sp section_title tag inner) as [sp' [paragraph_text|e]];
      simpl in Hn, Hr.
    + specialize (IH sp').
      destruct (extract_tags ucd_nfkc ucd_printable text_maker_handle
                  sp' section_title tags inner) as [[sp'' yielded] raised].
      destruct IH as (IH1 & IH2 & IH3 & IH4).
      repeat split.
      * constructor; [reflexivity | exact IH1].
      * simpl. rewrite Hn. f_equal. rewrite IH2.
        apply map_ext. exact Hn.
      * intros H. simpl. f_equal. now apply IH3.
      * exact IH4.
    + repeat split; auto; try discriminate.
      intros Ht. destruct (Hr Ht) as [t Ht']. discriminate Ht'.
Qed.

End WalkerFacts.

Lemma tag_name_remove_tags (sp : soup) (section : nat)
  (tags_to_remove : list noise_spec) (j : nat) :
  tag_name (remove_tags sp section tags_to_remove) j = tag_name sp j.
Proof.
  unfold remove_tags. apply tag_name_fold_left.
  intros sp' [name|name want];
    apply tag_name_fold_left; intros; apply tag_name_clear.
Qed.

Lemma join_empty_sep (l : list str) : join [] l = concat l.
Proof.
  induction l as [|x [|y l] IH]; [reflexivity | |].
  - simpl. now rewrite app_nil_r.
  - change (join [] (x :: y :: l)) with (x ++ join [] (y :: l)).
    now rewrite IH.
Qed.

Section WalkerTheorems.

Variable ucd_nfkc : str -> str.
Variable ucd_printable : char -> bool.
Variable text_maker_handle : markup -> str.

(** One turn of the walker: the title is that of [title_of_section],
    every paragraph carries it, one paragraph is yielded for each tag
    found, in order, up to a raise, and only the pedigree section can
    raise. *)
Lemma walk_section_spec (sp : soup) (section : nat) (section_title : str)
  (te : list str) (tr : list noise_spec) (inner : list str) :
  let tags := find_all (remove_tags sp section tr) section te [] in
  let '(_, title', yielded, raised) :=
    walk_section ucd_nfkc ucd_printable text_maker_handle
      sp section section_title te tr inner in
  title' = title_of_section sp section section_title
  /\ Forall (fun y => fst (fst y) = title') yielded
  /\ map snd yielded = map (tag_name sp) (firstn (length yielded) tags)
  /\ (raised = None -> length yielded = length tags)
  /\ (str_eqb title' BLOOD_TABLE_SECTION = false -> raised = None).
Proof.
  unfold walk_section. cbv zeta.
  pose proof (extract_tags_spec ucd_nfkc ucd_printable text_maker_handle
                (title_of_section sp section section_title) inner
                (find_all (remove_tags sp section tr) section te [])
                (remove_tags sp section tr)) as H.
  destruct (extract_tags _ _ _ _ _ _ _) as [[sp' yielded] raised].
  destruct H as (H1 & H2 & H3 & H4).
  repeat split; auto.
  rewrite H2. apply map_ext. intros j. apply tag_name_remove_tags.
Qed.

(** C3, as the specification states it, fails on the code: a paragraph inside a
    table cell is yielded after its table, and a paragraph inside a
    quotation after the quotation. *)
Lemma nested_tags_are_yielded :
  extract_paragraphs_from_html ascii_nfkc ascii_printable no_text_maker
    nested_page DEFAULT_TAGS_TO_EXTRACT DEFAULT_TAGS_TO_REMOVE
    DEFAULT_INNER_TAGS_TO_REMOVE
  = Some ([ (LEAD, [], py "table");
            (LEAD, py "in a cell", py "p");
            (LEAD, py "quoted", py "blockquote");
            (LEAD, py "quoted", py "p") ], None).
Proof. reflexivity. Qed.

(** C6, as the specification states it, fails on the code: the second
    section here has no heading of its own, its children being a
    paragraph and a sub-section, and yet it does not keep the title
    ["A"] of the section before it: the heading of the sub-section
    becomes its title, also for the paragraph that stands before the
    sub-section. *)
Lemma nested_heading_changes_title :
  extract_paragraphs_from_html ascii_nfkc ascii_printable no_text_maker
    subsection_heading_page DEFAULT_TAGS_TO_EXTRACT DEFAULT_TAGS_TO_REMOVE
    DEFAULT_INNER_TAGS_TO_REMOVE
  = Some ([ (py "A", py "first", py "p");
            (py "Sub", py "second", py "p");
            (py "Sub", py "third", py "p") ], None)
  /\ find_all (fst (load subsection_heading_page []))
       (snd (load subsection_heading_page [])) [py "section"] []
     = [4; 12; 11]%nat
  /\ map (tag_name (fst (load subsection_heading_page [])))
       (contents (fst (load subsection_heading_page [])) 12)
     = [py "p"; py "section"].
Proof. repeat split; reflexivity. Qed.

(** C6, amended.  The walker starts from the title ["__LEAD__"]; on a
    page of three sections, the first without a heading and the next two
    opening with the headings [h1] and [h2], with one paragraph each,
    the three paragraphs carry the titles ["__LEAD__"], [h1] and [h2];
    on a page whose third section has no heading, its paragraph carries
    the title of the second.  In general, the title of a turn of the walk
    is the text of the first second-level heading below the section, at
    any depth, and the title so far when there is none; every paragraph
    of the turn carries it, and it is the title the next section is
    entered with. *)
Theorem section_title_tracking :
  (forall h1 h2 p0 p1 p2,
      extract_paragraphs_from_html ucd_nfkc ucd_printable text_maker_handle
        (three_section_page h1 h2 p0 p1 p2) DEFAULT_TAGS_TO_EXTRACT
        DEFAULT_TAGS_TO_REMOVE DEFAULT_INNER_TAGS_TO_REMOVE
      = Some ([ (LEAD, normalize_text ucd_nfkc ucd_printable p0, py "p");
                (h1, normalize_text ucd_nfkc ucd_printable p1, py "p");
                (h2, normalize_text ucd_nfkc ucd_printable p2, py "p") ],
              None))
  /\ (forall h p0 p1 p2,
         extract_paragraphs_from_html ucd_nfkc ucd_printable
           text_maker_handle (carried_title_page h p0 p1 p2)
           DEFAULT_TAGS_TO_EXTRACT DEFAULT_TAGS_TO_REMOVE
           DEFAULT_INNER_TAGS_TO_REMOVE
         = Some ([ (LEAD, normalize_text ucd_nfkc ucd_printable p0, py "p");
                   (h, normalize_text ucd_nfkc ucd_printable p1, py "p");
                   (h, normalize_text ucd_nfkc ucd_printable p2, py "p") ],
                 None))
  /\ (forall html te tr inner,
         extract_paragraphs_from_html ucd_nfkc ucd_printable
           text_maker_handle html te tr inner
         = walk ucd_nfkc ucd_printable text_maker_handle
             (length (fst (load html []))) (fst (load html []))
             (find (fst (load html [])) (snd (load html [])) [py "section"])
             (py "__LEAD__") te tr inner)
  /\ (forall turns sp section section_title te tr inner,
         let title' :=
           match find sp section [py "h2"] with
           | Some h2 => get_text sp h2 []
           | None => section_title
           end in
         let '(sp', _, yielded, raised) :=
           walk_section ucd_nfkc ucd_printable text_maker_handle
             sp section section_title te tr inner in
         Forall (fun y => fst (fst y) = title') yielded
         /\ walk ucd_nfkc ucd_printable text_maker_handle (S turns) sp
              (Some section) section_title te tr inner
            = match raised with
              | Some e => Some (yielded, Some e)
              | None =>
                  match walk ucd_nfkc ucd_printable text_maker_handle turns
                          sp' (find_next_sibling sp' section [py "section"])
                          title' te tr inner with
                  | Some (later, raised') => Some (yielded ++ later, raised')
                  | None => None
                  end
              end).
Proof.
  split; [|split; [|split]].
  - intros. reflexivity.
  - intros. reflexivity.
  - intros. unfold extract_paragraphs_from_html, load.
    destruct (load_in Plain html []) as [sp root]. reflexivity.
  - intros turns sp section section_title te tr inner.
    pose proof (walk_section_spec sp section section_title te tr inner) as H.
    cbv zeta in H |- *. cbn [walk].
    destruct (walk_section ucd_nfkc ucd_printable text_maker_handle
      sp section section_title te tr inner)
      as [[[sp' title'] yielded] raised].
    destruct H as (H0 & H1 & _).
    unfold title_of_section in H0. subst title'.
    split; [exact H1 | reflexivity].
Qed.

(** C7, as the specification states it, fails on the code: the two spaces of a
    heading stay in the title, where joining on white space gives one;
    and a heading inside a [div] of the section, which is no direct
    child of it, becomes the title all the same. *)
Lemma title_is_not_whitespace_joined :
  extract_paragraphs_from_html ascii_nfkc ascii_printable no_text_maker
    spaced_heading_page DEFAULT_TAGS_TO_EXTRACT DEFAULT_TAGS_TO_REMOVE
    DEFAULT_INNER_TAGS_TO_REMOVE
  = Some ([(py "A  B", py "text", py "p")], None)
  /\ join [SPACE] (split (py "A  B")) = py "A B"
  /\ str_eqb (py "A  B") (py "A B") = false
  /\ extract_paragraphs_from_html ascii_nfkc ascii_printable no_text_maker
       nested_heading_page DEFAULT_TAGS_TO_EXTRACT DEFAULT_TAGS_TO_REMOVE
       DEFAULT_INNER_TAGS_TO_REMOVE
     = Some ([(py "Nested", py "text", py "p")], None).
Proof. repeat split; reflexivity. Qed.

(** C7, amended.  When a section has a second-level heading below it, at
    any depth, the title becomes the text of the first such heading: the
    plain strings below it (and CDATA sections) put one after the other,
    with nothing collapsed, trimmed or normalised, the comments and what
    stands in [style], [script], [template], [rt] or [rp] left out; when
    it has none, the title so far is kept.  Every paragraph of the
    section carries that title. *)
Theorem section_title_is_heading_text (sp : soup) (section : nat)
  (section_title : str) (te : list str) (tr : list noise_spec)
  (inner : list str) :
  let '(_, title', yielded, _) :=
    walk_section ucd_nfkc ucd_printable text_maker_handle
      sp section section_title te tr inner in
  title' = match hd_error (find_all sp section [py "h2"] []) with
           | Some h2 => concat (text_strings sp h2)
           | None => section_title
           end
  /\ Forall (fun y => fst (fst y) = title') yielded.
Proof.
  pose proof (walk_section_spec sp section section_title te tr inner) as H.
  cbv zeta in H.
  destruct (walk_section ucd_nfkc ucd_printable text_maker_handle
      sp section section_title te tr inner)
    as [[[sp' title'] yielded] raised].
  destruct H as (H0 & H1 & _). split; [|exact H1].
  rewrite H0. unfold title_of_section, find.
  destruct (find_all sp section [py "h2"] []) as [|h2 l] eqn:Hl;
    [reflexivity|].
  simpl. unfold get_text. rewrite join_empty_sep. f_equal.
  apply all_strings_text.
  rewrite (find_all_name sp section h2 (py "h2") []);
    [reflexivity | rewrite Hl; now left].
Qed.

(** A table with a row that raises makes the parser raise. *)
Lemma normalize_blood_table_text_raise (sp : soup) (table_tag tr : nat) :
  In tr (find_all sp table_tag [py "tr"] []) ->
  blood_row (row_of_tr sp tr) = Raise IndexError ->
  normalize_blood_table_text ucd_nfkc sp table_tag = Raise IndexError.
Proof.
  intros Hin Hrow. unfold normalize_blood_table_text.
  rewrite (blood_rows_raise _ (row_of_tr sp tr)); [reflexivity| |exact Hrow].
  now apply in_map.
Qed.

(** C9. The pedigree parser raises on a row without cells, at the check
    of the first cell: on the row itself, and on every table that has
    such a row.  A row with at least one cell whose first cell starts
    with none of the keywords raises nothing and is dropped: the parser
    gives what it gives without the row; and whenever the loop over the
    rows raises, one of the rows is empty or is a lone "within 5
    generations" cell.  A section without a second-level heading keeps
    the title so far, and the walker raises in it only inside the
    pedigree section. *)
Theorem parser_raises_only_on_impossible_rows :
  (blood_row [] = Raise IndexError
   /\ forall sp table_tag tr,
        In tr (find_all sp table_tag [py "tr"] []) ->
        find_all sp tr [py "td"; py "th"] [] = [] ->
        normalize_blood_table_text ucd_nfkc sp table_tag = Raise IndexError)
  /\ (forall first others,
         starts_with_any parent_keywords first = false ->
         starts_with_any inbreeding_keywords first = false ->
         starts_with_any maternal_keywords first = false ->
         blood_row (first :: others) = Ok None
         /\ forall before after csv_data,
              blood_rows csv_data (before ++ (first :: others) :: after)
              = blood_rows csv_data (before ++ after))
  /\ (forall rows csv_data e,
         blood_rows csv_data rows = Raise e ->
         exists row,
           In row rows
           /\ (row = []
               \/ exists first,
                    row = [first]
                    /\ starts_with_any inbreeding_keywords first = true))
  /\ (forall sp section section_title te tr inner,
         find sp section [py "h2"] = None ->
         let '(_, title', _, raised) :=
           walk_section ucd_nfkc ucd_printable text_maker_handle
             sp section section_title te tr inner in
         title' = section_title
         /\ (str_eqb section_title BLOOD_TABLE_SECTION = false ->
             raised = None)).
Proof.
  split; [split|split; [|split]].
  - reflexivity.
  - intros sp table_tag tr Hin Hcells.
    apply (normalize_blood_table_text_raise sp table_tag tr Hin).
    unfold row_of_tr. rewrite Hcells. reflexivity.
  - intros first others H1 H2 H3.
    pose proof (blood_row_other first others H1 H2 H3) as Hrow.
    split; [exact Hrow|]. intros. now apply blood_rows_skip.
  - intros rows csv_data e H.
    destruct (blood_rows_raise_inv rows csv_data e H) as (row & Hin & Hrow).
    exists row. split; [exact Hin|]. exact (blood_row_raise_inv row e Hrow).
  - intros sp section section_title te tr inner Hh2.
    pose proof (walk_section_spec sp section section_title te tr inner) as H.
    cbv zeta in H.
    destruct (walk_section ucd_nfkc ucd_printable text_maker_handle
                sp section section_title te tr inner)
      as [[[sp' title'] yielded] raised].
    destruct H as (H0 & _ & _ & _ & H4).
    unfold title_of_section in H0. rewrite Hh2 in H0. subst title'.
    split; [reflexivity | exact H4].
Qed.

(** C10. A row that is one cell whose text starts with the "within 5
    generations" keyword makes the parser raise [IndexError], at the
    read of the second cell: on the row itself, and on every table that
    has a [tr] with that row.  The row is not dropped. *)
Theorem lone_inbreeding_cell_raises (first : str) :
  starts_with_any inbreeding_keywords first = true ->
  blood_row [first] = Raise IndexError
  /\ forall sp table_tag tr,
       In tr (find_all sp table_tag [py "tr"] []) ->
       row_of_tr sp tr = [first] ->
       normalize_blood_table_text ucd_nfkc sp table_tag = Raise IndexError.
Proof.
  intros H.
  pose proof (blood_row_inbreeding_alone first H) as Hrow.
  split; [exact Hrow|].
  intros sp table_tag tr Hin Hcells.
  apply (normalize_blood_table_text_raise sp table_tag tr Hin).
  now rewrite Hcells.
Qed.

End WalkerTheorems.

Lemma parser_raises_only_on_impossible_rows_witness :
  normalize_blood_table_text ascii_nfkc (fst (load empty_row_table []))
    (snd (load empty_row_table [])) = Raise IndexError
  /\ blood_rows [] [[py "unrelated"; py "x"]; [MATERNAL_LINE; py "F4"]]
     = blood_rows [] [[MATERNAL_LINE; py "F4"]].
Proof.
  pose proof (parser_raises_only_on_impossible_rows ascii_nfkc ascii_printable
                no_text_maker) as [[_ Htable] [Hskip _]].
  split.
  - apply (Htable _ _ 3%nat); [simpl; auto | reflexivity].
  - destruct (Hskip (py "unrelated") [py "x"] eq_refl eq_refl eq_refl)
      as [_ Hdrop].
    exact (Hdrop [] [[MATERNAL_LINE; py "F4"]] []).
Defined.

Lemma lone_inbreeding_cell_raises_witness :
  blood_row [WITHIN_5] = Raise IndexError
  /\ normalize_blood_table_text ascii_nfkc (fst (load lone_cell_table []))
       (snd (load lone_cell_table [])) = Raise IndexError.
Proof.
  destruct (lone_inbreeding_cell_raises ascii_nfkc WITHIN_5 eq_refl)
    as [Hrow Htable].
  split; [exact Hrow|].
  apply (Htable _ _ 2%nat); [simpl; auto | reflexivity].
Defined.

(** ** The length filter of [main] *)

Lemma write_paragraphs_cons (page : input_item) (ignore : list str)
  (min_length max_length index : Z) (section_title paragraph_text tag_name : str)
  (items : list paragraph) :
  str_in section_title ignore = false ->
  write_paragraphs page ignore min_length max_length index
    ((section_title, paragraph_text, tag_name) :: items)
  = if ((min_length <=? Z.of_nat (length paragraph_text))
        && (Z.of_nat (length paragraph_text) <=? max_length))%Z
    then output_of page index section_title paragraph_text tag_name
         :: write_paragraphs page ignore min_length max_length (index + 1)
              items
    else write_paragraphs page ignore min_length max_length index items.
Proof.
  intros Hin. simpl. rewrite Hin.
  destruct (Z.ltb_spec (Z.of_nat (length paragraph_text)) min_length) as [Hlt|Hge].
  - rewrite (proj2 (Z.leb_gt _ _) Hlt). reflexivity.
  - rewrite (proj2 (Z.leb_le _ _) Hge). simpl.
    rewrite Z.gtb_ltb.
    destruct (Z.ltb_spec max_length (Z.of_nat (length paragraph_text)))
      as [Hgt|Hle].
    + now rewrite (proj2 (Z.leb_gt _ _) Hgt).
    + now rewrite (proj2 (Z.leb_le _ _) Hle).
Qed.

(** C2, as the specification states it, fails on the code: with the default
    bounds, 10 and 1000, the paragraph of a page whose text has exactly
    10 characters is written. *)
Lemma minimum_length_is_kept :
  main ascii_nfkc ascii_printable no_text_maker default_args
    [one_paragraph_page (py "0123456789")]
  = Some ([output_of (one_paragraph_page (py "0123456789")) 0 LEAD
             (py "0123456789") (py "p")], None)
  /\ Z.of_nat (length (py "0123456789")) = min_paragraph_length default_args.
Proof. split; reflexivity. Qed.

(** C2, amended.  For a paragraph whose section is not ignored, the
    length filter keeps it exactly when its text has at least
    [min_length] and at most [max_length] characters: both bounds are
    inclusive.  With [min_length <= max_length], a text of [min_length]
    characters is kept and one of [min_length - 1] is dropped, one of
    [max_length] is kept and one of [max_length + 1] is dropped. *)
Theorem length_filter_bounds (page : input_item) (ignore : list str)
  (min_length max_length index : Z) (section_title paragraph_text tag_name : str)
  (items : list paragraph) :
  str_in section_title ignore = false ->
  (min_length <= max_length)%Z ->
  let n := Z.of_nat (length paragraph_text) in
  let written :=
    write_paragraphs page ignore min_length max_length index
      ((section_title, paragraph_text, tag_name) :: items) in
  let kept :=
    output_of page index section_title paragraph_text tag_name
    :: write_paragraphs page ignore min_length max_length (index + 1) items in
  let dropped :=
    write_paragraphs page ignore min_length max_length index items in
  ((min_length <= n <= max_length)%Z -> written = kept)
  /\ ((n < min_length \/ max_length < n)%Z -> written = dropped)
  /\ (n = min_length -> written = kept)
  /\ (n = (min_length - 1)%Z -> written = dropped)
  /\ (n = max_length -> written = kept)
  /\ (n = (max_length + 1)%Z -> written = dropped).
Proof.
  intros Hin Hle n written kept dropped.
  assert (Hkeep : (min_length <= n <= max_length)%Z -> written = kept).
  { intros [H1 H2]. unfold written. rewrite write_paragraphs_cons by exact Hin.
    fold n. now rewrite (proj2 (Z.leb_le _ _) H1), (proj2 (Z.leb_le _ _) H2). }
  assert (Hdrop : (n < min_length \/ max_length < n)%Z -> written = dropped).
  { intros H. unfold written. rewrite write_paragraphs_cons by exact Hin.
    fold n. destruct H as [H|H].
    - now rewrite (proj2 (Z.leb_gt _ _) H).
    - rewrite (proj2 (Z.leb_gt _ _) H). now rewrite andb_false_r. }
  repeat split; auto; intros H; [apply Hkeep|apply Hdrop|apply Hkeep|apply Hdrop];
    lia.
Qed.

Lemma length_filter_bounds_witness :
  write_paragraphs (one_paragraph_page []) DEFAULT_SECTIONS_TO_IGNORE 10 1000 0
    [(LEAD, py "0123456789", py "p"); (LEAD, py "012345678", py "p")]
  = [output_of (one_paragraph_page []) 0 LEAD (py "0123456789") (py "p")].
Proof.
  assert (Hle : (10 <= 1000)%Z) by lia.
  pose proof (length_filter_bounds (one_paragraph_page [])
                DEFAULT_SECTIONS_TO_IGNORE 10 1000 0 LEAD (py "0123456789")
                (py "p") [(LEAD, py "012345678", py "p")] eq_refl Hle) as H0.
  pose proof (length_filter_bounds (one_paragraph_page [])
                DEFAULT_SECTIONS_TO_IGNORE 10 1000 1 LEAD (py "012345678")
                (py "p") [] eq_refl Hle) as H1.
  cbv zeta in H0, H1.
  destruct H0 as (_ & _ & Hmin & _).
  destruct H1 as (_ & _ & _ & Hbelow & _).
  refine (eq_trans (Hmin eq_refl) _).
  exact (f_equal (cons _) (Hbelow eq_refl)).
Defined.

(** ** What [normalize_text] leaves in its output *)

Lemma split_from_space (cur s : str) (x : char) :
  isspace x = true ->
  split_from cur (x :: s)
  = match cur with
    | [] => split_from [] s
    | _ => rev cur :: split_from [] s
    end.
Proof. intros H. simpl. now rewrite H. Qed.

Lemma split_from_nonspace (cur s : str) (x : char) :
  isspace x = false -> split_from cur (x :: s) = split_from (x :: cur) s.
Proof. intros H. simpl. now rewrite H. Qed.

Lemma filter_keep (p : char -> bool) (x : char) (s : str) :
  p x = true -> filter p (x :: s) = x :: filter p s.
Proof. intros H. simpl. now rewrite H. Qed.

Lemma filter_drop (p : char -> bool) (x : char) (s : str) :
  p x = false -> filter p (x :: s) = filter p s.
Proof. intros H. simpl. now rewrite H. Qed.

Section NormalizeTextShape.

Variable ucd_nfkc : str -> str.
Variable ucd_printable : char -> bool.

(** A character that is neither white space nor printable, alone between
    two runs of white space, leaves the single spaces that replace the
    runs next to each other. *)
Lemma normalize_text_around (c : char) (before after : str) :
  isspace c = false ->
  isprintable ucd_printable c = false ->
  forallb isspace before = true -> before <> [] ->
  forallb isspace after = true -> after <> [] ->
  normalize_NFKC ucd_nfkc (py "a" ++ before ++ [c] ++ after ++ py "b")
  = py "a" ++ before ++ [c] ++ after ++ py "b" ->
  normalize_text ucd_nfkc ucd_printable
    (py "a" ++ before ++ [c] ++ after ++ py "b")
  = py "a  b".
Proof.
  intros Hs Hp Hb Hbn Ha Han Hn. unfold normalize_text. rewrite Hn.
  assert (Hrun : forall ws rest,
             forallb isspace ws = true ->
             split_from [] (ws ++ rest) = split_from [] rest).
  { induction ws as [|x ws IH]; intros rest Hws; [reflexivity|].
    simpl in Hws. apply andb_true_iff in Hws as [Hx Hws].
    change ((x :: ws) ++ rest) with (x :: ws ++ rest).
    rewrite split_from_space by exact Hx. now apply IH. }
  assert (Hsplit : split (py "a" ++ before ++ [c] ++ after ++ py "b")
                   = [py "a"; [c]; py "b"]).
  { unfold split.
    change (py "a" ++ before ++ [c] ++ after ++ py "b")
      with (0x61 :: before ++ c :: after ++ [0x62]).
    rewrite (split_from_nonspace [] _ 0x61) by reflexivity.
    destruct before as [|x before]; [congruence|].
    simpl in Hb. apply andb_true_iff in Hb as [Hx Hb].
    change ((x :: before) ++ c :: after ++ [0x62])
      with (x :: before ++ c :: after ++ [0x62]).
    rewrite split_from_space by exact Hx. cbn [rev app]. f_equal.
    rewrite Hrun by exact Hb.
    rewrite split_from_nonspace by exact Hs.
    destruct after as [|y after]; [congruence|].
    simpl in Ha. apply andb_true_iff in Ha as [Hy Ha].
    change ((y :: after) ++ [0x62]) with (y :: after ++ [0x62]).
    rewrite split_from_space by exact Hy. cbn [rev app]. f_equal.
    rewrite Hrun by exact Ha. reflexivity. }
  rewrite Hsplit.
  change (join [SPACE] [py "a"; [c]; py "b"])
    with [0x61; SPACE; c; SPACE; 0x62].
  rewrite (filter_keep _ 0x61) by reflexivity.
  rewrite (filter_keep _ SPACE) by reflexivity.
  rewrite (filter_drop _ c) by exact Hp.
  reflexivity.
Qed.

(** C4 on the code.  The input is [a], a tab, a space, a character [c]
    that is neither white space nor printable (the control U+007F, or
    U+200B ZERO WIDTH SPACE), a space, a newline, [b], a string that is its
    own NFKC form: the white space on either side of [c] is collapsed to
    one space each, [c] is removed afterwards, and the output is [a], two
    spaces, [b]. *)
Theorem normalize_text_leaves_two_spaces (c : char) :
  isspace c = false ->
  isprintable ucd_printable c = false ->
  normalize_NFKC ucd_nfkc (py "a" ++ [0x09; SPACE] ++ [c] ++ [SPACE; 0x0A]
                           ++ py "b")
  = py "a" ++ [0x09; SPACE] ++ [c] ++ [SPACE; 0x0A] ++ py "b" ->
  normalize_text ucd_nfkc ucd_printable
    (py "a" ++ [0x09; SPACE] ++ [c] ++ [SPACE; 0x0A] ++ py "b")
  = py "a  b"
  /\ consecutive_ws (py "a  b") = true.
Proof.
  intros Hs Hp Hn. split; [|reflexivity].
  apply normalize_text_around; auto; discriminate.
Qed.

(** C5 on the code.  On [a], space, [c], space, [b], with [c] and the
    string as above, the first pass gives [a], two spaces, [b], and a
    second pass gives [a], one space, [b]: the output of [normalize_text]
    is changed by [normalize_text]. *)
Theorem normalize_text_twice_differs (c : char) :
  isspace c = false ->
  isprintable ucd_printable c = false ->
  normalize_NFKC ucd_nfkc (py "a" ++ [SPACE] ++ [c] ++ [SPACE] ++ py "b")
  = py "a" ++ [SPACE] ++ [c] ++ [SPACE] ++ py "b" ->
  normalize_text ucd_nfkc ucd_printable
    (py "a" ++ [SPACE] ++ [c] ++ [SPACE] ++ py "b")
  = py "a  b"
  /\ normalize_text ucd_nfkc ucd_printable
       (normalize_text ucd_nfkc ucd_printable
          (py "a" ++ [SPACE] ++ [c] ++ [SPACE] ++ py "b"))
     = py "a b"
  /\ str_eqb (py "a b") (py "a  b") = false.
Proof.
  intros Hs Hp Hn.
  assert (H1 : normalize_text ucd_nfkc ucd_printable
                 (py "a" ++ [SPACE] ++ [c] ++ [SPACE] ++ py "b")
               = py "a  b")
    by (apply normalize_text_around; auto; discriminate).
  split; [exact H1|]. rewrite H1. split; reflexivity.
Qed.

End NormalizeTextShape.

Lemma normalize_text_leaves_two_spaces_witness :
  normalize_text ascii_nfkc ascii_printable
    (py "a" ++ [0x09; 0x20; 0x7F; 0x20; 0x0A] ++ py "b")
  = py "a  b"
  /\ consecutive_ws (py "a  b") = true.
Proof.
  exact (normalize_text_leaves_two_spaces ascii_nfkc ascii_printable 0x7F
           eq_refl eq_refl eq_refl).
Defined.

Lemma normalize_text_twice_differs_witness :
  normalize_text ascii_nfkc ascii_printable (py "a " ++ [0x7F] ++ py " b")
  = py "a  b"
  /\ normalize_text ascii_nfkc ascii_printable
       (normalize_text ascii_nfkc ascii_printable
          (py "a " ++ [0x7F] ++ py " b"))
     = py "a b"
  /\ str_eqb (py "a b") (py "a  b") = false.
Proof.
  exact (normalize_text_twice_differs ascii_nfkc ascii_printable 0x7F
           eq_refl eq_refl eq_refl).
Defined.

(** ** Words joined by single spaces *)

Lemma split_from_words (s : str) :
  forall cur,
    forallb (fun c => negb (isspace c)) cur = true ->
    Forall word (split_from cur s).
Proof.
  assert (Hrev : forall d cur,
             forallb (fun c => negb (isspace c)) (d :: cur) = true ->
             word (rev (d :: cur))).
  { intros d cur H. split.
    - intros E. apply (f_equal (@length _)) in E.
      rewrite length_rev in E. discriminate E.
    - rewrite forallb_forall in *. intros x Hx. apply H.
      now apply in_rev. }
  induction s as [|c s IH]; intros cur Hcur; simpl.
  - destruct cur as [|d cur]; [constructor|].
    constructor; [now apply Hrev | constructor].
  - destruct (isspace c) eqn:Hc.
    + destruct cur as [|d cur]; [now apply IH|].
      constructor; [now apply Hrev | now apply IH].
    + apply IH. simpl. now rewrite Hc, Hcur.
Qed.

Lemma split_words (s : str) : Forall word (split s).
Proof. now apply split_from_words. Qed.

Lemma word_leading (w rest : str) : word w -> leading_ws (w ++ rest) = false.
Proof.
  intros [Hne Hw]. destruct w as [|c w]; [congruence|].
  simpl in *. apply andb_true_iff in Hw as [Hc _].
  now apply negb_true_iff in Hc.
Qed.

Lemma consecutive_ws_word (w rest : str) :
  forallb (fun c => negb (isspace c)) w = true ->
  consecutive_ws (w ++ rest) = consecutive_ws rest.
Proof.
  induction w as [|c w IH]; simpl; intros H; [reflexivity|].
  apply andb_true_iff in H as [Hc H]. apply negb_true_iff in Hc.
  rewrite Hc. simpl. now apply IH.
Qed.

Lemma join_cons_cons (sep x y : str) (l : list str) :
  join sep (x :: y :: l) = x ++ sep ++ join sep (y :: l).
Proof. reflexivity. Qed.

Lemma join_words_leading (l : list str) :
  Forall word l -> leading_ws (join [SPACE] l) = false.
Proof.
  intros H. destruct H as [|w [|y l] Hw Hl]; [reflexivity| |].
  - cbn [join]. rewrite <- (app_nil_r w). now apply word_leading.
  - rewrite join_cons_cons. now apply word_leading.
Qed.

Lemma join_words_consecutive (l : list str) :
  Forall word l -> consecutive_ws (join [SPACE] l) = false.
Proof.
  induction l as [|w [|y l] IH]; intros H; [reflexivity| |].
  - inversion H as [|? ? [_ Hw] _]; subst. cbn [join].
    rewrite <- (app_nil_r w). now rewrite consecutive_ws_word.
  - inversion H as [|? ? [_ Hw] Hl]; subst.
    rewrite join_cons_cons, consecutive_ws_word by exact Hw.
    change ([SPACE] ++ join [SPACE] (y :: l))
      with (SPACE :: join [SPACE] (y :: l)).
    cbn [consecutive_ws]. rewrite (join_words_leading _ Hl), (IH Hl).
    reflexivity.
Qed.

Lemma trailing_ws_app (a b : str) :
  b <> [] -> trailing_ws (a ++ b) = trailing_ws b.
Proof.
  intros Hb. unfold trailing_ws. rewrite rev_app_distr.
  destruct (rev b) as [|c r] eqn:Hr; [|reflexivity].
  apply (f_equal (@length _)) in Hr. rewrite length_rev in Hr.
  destruct b; [congruence | discriminate Hr].
Qed.

Lemma word_trailing (w : str) : word w -> trailing_ws w = false.
Proof.
  intros [Hne Hw]. unfold trailing_ws.
  destruct (rev w) as [|c r] eqn:Hr; [reflexivity|]. simpl.
  rewrite forallb_forall in Hw. apply negb_true_iff, Hw, in_rev.
  rewrite Hr. now left.
Qed.

Lemma join_nonempty (l : list str) (w : str) :
  word w -> join [SPACE] (w :: l) <> [].
Proof.
  intros [Hne _]. destruct l; simpl; destruct w; congruence || discriminate.
Qed.

Lemma join_words_trailing (l : list str) :
  Forall word l -> trailing_ws (join [SPACE] l) = false.
Proof.
  induction l as [|w [|y l] IH]; intros H; [reflexivity| |].
  - inversion H; subst. cbn [join]. now apply word_trailing.
  - inversion H as [|? ? Hw Hl]; subst.
    rewrite join_cons_cons, app_assoc.
    rewrite trailing_ws_app; [now apply IH|].
    inversion Hl; subst. now apply join_nonempty.
Qed.

Lemma rstrip_no_trailing (s : str) : trailing_ws s = false -> rstrip s = s.
Proof.
  induction s as [|c s IH]; [reflexivity|].
  destruct s as [|d s].
  - unfold trailing_ws. simpl. now intros ->.
  - intros H.
    change (c :: d :: s) with ([c] ++ d :: s) in H.
    rewrite trailing_ws_app in H by discriminate.
    change (rstrip (c :: d :: s))
      with (match rstrip (d :: s) with
            | [] => if isspace c then [] else [c]
            | r => c :: r
            end).
    now rewrite (IH H).
Qed.

Lemma strip_join_words (l : list str) :
  Forall word l -> strip (join [SPACE] l) = join [SPACE] l.
Proof.
  intros H. unfold strip.
  rewrite rstrip_no_trailing by now apply join_words_trailing.
  apply lstrip_no_leading. now apply join_words_leading.
Qed.

Lemma split_from_word (w rest cur : str) :
  forallb (fun c => negb (isspace c)) w = true ->
  split_from cur (w ++ rest) = split_from (rev w ++ cur) rest.
Proof.
  revert cur. induction w as [|c w IH]; intros cur H; [reflexivity|].
  simpl in *. apply andb_true_iff in H as [Hc H].
  apply negb_true_iff in Hc. rewrite Hc, IH by exact H.
  now rewrite <- app_assoc.
Qed.

(** Splitting gives back the words that were joined. *)
Lemma split_join_words (l : list str) :
  Forall word l -> split (join [SPACE] l) = l.
Proof.
  unfold split.
  induction l as [|w [|y l] IH]; intros H; [reflexivity| |].
  - inversion H as [|? ? [Hne Hw] _]; subst. cbn [join].
    rewrite <- (app_nil_r w), split_from_word by exact Hw.
    rewrite app_nil_r. simpl.
    destruct (rev w) as [|c r] eqn:Hr.
    + apply (f_equal (@length _)) in Hr. rewrite length_rev in Hr.
      destruct w; [congruence | discriminate Hr].
    + now rewrite <- Hr, rev_involutive, app_nil_r.
  - inversion H as [|? ? [Hne Hw] Hl]; subst.
    rewrite join_cons_cons, split_from_word by exact Hw.
    rewrite app_nil_r.
    change ([SPACE] ++ join [SPACE] (y :: l))
      with (SPACE :: join [SPACE] (y :: l)).
    cbn [split_from]. rewrite isspace_SPACE.
    destruct (rev w) as [|c r] eqn:Hr.
    + apply (f_equal (@length _)) in Hr. rewrite length_rev in Hr.
      destruct w; [congruence | discriminate Hr].
    + rewrite <- Hr, rev_involutive. f_equal. now apply IH.
Qed.

Lemma filter_join (p : char -> bool) (l : list str) :
  p SPACE = true ->
  filter p (join [SPACE] l) = join [SPACE] (map (filter p) l).
Proof.
  intros Hp. induction l as [|w [|y l] IH]; [reflexivity..|].
  rewrite join_cons_cons, !filter_app, IH. simpl. now rewrite Hp.
Qed.

Lemma forallb_lstrip (q : char -> bool) (s : str) :
  forallb q s = true -> forallb q (lstrip s) = true.
Proof.
  induction s as [|c s IH]; simpl; intros H; [reflexivity|].
  destruct (isspace c); [|exact H].
  apply andb_true_iff in H as [_ H]. now apply IH.
Qed.

Lemma forallb_rstrip (q : char -> bool) (s : str) :
  forallb q s = true -> forallb q (rstrip s) = true.
Proof.
  induction s as [|c s IH]; simpl; intros H; [reflexivity|].
  apply andb_true_iff in H as [Hc H]. specialize (IH H).
  destruct (rstrip s) as [|d r].
  - destruct (isspace c); simpl; [reflexivity | now rewrite Hc].
  - change (forallb q (c :: d :: r)) with (q c && forallb q (d :: r)).
    now rewrite Hc, IH.
Qed.

Lemma forallb_strip (q : char -> bool) (s : str) :
  forallb q s = true -> forallb q (strip s) = true.
Proof. intros H. now apply forallb_lstrip, forallb_rstrip. Qed.

Lemma forallb_filter_same (p : char -> bool) (s : str) :
  forallb p (filter p s) = true.
Proof.
  induction s as [|c s IH]; simpl; [reflexivity|].
  destruct (p c) eqn:Hc; simpl; [now rewrite Hc | exact IH].
Qed.

Lemma filter_filter_same (p : char -> bool) (s : str) :
  filter p (filter p s) = filter p s.
Proof.
  induction s as [|c s IH]; simpl; [reflexivity|].
  destruct (p c) eqn:Hc; simpl; [now rewrite Hc, IH | exact IH].
Qed.

Lemma word_filter (p : char -> bool) (w : str) :
  word w -> existsb p w = true -> word (filter p w).
Proof.
  intros [_ Hw] Hp. split.
  - apply existsb_exists in Hp as (x & Hx & Hpx).
    intros E. assert (Hin : In x (filter p w)) by now apply filter_In.
    rewrite E in Hin. destruct Hin.
  - rewrite forallb_forall in *. intros x Hx. apply Hw.
    now apply filter_In in Hx.
Qed.

Lemma words_filter (p : char -> bool) (l : list str) :
  Forall word l -> forallb (existsb p) l = true ->
  Forall word (map (filter p) l).
Proof.
  induction 1 as [|w l Hw Hl IH]; simpl; intros H; [constructor|].
  apply andb_true_iff in H as [Hp H].
  constructor; [now apply word_filter | now apply IH].
Qed.

Section NormalizeTextOutput.

Variable ucd_nfkc : str -> str.
Variable ucd_printable : char -> bool.

(** When every word of the NFKC form keeps one of its characters,
    [normalize_text] gives the words, each without its characters that
    are not printable, joined by single spaces. *)
Lemma normalize_text_words (s : str) :
  forallb (existsb (isprintable ucd_printable))
    (split (normalize_NFKC ucd_nfkc s)) = true ->
  normalize_text ucd_nfkc ucd_printable s
  = join [SPACE]
      (map (filter (isprintable ucd_printable))
         (split (normalize_NFKC ucd_nfkc s)))
  /\ Forall word
       (map (filter (isprintable ucd_printable))
          (split (normalize_NFKC ucd_nfkc s))).
Proof.
  intros H.
  assert (Hw : Forall word
                 (map (filter (isprintable ucd_printable))
                    (split (normalize_NFKC ucd_nfkc s))))
    by (apply words_filter; [apply split_words | exact H]).
  split; [|exact Hw].
  unfold normalize_text. rewrite filter_join by reflexivity.
  now apply strip_join_words.
Qed.

(** X2. The output of [normalize_text] holds printable characters only. *)
Theorem normalize_text_printable (s : str) :
  forallb (isprintable ucd_printable)
    (normalize_text ucd_nfkc ucd_printable s) = true.
Proof.
  unfold normalize_text. apply forallb_strip, forallb_filter_same.
Qed.

(** X1. The output of [normalize_text] neither starts nor ends with white
    space. *)
Theorem normalize_text_no_outer_ws (s : str) :
  leading_ws (normalize_text ucd_nfkc ucd_printable s) = false
  /\ trailing_ws (normalize_text ucd_nfkc ucd_printable s) = false.
Proof.
  unfold normalize_text. split;
    [apply leading_ws_strip | apply trailing_ws_strip].
Qed.

(** X3. When every word of the NFKC form of the input keeps at least one
    character (no word is made of characters that are not printable
    only), the output of [normalize_text] has no two white-space
    characters in a row. *)
Theorem normalize_text_single_spaces (s : str) :
  forallb (existsb (isprintable ucd_printable))
    (split (normalize_NFKC ucd_nfkc s)) = true ->
  consecutive_ws (normalize_text ucd_nfkc ucd_printable s) = false.
Proof.
  intros H. destruct (normalize_text_words s H) as [-> Hw].
  now apply join_words_consecutive.
Qed.

(** X4. Under the same condition, and when the output is its own NFKC form
    (as every ASCII output is), a second pass of [normalize_text] changes
    nothing. *)
Theorem normalize_text_idempotent_on (s : str) :
  forallb (existsb (isprintable ucd_printable))
    (split (normalize_NFKC ucd_nfkc s)) = true ->
  normalize_NFKC ucd_nfkc (normalize_text ucd_nfkc ucd_printable s)
  = normalize_text ucd_nfkc ucd_printable s ->
  normalize_text ucd_nfkc ucd_printable
    (normalize_text ucd_nfkc ucd_printable s)
  = normalize_text ucd_nfkc ucd_printable s.
Proof.
  intros H Hn. destruct (normalize_text_words s H) as [E Hw].
  unfold normalize_text at 1. rewrite Hn, E.
  rewrite split_join_words by exact Hw.
  rewrite filter_join by reflexivity.
  rewrite map_map.
  rewrite (map_ext _ (filter (isprintable ucd_printable)))
    by (intros w; apply filter_filter_same).
  now apply strip_join_words.
Qed.

End NormalizeTextOutput.

Lemma normalize_text_single_spaces_witness :
  consecutive_ws
    (normalize_text ascii_nfkc ascii_printable
       (py " a" ++ [0x09; 0x0A] ++ py "b  c ")) = false.
Proof.
  apply (normalize_text_single_spaces ascii_nfkc ascii_printable). reflexivity.
Defined.

Lemma normalize_text_idempotent_on_witness :
  normalize_text ascii_nfkc ascii_printable
    (normalize_text ascii_nfkc ascii_printable
       (py " a" ++ [0x09; 0x0A] ++ py "b  c "))
  = py "a b c".
Proof.
  refine (eq_trans
            (normalize_text_idempotent_on ascii_nfkc ascii_printable
               (py " a" ++ [0x09; 0x0A] ++ py "b  c ") eq_refl eq_refl) _).
  reflexivity.
Defined.

(** ** The paragraph index *)

(** X5. The records written for a page are numbered from the starting index
    without a gap: a paragraph that is filtered out takes no index. *)
Theorem paragraph_indices_consecutive (page : input_item) (ignore : list str)
  (min_length max_length : Z) (items : list paragraph) :
  forall index,
    map paragraph_index
      (write_paragraphs page ignore min_length max_length index items)
    = map (fun i => (index + Z.of_nat i)%Z)
        (seq 0 (length (write_paragraphs page ignore min_length max_length
                          index items))).
Proof.
  induction items as [|[[section_title paragraph_text] tag_name] items IH];
    intros index; [reflexivity|].
  cbn [write_paragraphs].
  destruct (str_in section_title ignore); [apply IH|].
  destruct (Z.of_nat (length paragraph_text) <? min_length)%Z; [apply IH|].
  destruct (Z.of_nat (length paragraph_text) >? max_length)%Z; [apply IH|].
  cbn [map length seq paragraph_index output_of]. f_equal; [lia|].
  rewrite IH, <- seq_shift, map_map. apply map_ext. intros i. lia.
Qed.

(** ** The bounds of the model are never reached *)

Lemma load_element (container : string_class) (name : str) (a : attrs)
  (children : list markup) (sp : soup) :
  load_in container (Element name a children) sp
  = let (sp', cs) := load_all (container_in name container) children sp in
    (sp' ++ [Tag name a cs], length sp').
Proof. reflexivity. Qed.

Lemma load_all_cons (inside : string_class) (m : markup) (ms : list markup)
  (sp : soup) :
  load_all inside (m :: ms) sp
  = let (sp1, i) := load_in inside m sp in
    let (sp2, ids) := load_all inside ms sp1 in
    (sp2, i :: ids).
Proof. reflexivity. Qed.

Lemma contents_app_old (sp ext : soup) (i : nat) :
  (i < length sp)%nat -> contents (sp ++ ext) i = contents sp i.
Proof. intros H. unfold contents. now rewrite nth_error_app1. Qed.

Lemma contents_beyond (sp : soup) (i : nat) :
  (length sp <= i)%nat -> contents sp i = [].
Proof.
  intros H. unfold contents. now rewrite (proj2 (nth_error_None sp i) H).
Qed.

Lemma contents_app_new (sp : soup) (nd : node) :
  contents (sp ++ [nd]) (length sp)
  = match nd with Tag _ _ cs => cs | _ => [] end.
Proof.
  unfold contents. rewrite nth_error_app2, Nat.sub_diag by apply le_n.
  reflexivity.
Qed.

Lemma tidy_nil : tidy [].
Proof.
  intros i. unfold contents. destruct i; simpl; split; constructor.
Qed.

Lemma tidy_app (sp : soup) (nd : node) :
  tidy sp ->
  match nd with
  | Tag _ _ cs => Forall (fun c => (c < length sp)%nat) cs /\ increasing cs
  | _ => True
  end ->
  tidy (sp ++ [nd]).
Proof.
  intros Hsp Hnd i.
  destruct (Nat.lt_trichotomy i (length sp)) as [Hlt|[->|Hgt]].
  - rewrite contents_app_old by exact Hlt. apply Hsp.
  - rewrite contents_app_new. destruct nd as [s|name a cs];
      [split; constructor | exact Hnd].
  - rewrite contents_beyond by (rewrite length_app; simpl; lia).
    split; constructor.
Qed.

Lemma markup_induction (P : markup -> Prop)
  (HText : forall s, P (Text s))
  (HSpecial : forall c s, P (Special c s))
  (HElement : forall name a children,
      Forall P children -> P (Element name a children)) :
  forall m, P m.
Proof.
  exact (fix IH (m : markup) : P m :=
           match m with
           | Text s => HText s
           | Special c s => HSpecial c s
           | Element name a children =>
               HElement name a children
                 ((fix all (l : list markup) : Forall P l :=
                     match l with
                     | [] => Forall_nil P
                     | x :: l' => Forall_cons x (IH x) (all l')
                     end) children)
           end).
Qed.

Lemma increasing_app (l : list nat) (c : nat) :
  increasing l -> Forall (fun x => (x < c)%nat) l -> increasing (l ++ [c]).
Proof.
  induction l as [|x l IH]; simpl; intros Hi Hc.
  - split; constructor.
  - destruct Hi as [Hx Hi]. inversion Hc as [|? ? Hxc Hlc]; subst.
    split; [|now apply IH].
    apply Forall_app. split; [exact Hx | now constructor].
Qed.

(** Loading markup into a tidy store leaves it tidy; the new objects come
    after the old ones, and the object for the markup is the last one. *)
Lemma load_in_tidy (m : markup) :
  forall container sp,
    tidy sp ->
    tidy (fst (load_in container m sp))
    /\ (length sp <= snd (load_in container m sp)
        < length (fst (load_in container m sp)))%nat.
Proof.
  induction m as [s|c s|name a children IH] using markup_induction;
    intros container sp Hsp.
  - simpl. split; [now apply tidy_app|]. rewrite length_app. simpl. lia.
  - simpl. split; [now apply tidy_app|]. rewrite length_app. simpl. lia.
  - rewrite load_element. set (inside := container_in name container).
    assert (Hall : forall sp0,
               tidy sp0 ->
               tidy (fst (load_all inside children sp0))
               /\ (length sp0
                   <= length (fst (load_all inside children sp0)))%nat
               /\ Forall (fun c =>
                            (length sp0 <= c
                             < length (fst (load_all inside children sp0)))%nat)
                    (snd (load_all inside children sp0))
               /\ increasing (snd (load_all inside children sp0))).
    { clear sp Hsp. induction IH as [|m ms Hm Hms IHms]; intros sp0 Hsp0.
      - simpl. split; [exact Hsp0|]. split; [lia|]. split; constructor.
      - rewrite load_all_cons.
        destruct (Hm inside sp0 Hsp0) as [Ht1 Hr1].
        destruct (load_in inside m sp0) as [sp1 r]. simpl in Ht1, Hr1.
        destruct (IHms sp1 Ht1) as (Ht2 & Hl2 & Hc2 & Hi2).
        destruct (load_all inside ms sp1) as [sp2 ids]. simpl in *.
        split; [exact Ht2|]. split; [lia|]. split; [|split; [|exact Hi2]].
        + constructor; [lia|].
          eapply Forall_impl; [|exact Hc2]. simpl. intros c Hc. lia.
        + eapply Forall_impl; [|exact Hc2]. simpl. intros c Hc. lia. }
    destruct (Hall sp Hsp) as (Ht & Hl & Hc & Hi).
    destruct (load_all inside children sp) as [sp' cs]. simpl in *.
    split.
    + apply tidy_app; [exact Ht|]. split; [|exact Hi].
      eapply Forall_impl; [|exact Hc]. simpl. intros c Hc'. lia.
    + rewrite length_app. simpl. lia.
Qed.

Lemma load_tidy (m : markup) :
  forall sp,
    tidy sp ->
    tidy (fst (load m sp))
    /\ (length sp <= snd (load m sp) < length (fst (load m sp)))%nat.
Proof. intros sp. apply load_in_tidy. Qed.

Lemma tidy_ordered (sp : soup) : tidy sp -> ordered sp.
Proof.
  intros H i c Hc. left.
  destruct (H i) as [Hlt _]. rewrite Forall_forall in Hlt. now apply Hlt.
Qed.

Lemma nth_error_set_contents (sp : soup) (i : nat) (cs : list nat) (j : nat) :
  nth_error (set_contents sp i cs) j
  = if Nat.eqb i j then
      match nth_error sp j with
      | Some (Tag name a _) => Some (Tag name a cs)
      | other => other
      end
    else nth_error sp j.
Proof.
  unfold set_contents.
  destruct (nth_error sp i) as [[s|name a cs']|] eqn:Hi.
  - destruct (Nat.eqb_spec i j) as [<-|_]; [now rewrite Hi | reflexivity].
  - rewrite nth_error_update_nth.
    destruct (Nat.eqb_spec i j) as [<-|_]; [now rewrite Hi | reflexivity].
  - destruct (Nat.eqb_spec i j) as [<-|_]; [now rewrite Hi | reflexivity].
Qed.

Lemma is_tag_set_contents (sp : soup) (i : nat) (cs : list nat) (j : nat) :
  is_tag (set_contents sp i cs) j = is_tag sp j.
Proof.
  unfold is_tag. rewrite nth_error_set_contents.
  destruct (Nat.eqb i j); [|reflexivity].
  now destruct (nth_error sp j) as [[s|name a cs']|].
Qed.

Lemma contents_set_contents (sp : soup) (i : nat) (cs : list nat) (j : nat) :
  contents (set_contents sp i cs) j
  = if Nat.eqb i j && is_tag sp j then cs else contents sp j.
Proof.
  unfold contents, is_tag. rewrite nth_error_set_contents.
  destruct (Nat.eqb i j); [|reflexivity].
  now destruct (nth_error sp j) as [[s|name a cs']|].
Qed.

Lemma nth_error_new_string {c : string_class} (sp : soup) (s : str)
  (j : nat) :
  nth_error (sp ++ [NavigableString c s]) j
  = if Nat.eqb j (length sp) then Some (NavigableString c s)
    else nth_error sp j.
Proof.
  destruct (Nat.eqb_spec j (length sp)) as [->|Hne].
  - now rewrite nth_error_app2, Nat.sub_diag by apply le_n.
  - destruct (Nat.lt_ge_cases j (length sp)) as [Hlt|Hge].
    + now rewrite nth_error_app1.
    + rewrite (proj2 (nth_error_None sp j) Hge).
      apply nth_error_None. rewrite length_app. simpl. lia.
Qed.

Lemma is_tag_new_string {c : string_class} (sp : soup) (s : str) (j : nat) :
  is_tag (sp ++ [NavigableString c s]) j = is_tag sp j.
Proof.
  unfold is_tag. rewrite nth_error_new_string.
  destruct (Nat.eqb_spec j (length sp)) as [->|_]; [|reflexivity].
  now rewrite (proj2 (nth_error_None sp (length sp)) (le_n _)).
Qed.

Lemma contents_new_string {c : string_class} (sp : soup) (s : str)
  (j : nat) :
  contents (sp ++ [NavigableString c s]) j = contents sp j.
Proof.
  unfold contents. rewrite nth_error_new_string.
  destruct (Nat.eqb_spec j (length sp)) as [->|_]; [|reflexivity].
  now rewrite (proj2 (nth_error_None sp (length sp)) (le_n _)).
Qed.

Lemma is_tag_clear (sp : soup) (i j : nat) :
  is_tag (clear sp i) j = is_tag sp j.
Proof. apply is_tag_set_contents. Qed.

Lemma is_tag_set_string (sp : soup) (i : nat) (s : str) (j : nat) :
  is_tag (set_string sp i s) j = is_tag sp j.
Proof.
  unfold set_string. now rewrite is_tag_set_contents, is_tag_new_string.
Qed.

Lemma is_tag_below_length (sp : soup) (i : nat) :
  is_tag sp i = true -> (i < length sp)%nat.
Proof.
  unfold is_tag. intros H. apply nth_error_Some.
  now destruct (nth_error sp i).
Qed.

Lemma ordered_clear (sp : soup) (i : nat) : ordered sp -> ordered (clear sp i).
Proof.
  intros H j c. unfold clear. rewrite contents_set_contents, is_tag_set_contents.
  destruct (Nat.eqb i j && is_tag sp j); [intros [] | apply H].
Qed.

Lemma ordered_set_string (sp : soup) (i : nat) (s : str) :
  ordered sp -> ordered (set_string sp i s).
Proof.
  intros H j c. unfold set_string.
  rewrite contents_set_contents, is_tag_set_contents, !is_tag_new_string,
    contents_new_string.
  destruct (Nat.eqb i j && is_tag sp j).
  - intros [<-|[]]. right. unfold is_tag.
    now rewrite (proj2 (nth_error_None sp (length sp)) (le_n _)).
  - apply H.
Qed.

Lemma writes_below_ordered (k : nat) (sp sp' : soup) :
  writes_below k sp sp' -> ordered sp -> ordered sp'.
Proof.
  induction 1; intros Hsp; auto using ordered_clear, ordered_set_string.
Qed.
Arguments writes_below_ordered {k sp sp'} _ _.

Lemma writes_below_is_tag (k : nat) (sp sp' : soup) :
  writes_below k sp sp' -> forall j, is_tag sp' j = is_tag sp j.
Proof.
  induction 1; intros j; [reflexivity| |].
  - now rewrite is_tag_clear.
  - now rewrite is_tag_set_string.
Qed.
Arguments writes_below_is_tag {k sp sp'} _ _.

Lemma writes_below_contents (k : nat) (sp sp' : soup) :
  writes_below k sp sp' ->
  forall j, (k <= j)%nat -> contents sp' j = contents sp j.
Proof.
  induction 1 as [|sp' i Hw IH Hi|sp' i s Hw IH Hi]; intros j Hj;
    [reflexivity| |].
  - unfold clear. rewrite contents_set_contents.
    destruct (Nat.eqb_spec i j) as [->|_]; [lia|]. now apply IH.
  - unfold set_string. rewrite contents_set_contents, contents_new_string.
    destruct (Nat.eqb_spec i j) as [->|_]; [lia|]. now apply IH.
Qed.
Arguments writes_below_contents {k sp sp'} _ _ _.

Lemma writes_below_trans (k : nat) (sp1 sp2 sp3 : soup) :
  writes_below k sp1 sp2 -> writes_below k sp2 sp3 -> writes_below k sp1 sp3.
Proof.
  intros H12 H23. induction H23; [exact H12| |]; now constructor.
Qed.

Lemma writes_below_le (k k' : nat) (sp sp' : soup) :
  (k <= k')%nat -> writes_below k sp sp' -> writes_below k' sp sp'.
Proof.
  intros Hk H. induction H; constructor; auto; lia.
Qed.

Lemma descendants_upto_leaf (depth : nat) (sp : soup) (i : nat) :
  contents sp i = [] -> descendants_upto depth sp i = [].
Proof. intros H. destruct depth; simpl; [reflexivity | now rewrite H]. Qed.

Lemma contents_not_tag (sp : soup) (i : nat) :
  is_tag sp i = false -> contents sp i = [].
Proof.
  unfold is_tag, contents. now destruct (nth_error sp i) as [[s|name a cs]|].
Qed.

(** Below a tag of an ordered store there are tags that stand before it,
    and strings. *)
Lemma descendants_upto_before (sp : soup) :
  ordered sp ->
  forall depth i j,
    In j (descendants_upto depth sp i) ->
    (j < i)%nat \/ is_tag sp j = false.
Proof.
  intros Hsp. induction depth as [|depth IH]; intros i j; simpl; [intros []|].
  rewrite in_flat_map. intros (c & Hc & [<-|Hj]).
  - now apply Hsp.
  - destruct (Hsp i c Hc) as [Hlt|Hstr].
    + destruct (IH c j Hj) as [Hlt'|Hstr']; [left; lia | now right].
    + rewrite descendants_upto_leaf in Hj by now apply contents_not_tag.
      destruct Hj.
Qed.

Lemma tag_matches_is_tag (names : list str) (want : list (str * str))
  (sp : soup) (j : nat) :
  tag_matches names want (nth_error sp j) = true -> is_tag sp j = true.
Proof.
  unfold tag_matches, is_tag.
  now destruct (nth_error sp j) as [[s|name a cs]|].
Qed.

Lemma find_all_before (sp : soup) (i : nat) (names : list str)
  (want : list (str * str)) :
  ordered sp ->
  Forall (fun j => (j < i)%nat /\ is_tag sp j = true)
    (find_all sp i names want).
Proof.
  intros Hsp. apply Forall_forall. intros j Hj.
  unfold find_all in Hj. apply filter_In in Hj as [Hj Hm].
  apply tag_matches_is_tag in Hm.
  destruct (descendants_upto_before sp Hsp _ _ _ Hj) as [Hlt|Hstr];
    [now split | congruence].
Qed.

Lemma flat_map_ext_in {A B : Type} (f g : A -> list B) (l : list A) :
  (forall x, In x l -> f x = g x) -> flat_map f l = flat_map g l.
Proof.
  induction l as [|x l IH]; simpl; intros H; [reflexivity|].
  rewrite (H x) by now left. f_equal. apply IH. intros y Hy. apply H.
  now right.
Qed.

(** In an ordered store the list of descendants of an object does not
    depend on the depth allowed, once that is more than the index of the
    object. *)
Lemma descendants_upto_enough (sp : soup) :
  ordered sp ->
  forall i depth depth',
    (i < depth)%nat -> (i < depth')%nat ->
    descendants_upto depth sp i = descendants_upto depth' sp i.
Proof.
  intros Hsp i. induction i as [i IH] using lt_wf_ind.
  intros [|depth] [|depth'] Hd Hd'; try lia. simpl.
  apply flat_map_ext_in. intros c Hc. f_equal.
  destruct (Hsp i c Hc) as [Hlt|Hstr].
  - apply IH; lia.
  - now rewrite !descendants_upto_leaf by now apply contents_not_tag.
Qed.

(** The depth allowed in [descendants] is never reached in an ordered
    store: allowing more gives the same list. *)
Lemma descendants_bound_adequate (sp : soup) (i depth : nat) :
  ordered sp -> (length sp <= depth)%nat ->
  descendants_upto depth sp i = descendants sp i.
Proof.
  intros Hsp Hd. unfold descendants.
  destruct (Nat.lt_ge_cases i (length sp)) as [Hlt|Hge].
  - apply descendants_upto_enough; [exact Hsp | lia | exact Hlt].
  - now rewrite !descendants_upto_leaf by now apply contents_beyond.
Qed.

Lemma fold_clear_writes (k : nat) (l : list nat) :
  Forall (fun j => (j < k)%nat) l ->
  forall sp0 sp,
    writes_below k sp0 sp -> writes_below k sp0 (fold_left clear l sp).
Proof.
  induction 1 as [|j l Hj Hl IH]; intros sp0 sp Hw; simpl; [exact Hw|].
  apply IH. now constructor.
Qed.

Lemma find_all_below (sp : soup) (i k : nat) (names : list str)
  (want : list (str * str)) :
  ordered sp -> (i <= k)%nat ->
  Forall (fun j => (j < k)%nat) (find_all sp i names want).
Proof.
  intros Hsp Hik. eapply Forall_impl; [|now apply find_all_before].
  simpl. intros j [Hj _]. lia.
Qed.

Lemma after_increasing (i j : nat) (l : list nat) :
  increasing l -> In i l -> In j (after i l) -> (i < j)%nat.
Proof.
  induction l as [|x l IH]; simpl; [intros _ []|].
  intros [Hx Hl] Hi Hj. destruct (Nat.eqb_spec i x) as [->|Hne].
  - rewrite Forall_forall in Hx. now apply Hx.
  - destruct Hi as [->|Hi]; [congruence|]. now apply IH.
Qed.

Lemma parent_In (sp : soup) (i p : nat) :
  parent sp i = Some p -> In i (contents sp p).
Proof.
  unfold parent. intros H. apply find_some in H as [_ H].
  apply existsb_exists in H as (c & Hc & E).
  apply Nat.eqb_eq in E. now subst c.
Qed.

Lemma find_next_sibling_spec (sp : soup) (i j : nat) (names : list str) :
  find_next_sibling sp i names = Some j ->
  exists p,
    In i (contents sp p) /\ In j (after i (contents sp p))
    /\ is_tag sp j = true.
Proof.
  unfold find_next_sibling.
  destruct (parent sp i) as [p|] eqn:Hp; [|discriminate].
  intros H. apply find_some in H as [Hj Hm].
  exists p. split; [now apply parent_In|]. split; [exact Hj|].
  now apply tag_matches_is_tag in Hm.
Qed.

Section WalkerBounds.

Variable ucd_nfkc : str -> str.
Variable ucd_printable : char -> bool.
Variable text_maker_handle : markup -> str.

Lemma normalize_table_text_writes (k : nat) (sp : soup) (table_tag : nat) :
  ordered sp -> (table_tag <= k)%nat ->
  writes_below k sp (normalize_table_text ucd_nfkc sp table_tag).
Proof.
  intros Hsp Hk. unfold normalize_table_text.
  pose proof (find_all_below sp table_tag k [py "th"; py "td"] [] Hsp Hk)
    as Hl.
  assert (Hgen : forall l sp0 sp1,
             Forall (fun j => (j < k)%nat) l ->
             writes_below k sp0 sp1 ->
             writes_below k sp0
               (fold_left
                  (fun sp cell =>
                     let cell_text := get_text sp cell [SPACE] in
                     let normalized_cell_text :=
                       normalize_NFKC ucd_nfkc cell_text in
                     set_string sp cell
                       (join [SPACE] (split normalized_cell_text)))
                  l sp1)).
  { induction l as [|j l IH]; intros sp0 sp1 Hf Hw; simpl; [exact Hw|].
    inversion Hf; subst. apply IH; [assumption|]. now constructor. }
  apply Hgen; [exact Hl | constructor].
Qed.

Lemma remove_tags_writes (sp : soup) (section : nat)
  (tags_to_remove : list noise_spec) :
  ordered sp -> writes_below section sp (remove_tags sp section tags_to_remove).
Proof.
  unfold remove_tags.
  assert (Hgen : forall sp0 sp1,
             writes_below section sp0 sp1 -> ordered sp1 ->
             writes_below section sp0
               (fold_left
                  (fun sp tag =>
                     match tag with
                     | ByTagAttrs name want =>
                         fold_left clear (find_all sp section [name] want) sp
                     | ByTag name =>
                         fold_left clear (find_all sp section [name] []) sp
                     end) tags_to_remove sp1)).
  { induction tags_to_remove as [|tag tags IH]; intros sp0 sp1 Hw Ho; simpl;
      [exact Hw|].
    assert (Hstep : forall names want,
               writes_below section sp1
                 (fold_left clear (find_all sp1 section names want) sp1)).
    { intros names want. apply fold_clear_writes; [|constructor].
      now apply find_all_below. }
    destruct tag as [name|name want]; (apply IH;
      [eapply writes_below_trans; [exact Hw | apply Hstep]
      | eapply writes_below_ordered; [apply Hstep | exact Ho]]). }
  intros Hsp. apply Hgen; [constructor | exact Hsp].
Qed.

Lemma paragraph_text_of_writes (k : nat) (sp : soup) (section_title : str)
  (tag : nat) (inner : list str) :
  ordered sp -> (tag <= k)%nat ->
  writes_below k sp
    (fst (paragraph_text_of ucd_nfkc ucd_printable text_maker_handle
            sp section_title tag inner)).
Proof.
  intros Hsp Hk. unfold paragraph_text_of.
  set (sp1 := fold_left clear (find_all sp tag inner []) sp).
  assert (H1 : writes_below k sp sp1).
  { apply fold_clear_writes; [now apply find_all_below | constructor]. }
  destruct (str_eqb (tag_name sp1 tag) (py "table")); [|exact H1].
  destruct (str_eqb section_title BLOOD_TABLE_SECTION); [exact H1|].
  simpl. eapply writes_below_trans; [exact H1|].
  apply normalize_table_text_writes; [|exact Hk].
  now apply (writes_below_ordered H1).
Qed.

Lemma extract_tags_writes (k : nat) (section_title : str) (inner : list str)
  (tags : list nat) :
  Forall (fun j => (j < k)%nat) tags ->
  forall sp,
    ordered sp ->
    writes_below k sp
      (fst (fst (extract_tags ucd_nfkc ucd_printable text_maker_handle
                   sp section_title tags inner))).
Proof.
  induction 1 as [|tag tags Htag Htags IH]; intros sp Hsp; simpl;
    [constructor|].
  pose proof (paragraph_text_of_writes k sp section_title tag inner Hsp
                (Nat.lt_le_incl _ _ Htag)) as Hw.
  destruct (paragraph_text_of ucd_nfkc ucd_printable text_maker_handle
              sp section_title tag inner) as [sp' [paragraph_text|e]];
    simpl in Hw; [|exact Hw].
  specialize (IH sp' (writes_below_ordered Hw Hsp)).
  destruct (extract_tags ucd_nfkc ucd_printable text_maker_handle
              sp' section_title tags inner) as [[sp'' yielded] raised].
  simpl in *. eapply writes_below_trans; eassumption.
Qed.

(** One turn of the walker writes below its section only. *)
Lemma walk_section_writes (sp : soup) (section : nat) (section_title : str)
  (te : list str) (tr : list noise_spec) (inner : list str) :
  ordered sp ->
  writes_below section sp
    (fst (fst (fst (walk_section ucd_nfkc ucd_printable text_maker_handle
                      sp section section_title te tr inner)))).
Proof.
  intros Hsp. unfold walk_section.
  pose proof (remove_tags_writes sp section tr Hsp) as H1.
  pose proof (writes_below_ordered H1 Hsp) as Ho1.
  pose proof (extract_tags_writes section
                (title_of_section sp section section_title) inner
                (find_all (remove_tags sp section tr) section te [])
                (find_all_below (remove_tags sp section tr) section section
                   te [] Ho1 (le_n _))
                (remove_tags sp section tr) Ho1) as H2.
  destruct (extract_tags _ _ _ _ _ _ _) as [[sp' yielded] raised].
  simpl in *. eapply writes_below_trans; eassumption.
Qed.

(** The walk ends within the turns it is given when these are at least
    the number of objects from the section on. *)
Lemma walk_enough_turns (bound : nat) (te : list str) (tr : list noise_spec)
  (inner : list str) :
  forall turns sp sec section_title,
    ordered sp ->
    (forall p, (sec < p)%nat -> increasing (contents sp p)) ->
    (forall j, is_tag sp j = true -> (j < bound)%nat) ->
    is_tag sp sec = true ->
    (bound - sec <= turns)%nat ->
    exists result,
      walk ucd_nfkc ucd_printable text_maker_handle turns sp (Some sec)
        section_title te tr inner = Some result.
Proof.
  induction turns as [|turns IH];
    intros sp sec section_title Hsp Hinc Hbound Hsec Hturns.
  - specialize (Hbound sec Hsec). lia.
  - cbn [walk].
    pose proof (walk_section_writes sp sec section_title te tr inner Hsp) as Hw.
    destruct (walk_section ucd_nfkc ucd_printable text_maker_handle
                sp sec section_title te tr inner)
      as [[[sp' title'] yielded] raised].
    simpl in Hw.
    destruct raised as [e|]; [eauto|].
    destruct (find_next_sibling sp' sec [py "section"]) as [next|] eqn:Hnext.
    + apply find_next_sibling_spec in Hnext as (p & Hin & Hafter & Htag).
      pose proof (writes_below_ordered Hw Hsp) as Hsp'.
      assert (Hp : (sec < p)%nat).
      { destruct (Hsp' p sec Hin) as [Hlt|Hstr]; [exact Hlt|].
        rewrite (writes_below_is_tag Hw) in Hstr. congruence. }
      assert (Hlt : (sec < next)%nat).
      { apply (after_increasing sec next (contents sp' p)); auto.
        rewrite (writes_below_contents Hw) by lia. now apply Hinc. }
      destruct (IH sp' next title') as [[later raised'] Hr]; auto.
      * intros q Hq. rewrite (writes_below_contents Hw) by lia.
        apply Hinc. lia.
      * intros j Hj. apply Hbound. now rewrite <- (writes_below_is_tag Hw).
      * assert (next < bound)%nat; [|lia].
        apply Hbound. now rewrite <- (writes_below_is_tag Hw).
      * rewrite Hr. eauto.
    + destruct turns; simpl; eauto.
Qed.

(** X6. On every parsed page the generator runs to its end or to an
    exception: the bound on the turns of the walk is never reached. *)
Theorem extract_paragraphs_from_html_total (html : markup) (te : list str)
  (tr : list noise_spec) (inner : list str) :
  exists yielded raised,
    extract_paragraphs_from_html ucd_nfkc ucd_printable text_maker_handle
      html te tr inner = Some (yielded, raised).
Proof.
  unfold extract_paragraphs_from_html.
  destruct (load_tidy html [] tidy_nil) as [Htidy _].
  destruct (load html []) as [sp root]. simpl in Htidy.
  destruct (find sp root [py "section"]) as [sec|] eqn:Hsec.
  - destruct (walk_enough_turns (length sp) te tr inner (length sp) sp sec LEAD)
      as [[yielded raised] Hr]; eauto using tidy_ordered.
    + intros p _. apply Htidy.
    + apply is_tag_below_length.
    + unfold find in Hsec.
      destruct (find_all sp root [py "section"] []) as [|x l] eqn:Hl;
        [discriminate|].
      injection Hsec as ->.
      assert (Hin : In sec (find_all sp root [py "section"] []))
        by (rewrite Hl; now left).
      unfold find_all in Hin. apply filter_In in Hin as [_ Hm].
      now apply tag_matches_is_tag in Hm.
    + lia.
  - destruct (length sp); simpl; eauto.
Qed.

End WalkerBounds.

(** ** Tags inside tags *)

Lemma descendants_upto_mono (sp : soup) :
  forall depth depth' i k,
    (depth <= depth')%nat ->
    In k (descendants_upto depth sp i) -> In k (descendants_upto depth' sp i).
Proof.
  induction depth as [|depth IH]; intros [|depth'] i k Hd; simpl;
    try (intros []); try lia.
  rewrite !in_flat_map. intros (c & Hc & [<-|Hk]); exists c; split; auto.
  - now left.
  - right. apply (IH depth'); [lia | exact Hk].
Qed.

Lemma descendants_upto_trans (sp : soup) (depth' : nat) :
  forall depth i j k,
    In j (descendants_upto depth sp i) ->
    In k (descendants_upto depth' sp j) ->
    In k (descendants_upto (depth + depth') sp i).
Proof.
  induction depth as [|depth IH]; intros i j k; simpl; [intros []|].
  rewrite !in_flat_map. intros (c & Hc & [<-|Hj]) Hk; exists c; split; auto.
  - right. apply (descendants_upto_mono sp depth'); [lia | exact Hk].
  - right. now apply (IH c j k).
Qed.

(** What is below a descendant is below the tag. *)
Lemma descendants_trans (sp : soup) (i j k : nat) :
  ordered sp ->
  In j (descendants sp i) -> In k (descendants sp j) ->
  In k (descendants sp i).
Proof.
  intros Hsp Hj Hk.
  rewrite <- (descendants_bound_adequate sp i (length sp + length sp) Hsp)
    by lia.
  now apply (descendants_upto_trans sp (length sp) (length sp) i j k).
Qed.

(** [find_all] on a tag lists the matches inside its matches too. *)
Lemma find_all_nested (sp : soup) (i j k : nat) (names names' : list str)
  (want want' : list (str * str)) :
  ordered sp ->
  In j (find_all sp i names want) -> In k (find_all sp j names' want') ->
  In k (find_all sp i names' want').
Proof.
  unfold find_all. rewrite !filter_In. intros Hsp [Hj _] [Hk Hm].
  split; [|exact Hm]. now apply (descendants_trans sp i j k).
Qed.

Section NestedTags.

Variable ucd_nfkc : str -> str.
Variable ucd_printable : char -> bool.
Variable text_maker_handle : markup -> str.

(** A tag makes the loop raise only as a table of the pedigree section
    on which the pedigree parser raises, the inner tags cleared. *)
Lemma paragraph_text_of_raise (sp : soup) (section_title : str) (tag : nat)
  (inner : list str) (e : exn) :
  snd (paragraph_text_of ucd_nfkc ucd_printable text_maker_handle
         sp section_title tag inner) = Raise e ->
  str_eqb (tag_name sp tag) (py "table") = true
  /\ str_eqb section_title BLOOD_TABLE_SECTION = true
  /\ normalize_blood_table_text ucd_nfkc
       (fold_left clear (find_all sp tag inner []) sp) tag = Raise e.
Proof.
  unfold paragraph_text_of.
  set (sp1 := fold_left clear (find_all sp tag inner []) sp).
  assert (H1 : tag_name sp1 tag = tag_name sp tag)
    by (apply tag_name_fold_left; intros; apply tag_name_clear).
  rewrite H1.
  destruct (str_eqb (tag_name sp tag) (py "table")); [|discriminate].
  destruct (str_eqb section_title BLOOD_TABLE_SECTION); [|discriminate].
  simpl. auto.
Qed.

Lemma tag_name_extract_tags (section_title : str) (inner : list str)
  (tags : list nat) (j : nat) :
  forall sp,
    tag_name (fst (fst (extract_tags ucd_nfkc ucd_printable text_maker_handle
                          sp section_title tags inner))) j
    = tag_name sp j.
Proof.
  induction tags as [|tag tags IH]; intros sp; simpl; [reflexivity|].
  pose proof (tag_name_paragraph_text_of ucd_nfkc ucd_printable
                text_maker_handle sp section_title tag inner j) as Hn.
  destruct (paragraph_text_of ucd_nfkc ucd_printable text_maker_handle
              sp section_title tag inner) as [sp' [paragraph_text|e]];
    simpl in Hn; [|exact Hn].
  specialize (IH sp').
  destruct (extract_tags ucd_nfkc ucd_printable text_maker_handle
              sp' section_title tags inner) as [[sp'' yielded] raised].
  simpl in *. congruence.
Qed.

(** The loop over the tags stops before its end only at a tag where the
    pedigree parser raises, on the store as the tags before it left
    it. *)
Lemma extract_tags_stop (section_title : str) (inner : list str)
  (tags : list nat) :
  forall sp,
    let '(_, yielded, raised) :=
      extract_tags ucd_nfkc ucd_printable text_maker_handle
        sp section_title tags inner in
    match raised with
    | None => length yielded = length tags
    | Some e =>
        e = IndexError
        /\ str_eqb section_title BLOOD_TABLE_SECTION = true
        /\ exists tag,
             nth_error tags (length yielded) = Some tag
             /\ str_eqb (tag_name sp tag) (py "table") = true
             /\ let before :=
                  fst (fst (extract_tags ucd_nfkc ucd_printable
                              text_maker_handle sp section_title
                              (firstn (length yielded) tags) inner)) in
                normalize_blood_table_text ucd_nfkc
                  (fold_left clear (find_all before tag inner []) before) tag
                = Raise IndexError
    end.
Proof.
  induction tags as [|tag tags IH]; intros sp; simpl; [reflexivity|].
  pose proof (paragraph_text_of_raise sp section_title tag inner) as Hr.
  pose proof (tag_name_paragraph_text_of ucd_nfkc ucd_printable
                text_maker_handle sp section_title tag inner) as Hn.
  destruct (paragraph_text_of ucd_nfkc ucd_printable text_maker_handle
              sp section_title tag inner) as [sp' [paragraph_text|e]] eqn:Hp;
    simpl in Hr, Hn.
  - specialize (IH sp').
    destruct (extract_tags ucd_nfkc ucd_printable text_maker_handle
                sp' section_title tags inner) as [[sp'' yielded] raised].
    destruct raised as [e|]; [|simpl; now f_equal].
    destruct IH as (He & Ht & tag0 & Hnth & Hname & Hraise).
    split; [exact He|]. split; [exact Ht|]. exists tag0.
    split; [exact Hnth|]. split; [now rewrite <- Hn|].
    cbn [length firstn extract_tags]. rewrite Hp.
    destruct (extract_tags ucd_nfkc ucd_printable text_maker_handle sp'
                section_title (firstn (length yielded) tags) inner)
      as [[sp3 yielded3] raised3].
    exact Hraise.
  - destruct e. destruct (Hr IndexError eq_refl) as (H1 & H2 & H3).
    split; [reflexivity|]. split; [exact H2|]. exists tag.
    split; [reflexivity|]. split; [exact H1 | exact H3].
Qed.

(** C3, amended.  On a store as the parser builds it, or as earlier turns
    of the walker leave it, the walker yields in every section one
    paragraph for each tag below the section whose name is one to
    extract, in document order and with its tag name.  The tags are those
    [find_all] lists once the tags to remove are cleared; a tag to extract
    that is inside another one is in the list as well, and is yielded on
    its own.  A tag is left out only if the pedigree parser raises at it
    or before it: the loop stops early only in the pedigree section, at
    a table on which the parser raises [IndexError], the store being as
    the tags before it left it and its inner tags cleared. *)
Theorem walk_section_yields_every_match (sp : soup) (section : nat)
  (section_title : str) (te : list str) (tr : list noise_spec)
  (inner : list str) :
  ordered sp ->
  let sp1 := remove_tags sp section tr in
  let tags := find_all sp1 section te [] in
  let '(_, title', yielded, raised) :=
    walk_section ucd_nfkc ucd_printable text_maker_handle
      sp section section_title te tr inner in
  map snd yielded = map (tag_name sp) (firstn (length yielded) tags)
  /\ (raised = None /\ map snd yielded = map (tag_name sp) tags
      \/ raised = Some IndexError
         /\ str_eqb title' BLOOD_TABLE_SECTION = true
         /\ exists tag,
              nth_error tags (length yielded) = Some tag
              /\ str_eqb (tag_name sp tag) (py "table") = true
              /\ let before :=
                   fst (fst (extract_tags ucd_nfkc ucd_printable
                               text_maker_handle sp1 title'
                               (firstn (length yielded) tags) inner)) in
                 normalize_blood_table_text ucd_nfkc
                   (fold_left clear (find_all before tag inner []) before)
                   tag
                 = Raise IndexError)
  /\ (forall outer nested,
         In outer tags -> In nested (find_all sp1 outer te []) ->
         In nested tags).
Proof.
  intros Hsp.
  pose proof (walk_section_spec ucd_nfkc ucd_printable text_maker_handle
                sp section section_title te tr inner) as H.
  cbv zeta in H |- *.
  unfold walk_section in *.
  pose proof (extract_tags_stop (title_of_section sp section section_title)
                inner (find_all (remove_tags sp section tr) section te [])
                (remove_tags sp section tr)) as Hstop.
  destruct (extract_tags ucd_nfkc ucd_printable text_maker_handle
              (remove_tags sp section tr)
              (title_of_section sp section section_title)
              (find_all (remove_tags sp section tr) section te []) inner)
    as [[sp' yielded] raised].
  destruct H as (_ & _ & H2 & H3 & _).
  split; [exact H2|]. split.
  - destruct raised as [e|].
    + right. destruct Hstop as (-> & Ht & tag & Hnth & Hname & Hraise).
      split; [reflexivity|]. split; [exact Ht|]. exists tag.
      split; [exact Hnth|]. split; [|exact Hraise].
      now rewrite <- (tag_name_remove_tags sp section tr tag).
    + left. split; [reflexivity|].
      rewrite H2, (H3 eq_refl). now rewrite firstn_all.
  - intros outer nested Ho Hn.
    apply (find_all_nested (remove_tags sp section tr) section outer nested
             te te [] []); auto.
    exact (writes_below_ordered (remove_tags_writes sp section tr Hsp) Hsp).
Qed.

End NestedTags.

(** The store of [nested_page], and its section. *)
Lemma nested_page_ordered : ordered (fst (load nested_page [])).
Proof. exact (tidy_ordered _ (proj1 (load_tidy nested_page [] tidy_nil))). Defined.

Lemma walk_section_yields_every_match_witness :
  let sp := fst (load nested_page []) in
  let sp1 := remove_tags sp 8 DEFAULT_TAGS_TO_REMOVE in
  let tags := find_all sp1 8 DEFAULT_TAGS_TO_EXTRACT [] in
  let '(_, title', yielded, raised) :=
    walk_section ascii_nfkc ascii_printable no_text_maker sp 8 LEAD
      DEFAULT_TAGS_TO_EXTRACT DEFAULT_TAGS_TO_REMOVE
      DEFAULT_INNER_TAGS_TO_REMOVE in
  map snd yielded = map (tag_name sp) (firstn (length yielded) tags)
  /\ (raised = None /\ map snd yielded = map (tag_name sp) tags
      \/ raised = Some IndexError
         /\ str_eqb title' BLOOD_TABLE_SECTION = true
         /\ exists tag,
              nth_error tags (length yielded) = Some tag
              /\ str_eqb (tag_name sp tag) (py "table") = true
              /\ let before :=
                   fst (fst (extract_tags ascii_nfkc ascii_printable
                               no_text_maker sp1 title'
                               (firstn (length yielded) tags)
                               DEFAULT_INNER_TAGS_TO_REMOVE)) in
                 normalize_blood_table_text ascii_nfkc
                   (fold_left clear
                      (find_all before tag DEFAULT_INNER_TAGS_TO_REMOVE [])
                      before) tag
                 = Raise IndexError)
  /\ (forall outer nested,
         In outer tags ->
         In nested (find_all sp1 outer DEFAULT_TAGS_TO_EXTRACT []) ->
         In nested tags).
Proof.
  exact (walk_section_yields_every_match ascii_nfkc ascii_printable
           no_text_maker (fst (load nested_page [])) 8 LEAD
           DEFAULT_TAGS_TO_EXTRACT DEFAULT_TAGS_TO_REMOVE
           DEFAULT_INNER_TAGS_TO_REMOVE nested_page_ordered).
Defined.

(** ** A page from end to end *)

(** The lead paragraph ["Hello   world"] with a footnote marker and the
    section "History" with a table of two rows of two cells give two
    paragraphs: ["Hello world"] under ["__LEAD__"] with tag [p], the
    marker gone, and the converted table under ["History"] with tag
    [table]. *)
Theorem history_page_paragraphs (ucd_nfkc : str -> str)
  (ucd_printable : char -> bool) (text_maker_handle : markup -> str) :
  extract_paragraphs_from_html ucd_nfkc ucd_printable text_maker_handle
    history_page DEFAULT_TAGS_TO_EXTRACT DEFAULT_TAGS_TO_REMOVE
    DEFAULT_INNER_TAGS_TO_REMOVE
  = Some ([ (py "__LEAD__", py "Hello world", py "p");
            (py "History", text_maker_handle two_by_two_table, py "table") ],
          None).
Proof. reflexivity. Qed.

(** A style sheet and a comment inside a heading or a paragraph are no
    part of its text. *)
Example styled_page_paragraphs :
  extract_paragraphs_from_html ascii_nfkc ascii_printable no_text_maker
    styled_page DEFAULT_TAGS_TO_EXTRACT DEFAULT_TAGS_TO_REMOVE
    DEFAULT_INNER_TAGS_TO_REMOVE
  = Some ([(py "AB", py "Visible text end", py "p")], None).
Proof. reflexivity. Qed.

Lemma section_title_tracking_witness :
  extract_paragraphs_from_html ascii_nfkc ascii_printable no_text_maker
    (carried_title_page (py "History") (py "a") (py "b") (py "c"))
    DEFAULT_TAGS_TO_EXTRACT DEFAULT_TAGS_TO_REMOVE
    DEFAULT_INNER_TAGS_TO_REMOVE
  = Some ([ (LEAD, py "a", py "p");
            (py "History", py "b", py "p");
            (py "History", py "c", py "p") ], None).
Proof.
  exact (proj1 (proj2 (section_title_tracking ascii_nfkc ascii_printable
                         no_text_maker))
           (py "History") (py "a") (py "b") (py "c")).
Defined.

(** ** The records [main] writes for a page *)

Lemma write_paragraphs_step (page : input_item) (ignore : list str)
  (min_length max_length index : Z) (item : paragraph)
  (items : list paragraph) :
  write_paragraphs page ignore min_length max_length index (item :: items)
  = if passes_filters ignore min_length max_length item then
      output_of page index (fst (fst item)) (snd (fst item)) (snd item)
      :: write_paragraphs page ignore min_length max_length (index + 1) items
    else write_paragraphs page ignore min_length max_length index items.
Proof.
  destruct item as [[section_title paragraph_text] tag_name].
  cbn [write_paragraphs passes_filters fst snd].
  destruct (str_in section_title ignore); [reflexivity|].
  destruct (Z.of_nat (length paragraph_text) <? min_length)%Z; [reflexivity|].
  destruct (Z.of_nat (length paragraph_text) >? max_length)%Z; reflexivity.
Qed.

Lemma write_paragraphs_map (page : input_item) (ignore : list str)
  (min_length max_length : Z) (items : list paragraph) :
  forall index,
    map paragraph_of_output
      (write_paragraphs page ignore min_length max_length index items)
    = filter (passes_filters ignore min_length max_length) items.
Proof.
  induction items as [|item items IH]; intros index; [reflexivity|].
  rewrite write_paragraphs_step. cbn [filter].
  destruct (passes_filters ignore min_length max_length item); [|apply IH].
  cbn [map]. rewrite IH.
  now destruct item as [[section_title paragraph_text] tag_name].
Qed.

Lemma write_paragraphs_page (page : input_item) (ignore : list str)
  (min_length max_length : Z) (items : list paragraph) :
  forall index,
    Forall (fun r => pageid r = in_pageid page
                     /\ revid r = in_revid page
                     /\ title r = in_title page)
      (write_paragraphs page ignore min_length max_length index items).
Proof.
  induction items as [|item items IH]; intros index; [constructor|].
  rewrite write_paragraphs_step.
  destruct (passes_filters ignore min_length max_length item); [|apply IH].
  constructor; [repeat split | apply IH].
Qed.

(** X7. The records written for a page are made from exactly the
    paragraphs that pass the three filters (section not ignored, text not
    shorter than the minimum, not longer than the maximum), in the order
    the generator yields them, with section, text and tag unchanged.
    Every record carries the page id, revision id and title of the page;
    none comes from an ignored section, and none has a text outside the
    bounds. *)
Theorem write_paragraphs_filters (page : input_item) (ignore : list str)
  (min_length max_length index : Z) (items : list paragraph) :
  map paragraph_of_output
    (write_paragraphs page ignore min_length max_length index items)
  = filter (passes_filters ignore min_length max_length) items
  /\ Forall (fun r => pageid r = in_pageid page
                      /\ revid r = in_revid page
                      /\ title r = in_title page
                      /\ str_in (section r) ignore = false
                      /\ (min_length <= Z.of_nat (length (text r))
                          <= max_length)%Z)
       (write_paragraphs page ignore min_length max_length index items).
Proof.
  split; [apply write_paragraphs_map|].
  apply Forall_forall. intros r Hr.
  pose proof (write_paragraphs_page page ignore min_length max_length items
                index) as Hpage.
  rewrite Forall_forall in Hpage. destruct (Hpage r Hr) as (H1 & H2 & H3).
  repeat split; auto.
  all: assert (Hp : In (paragraph_of_output r)
                      (filter (passes_filters ignore min_length max_length)
                         items))
    by (rewrite <- (write_paragraphs_map page ignore min_length max_length
                      items index); now apply in_map).
  all: apply filter_In in Hp as [_ Hp].
  all: unfold paragraph_of_output, passes_filters in Hp.
  all: apply andb_true_iff in Hp as [Hp Hmax].
  all: apply andb_true_iff in Hp as [Hig Hmin].
  all: apply negb_true_iff in Hig, Hmin, Hmax.
  all: try exact Hig.
  all: apply Z.ltb_ge in Hmin; rewrite Z.gtb_ltb in Hmax;
    apply Z.ltb_ge in Hmax; lia.
Qed.

Lemma py_inj (s s' : string) : py s = py s' -> s = s'.
Proof.
  unfold py. intros H.
  rewrite <- (string_of_list_ascii_of_string s),
    <- (string_of_list_ascii_of_string s').
  f_equal. revert H.
  generalize (list_ascii_of_string s) (list_ascii_of_string s').
  induction l as [|a l IH]; intros [|b l']; simpl; try discriminate;
    [reflexivity|].
  intros H. injection H as Hab Hl.
  rewrite <- (ascii_N_embedding a), <- (ascii_N_embedding b), Hab.
  f_equal. now apply IH.
Qed.

Lemma to_int_not_nil (z : Z) :
  Z.to_int z <> Decimal.Pos Decimal.Nil
  /\ Z.to_int z <> Decimal.Neg Decimal.Nil.
Proof.
  destruct z as [|p|p]; simpl; split; try discriminate;
    intros [= H]; now apply Unsigned.to_uint_nonnil in H.
Qed.

(** Different integers are written differently. *)
Lemma format_int_inj (z z' : Z) : format_int z = format_int z' -> z = z'.
Proof.
  unfold format_int. intros H. apply py_inj in H.
  apply DecimalZ.to_int_inj.
  destruct (to_int_not_nil z) as [H1 H2], (to_int_not_nil z') as [H1' H2'].
  pose proof (NilZero.isi _ H1 H2) as E.
  rewrite H, (NilZero.isi _ H1' H2') in E. now injection E.
Qed.

Lemma write_paragraphs_ids (page : input_item) (ignore : list str)
  (min_length max_length : Z) (items : list paragraph) :
  forall index,
    map id (write_paragraphs page ignore min_length max_length index items)
    = map (fun i => format_int (in_pageid page) ++ HYPHEN
                    ++ format_int (in_revid page) ++ HYPHEN
                    ++ format_int (index + Z.of_nat i))
        (seq 0 (length (write_paragraphs page ignore min_length max_length
                          index items))).
Proof.
  induction items as [|item items IH]; intros index; [reflexivity|].
  rewrite write_paragraphs_step.
  destruct (passes_filters ignore min_length max_length item); [|apply IH].
  cbn [map length seq id output_of]. rewrite Z.add_0_r. f_equal.
  rewrite IH, <- seq_shift, map_map. apply map_ext. intros i.
  do 5 f_equal. lia.
Qed.

Lemma NoDup_map_injective {A B : Type} (f : A -> B) (l : list A) :
  (forall x y, f x = f y -> x = y) -> NoDup l -> NoDup (map f l).
Proof.
  intros Hf. induction 1 as [|x l Hx Hl IH]; simpl; constructor; [|exact IH].
  rewrite in_map_iff. intros (y & E & Hy). apply Hf in E. now subst y.
Qed.

(** X8. The ids of the records written for one page are pairwise
    different: each is the page id, the revision id and the paragraph
    index joined by hyphens, and no index is used twice. *)
Theorem page_ids_unique (page : input_item) (ignore : list str)
  (min_length max_length index : Z) (items : list paragraph) :
  NoDup (map id
           (write_paragraphs page ignore min_length max_length index items)).
Proof.
  rewrite write_paragraphs_ids.
  apply NoDup_map_injective; [|apply seq_NoDup].
  intros i j H.
  repeat apply app_inv_head in H.
  apply format_int_inj in H. lia.
Qed.

(** ** More on [normalize_text]: blank input, length, fixed points *)

Lemma in_lstrip (c : char) (s : str) : In c (lstrip s) -> In c s.
Proof.
  induction s as [|x s IH]; simpl; [auto|].
  destruct (isspace x); [intros H; right; now apply IH | auto].
Qed.

Lemma in_rstrip (c : char) (s : str) : In c (rstrip s) -> In c s.
Proof.
  induction s as [|x s IH]; simpl; [auto|].
  destruct (rstrip s) as [|d r].
  - destruct (isspace x); simpl; [intros [] | intros [->|[]]; now left].
  - intros [->|H]; [now left | right; now apply IH].
Qed.

Lemma in_strip (c : char) (s : str) : In c (strip s) -> In c s.
Proof. intros H. now apply in_rstrip, in_lstrip. Qed.

Lemma in_re_sub_ws_from (c : char) (in_run : bool) (s : str) :
  In c (re_sub_ws_from [SPACE] in_run s) ->
  c = SPACE \/ (In c s /\ isspace c = false).
Proof.
  revert in_run. induction s as [|x s IH]; intros in_run; simpl; [intros []|].
  destruct (isspace x) eqn:Hx.
  - destruct in_run.
    + intros H. destruct (IH _ H) as [->|[Hin Hc]]; auto.
    + intros [<-|H]; [now left|].
      destruct (IH _ H) as [->|[Hin Hc]]; auto.
  - intros [<-|H]; [right; auto|].
    destruct (IH _ H) as [->|[Hin Hc]]; auto.
Qed.

(** The characters of [" ".join(s.split())] are spaces and characters of
    [s] that are not white space. *)
Lemma in_join_split (c : char) (s : str) :
  In c (join [SPACE] (split s)) ->
  c = SPACE \/ (In c s /\ isspace c = false).
Proof.
  rewrite join_split_collapse. intros H.
  apply in_strip in H. now apply in_re_sub_ws_from in H.
Qed.

Lemma rstrip_all_ws (s : str) : forallb isspace s = true -> rstrip s = [].
Proof.
  induction s as [|c s IH]; simpl; intros H; [reflexivity|].
  apply andb_true_iff in H as [Hc H]. now rewrite (IH H), Hc.
Qed.

Lemma strip_all_ws (s : str) : forallb isspace s = true -> strip s = [].
Proof. intros H. unfold strip. now rewrite rstrip_all_ws. Qed.

Lemma length_lstrip (s : str) : (length (lstrip s) <= length s)%nat.
Proof.
  induction s as [|c s IH]; simpl; [lia|].
  destruct (isspace c); simpl; lia.
Qed.

Lemma length_rstrip (s : str) : (length (rstrip s) <= length s)%nat.
Proof.
  induction s as [|c s IH]; simpl; [lia|].
  destruct (rstrip s) as [|d r]; [destruct (isspace c)|]; simpl in *; lia.
Qed.

Lemma length_strip (s : str) : (length (strip s) <= length s)%nat.
Proof.
  unfold strip. pose proof (length_lstrip (rstrip s)).
  pose proof (length_rstrip s). lia.
Qed.

Lemma length_re_sub_ws_from (in_run : bool) (s : str) :
  (length (re_sub_ws_from [SPACE] in_run s) <= length s)%nat.
Proof.
  revert in_run. induction s as [|c s IH]; intros in_run; simpl; [lia|].
  destruct (isspace c); [destruct in_run|]; simpl.
  - specialize (IH true). lia.
  - specialize (IH true). lia.
  - specialize (IH false). lia.
Qed.

Lemma length_filter_le (p : char -> bool) (s : str) :
  (length (filter p s) <= length s)%nat.
Proof.
  induction s as [|c s IH]; simpl; [lia|]. destruct (p c); simpl; lia.
Qed.

Lemma filter_all (p : char -> bool) (s : str) :
  forallb p s = true -> filter p s = s.
Proof.
  induction s as [|c s IH]; simpl; intros H; [reflexivity|].
  apply andb_true_iff in H as [Hc H]. now rewrite Hc, IH.
Qed.

Lemma split_from_chars (s : str) :
  forall cur w c,
    In w (split_from cur s) -> In c w -> In c cur \/ In c s.
Proof.
  induction s as [|x s IH]; intros cur w c; simpl.
  - destruct cur as [|d cur]; [intros []|].
    intros [<-|[]] Hc. left. now apply in_rev.
  - destruct (isspace x).
    + destruct cur as [|d cur].
      * intros Hw Hc. destruct (IH [] w c Hw Hc) as [[]|H]. auto.
      * intros [<-|Hw] Hc; [left; now apply in_rev|].
        destruct (IH [] w c Hw Hc) as [[]|H]. auto.
    + intros Hw Hc. destruct (IH (x :: cur) w c Hw Hc) as [[<-|H]|H]; auto.
Qed.

Section NormalizeTextMore.

Variable ucd_nfkc : str -> str.
Variable ucd_printable : char -> bool.

(** A printable white-space character is the ASCII space. *)
Lemma printable_space (c : char) :
  isprintable ucd_printable c = true -> isspace c = true -> c = SPACE.
Proof.
  unfold isprintable, is_ascii. destruct (N.ltb_spec c 128) as [Hlt|Hge].
  - intros Hp Hs. apply andb_true_iff in Hp as [Hp1 Hp2].
    apply N.leb_le in Hp1. apply N.ltb_lt in Hp2.
    unfold isspace in Hs.
    repeat (apply orb_true_iff in Hs as [Hs|Hs]);
      repeat match goal with
        | H : (_ && _) = true |- _ => apply andb_true_iff in H as [? ?]
        | H : (_ <=? _) = true |- _ => apply N.leb_le in H
        | H : (_ =? _) = true |- _ => apply N.eqb_eq in H
        end; unfold SPACE; lia.
  - intros Hp Hs. rewrite Hs in Hp. discriminate Hp.
Qed.

(** X9. When the NFKC form of the input holds nothing but white space
    and characters that are not printable (in particular when the input
    is empty or blank), [normalize_text] returns the empty string. *)
Theorem normalize_text_blank (s : str) :
  forallb (fun c => isspace c || negb (isprintable ucd_printable c))
    (normalize_NFKC ucd_nfkc s) = true ->
  normalize_text ucd_nfkc ucd_printable s = [].
Proof.
  intros H. unfold normalize_text. apply strip_all_ws.
  apply forallb_forall. intros c Hc.
  apply filter_In in Hc as [Hc Hp].
  apply in_join_split in Hc as [->|[Hin Hs]]; [reflexivity|].
  rewrite forallb_forall in H. specialize (H c Hin).
  rewrite Hs, Hp in H. discriminate H.
Qed.

(** X10. The output of [normalize_text] is never longer than the NFKC
    form of its input: collapsing, filtering and trimming only take
    characters away. *)
Theorem normalize_text_length (s : str) :
  (length (normalize_text ucd_nfkc ucd_printable s)
   <= length (normalize_NFKC ucd_nfkc s))%nat.
Proof.
  unfold normalize_text. rewrite join_split_collapse.
  pose proof (length_strip
                (filter (isprintable ucd_printable)
                   (strip (re_sub_ws [SPACE] (normalize_NFKC ucd_nfkc s))))).
  pose proof (length_filter_le (isprintable ucd_printable)
                (strip (re_sub_ws [SPACE] (normalize_NFKC ucd_nfkc s)))).
  pose proof (length_strip (re_sub_ws [SPACE] (normalize_NFKC ucd_nfkc s))).
  pose proof (length_re_sub_ws_from false (normalize_NFKC ucd_nfkc s)).
  unfold re_sub_ws in *. lia.
Qed.

Lemma re_sub_ws_single_spaces (s : str) :
  (forall c, In c s -> isspace c = true -> c = SPACE) ->
  consecutive_ws s = false ->
  re_sub_ws_from [SPACE] false s = s
  /\ (leading_ws s = false -> re_sub_ws_from [SPACE] true s = s).
Proof.
  induction s as [|c s IH]; intros Hsp Hcons; [split; reflexivity|].
  simpl in Hcons. apply orb_false_iff in Hcons as [Hc Hcons].
  destruct IH as [IH1 IH2]; [intros x Hx; apply Hsp; now right | exact Hcons|].
  simpl. destruct (isspace c) eqn:Hs.
  - simpl in Hc. rewrite (Hsp c (or_introl eq_refl) Hs) in *.
    split; [|intros Hl; vm_compute in Hl; discriminate Hl].
    now rewrite (IH2 Hc).
  - split; [|intros _]; now rewrite IH1.
Qed.

(** X11. Among the strings that are their own NFKC form, those that
    [normalize_text] returns unchanged are exactly the strings of
    printable characters with no white space at either end and no two
    white-space characters in a row. *)
Theorem normalize_text_fixed_points (s : str) :
  normalize_NFKC ucd_nfkc s = s ->
  (normalize_text ucd_nfkc ucd_printable s = s
   <-> forallb (isprintable ucd_printable) s = true
       /\ leading_ws s = false /\ trailing_ws s = false
       /\ consecutive_ws s = false).
Proof.
  intros Hn. split.
  - intros Hfix.
    assert (Hp : forallb (isprintable ucd_printable) s = true).
    { rewrite <- Hfix. unfold normalize_text.
      apply forallb_strip, forallb_filter_same. }
    split; [exact Hp|].
    split; [rewrite <- Hfix; apply leading_ws_strip|].
    split; [rewrite <- Hfix; apply trailing_ws_strip|].
    assert (Hw : forallb (existsb (isprintable ucd_printable))
                   (split (normalize_NFKC ucd_nfkc s)) = true).
    { rewrite Hn. apply forallb_forall. intros w Hw.
      pose proof (split_words s) as Hws. rewrite Forall_forall in Hws.
      destruct (Hws w Hw) as [Hne _].
      destruct w as [|c w']; [congruence|].
      apply existsb_exists. exists c. split; [now left|].
      rewrite forallb_forall in Hp. apply Hp.
      destruct (split_from_chars s [] (c :: w') c Hw (or_introl eq_refl))
        as [[]|H]; exact H. }
    destruct (normalize_text_words ucd_nfkc ucd_printable s Hw) as [E Hwords].
    rewrite <- Hfix, E. now apply join_words_consecutive.
  - intros (Hp & Hl & Ht & Hc).
    unfold normalize_text. rewrite Hn, join_split_collapse.
    unfold re_sub_ws.
    rewrite (proj1 (re_sub_ws_single_spaces s
                      (fun c Hin Hs =>
                         printable_space c
                           (proj1 (forallb_forall _ _) Hp c Hin) Hs) Hc)).
    assert (Hstrip : strip s = s).
    { unfold strip. rewrite rstrip_no_trailing by exact Ht.
      now apply lstrip_no_leading. }
    now rewrite Hstrip, filter_all, Hstrip.
Qed.

End NormalizeTextMore.

Lemma normalize_text_blank_witness :
  normalize_text ascii_nfkc ascii_printable [0x20; 0x09; 0x7F; 0x0A] = [].
Proof.
  exact (normalize_text_blank ascii_nfkc ascii_printable
           [0x20; 0x09; 0x7F; 0x0A] eq_refl).
Defined.

Lemma normalize_text_fixed_points_witness :
  normalize_text ascii_nfkc ascii_printable (py "Hello world") = py "Hello world".
Proof.
  apply (normalize_text_fixed_points ascii_nfkc ascii_printable
           (py "Hello world") eq_refl).
  repeat split; reflexivity.
Defined.

(** ** Clearing tags: what is removed contributes nothing *)

Lemma length_update_nth {A : Type} (l : list A) (i : nat) (x : A) :
  length (update_nth l i x) = length l.
Proof.
  revert i. induction l as [|y l IH]; intros [|i]; simpl; auto.
Qed.

Lemma length_set_contents (sp : soup) (i : nat) (cs : list nat) :
  length (set_contents sp i cs) = length sp.
Proof.
  unfold set_contents.
  destruct (nth_error sp i) as [[s|name a cs']|]; auto using length_update_nth.
Qed.

Lemma tag_matches_set_contents (sp : soup) (i : nat) (cs : list nat) (j : nat)
  (names : list str) (want : list (str * str)) :
  tag_matches names want (nth_error (set_contents sp i cs) j)
  = tag_matches names want (nth_error sp j).
Proof.
  rewrite nth_error_set_contents. destruct (Nat.eqb i j); [|reflexivity].
  now destruct (nth_error sp j) as [[s|name a cs']|].
Qed.

Lemma narrows_refl (sp : soup) : narrows sp sp.
Proof. repeat split; auto. Qed.

Lemma narrows_trans (sp1 sp2 sp3 : soup) :
  narrows sp1 sp2 -> narrows sp2 sp3 -> narrows sp1 sp3.
Proof.
  intros (L1 & C1 & M1) (L2 & C2 & M2). split; [congruence|]. split.
  - intros j. destruct (C2 j) as [E|E]; [rewrite E; apply C1 | now right].
  - intros j names want. now rewrite M2, M1.
Qed.

Lemma narrows_clear (sp : soup) (i : nat) : narrows sp (clear sp i).
Proof.
  unfold clear. split; [apply length_set_contents|]. split.
  - intros j. rewrite contents_set_contents.
    destruct (Nat.eqb i j && is_tag sp j); auto.
  - intros j names want. apply tag_matches_set_contents.
Qed.

Lemma narrows_fold_clear (l : list nat) :
  forall sp, narrows sp (fold_left clear l sp).
Proof.
  induction l as [|i l IH]; intros sp; simpl; [apply narrows_refl|].
  eapply narrows_trans; [apply narrows_clear | apply IH].
Qed.

Lemma narrows_descendants_upto (sp sp' : soup) :
  narrows sp sp' ->
  forall depth i j,
    In j (descendants_upto depth sp' i) -> In j (descendants_upto depth sp i).
Proof.
  intros (_ & Hc & _). induction depth as [|depth IH]; intros i j; simpl;
    [auto|].
  rewrite !in_flat_map. intros (c & Hin & Hj).
  destruct (Hc i) as [E|E]; rewrite E in Hin; [|destruct Hin].
  exists c. split; [exact Hin|]. destruct Hj as [<-|Hj]; [now left|].
  right. now apply IH.
Qed.

Lemma narrows_find_all (sp sp' : soup) (i j : nat) (names : list str)
  (want : list (str * str)) :
  narrows sp sp' ->
  In j (find_all sp' i names want) -> In j (find_all sp i names want).
Proof.
  intros Hn. unfold find_all, descendants. rewrite !filter_In.
  destruct Hn as (Hl & Hc & Hm). rewrite Hl, Hm. intros [Hj Ht].
  split; [|exact Ht].
  now apply (narrows_descendants_upto sp sp' (conj Hl (conj Hc Hm))).
Qed.

Lemma narrows_empty (sp sp' : soup) (j : nat) :
  narrows sp sp' -> contents sp j = [] -> contents sp' j = [].
Proof.
  intros (_ & Hc & _) E. destruct (Hc j) as [E'|E']; congruence.
Qed.

Lemma fold_clear_empties (l : list nat) (j : nat) :
  forall sp,
    In j l \/ contents sp j = [] -> contents (fold_left clear l sp) j = [].
Proof.
  induction l as [|i l IH]; intros sp Hj; simpl.
  - destruct Hj as [[]|Hj]. exact Hj.
  - apply IH. destruct Hj as [[Hj|Hj]|Hj].
    + right. subst i. unfold clear. rewrite contents_set_contents.
      rewrite Nat.eqb_refl. simpl.
      destruct (is_tag sp j) eqn:Ht;
        [reflexivity | now apply contents_not_tag].
    + now left.
    + right. now apply (narrows_empty sp _ j (narrows_clear sp i)).
Qed.

(** A tag without children has no text. *)
Lemma get_text_empty (sp : soup) (j : nat) (sep : str) :
  contents sp j = [] -> get_text sp j sep = [].
Proof.
  intros E. unfold get_text, all_strings, descendants.
  now rewrite descendants_upto_leaf.
Qed.

(** After [for t in tag.find_all(...): t.clear()], every tag below [tag]
    that the same search finds is empty. *)
Lemma clear_found_empties (sp : soup) (i : nat) (names : list str)
  (want : list (str * str)) (j : nat) :
  In j (find_all (fold_left clear (find_all sp i names want) sp) i names want)
  -> contents (fold_left clear (find_all sp i names want) sp) j = [].
Proof.
  intros Hj. apply fold_clear_empties. left.
  exact (narrows_find_all sp _ i j names want (narrows_fold_clear _ sp) Hj).
Qed.

Lemma remove_tags_step (sp : soup) (section : nat) (spec : noise_spec) :
  match spec with
  | ByTagAttrs name want => fold_left clear (find_all sp section [name] want) sp
  | ByTag name => fold_left clear (find_all sp section [name] []) sp
  end
  = fold_left clear
      (find_all sp section [spec_name spec] (spec_want spec)) sp.
Proof. now destruct spec. Qed.

Lemma remove_tags_cons (sp : soup) (section : nat) (spec : noise_spec)
  (specs : list noise_spec) :
  remove_tags sp section (spec :: specs)
  = remove_tags
      (fold_left clear
         (find_all sp section [spec_name spec] (spec_want spec)) sp)
      section specs.
Proof. unfold remove_tags. simpl. now rewrite remove_tags_step. Qed.

Lemma remove_tags_narrows (specs : list noise_spec) (section : nat) :
  forall sp, narrows sp (remove_tags sp section specs).
Proof.
  induction specs as [|spec specs IH]; intros sp; [apply narrows_refl|].
  rewrite remove_tags_cons.
  eapply narrows_trans; [apply narrows_fold_clear | apply IH].
Qed.

Lemma remove_tags_found_empty (specs : list noise_spec) (section : nat) :
  forall sp spec j,
    In spec specs ->
    In j (find_all (remove_tags sp section specs) section
            [spec_name spec] (spec_want spec)) ->
    contents (remove_tags sp section specs) j = [].
Proof.
  induction specs as [|spec0 specs IH]; intros sp spec j Hspec Hj;
    [destruct Hspec|].
  rewrite remove_tags_cons in *.
  destruct Hspec as [->|Hspec]; [|now apply (IH _ spec)].
  set (sp1 := fold_left clear
                (find_all sp section [spec_name spec] (spec_want spec)) sp)
    in *.
  pose proof (remove_tags_narrows specs section sp1) as Hn.
  apply (narrows_empty sp1 _ j Hn).
  apply clear_found_empties.
  exact (narrows_find_all sp1 _ section j _ _ Hn Hj).
Qed.

(** X12. After the removal loop of a section, every tag below the section
    that one of the removal rules matches is empty and has no text; the
    loop adds no object to the tree, and a tag keeps its name and
    attributes. *)
Theorem remove_tags_empties (specs : list noise_spec) (section : nat) :
  forall sp spec j sep,
    In spec specs ->
    In j (find_all (remove_tags sp section specs) section
            [spec_name spec] (spec_want spec)) ->
    contents (remove_tags sp section specs) j = []
    /\ get_text (remove_tags sp section specs) j sep = []
    /\ length (remove_tags sp section specs) = length sp
    /\ tag_name (remove_tags sp section specs) j = tag_name sp j.
Proof.
  intros sp spec j sep Hspec Hj.
  pose proof (remove_tags_found_empty specs section sp spec j Hspec Hj) as E.
  split; [exact E|]. split; [now apply get_text_empty|].
  split; [apply (remove_tags_narrows specs section sp)|].
  apply tag_name_remove_tags.
Qed.

Lemma remove_tags_empties_witness :
  contents (remove_tags (fst (load navbox_page [])) 5 DEFAULT_TAGS_TO_REMOVE) 2
  = []
  /\ get_text (remove_tags (fst (load navbox_page [])) 5
                 DEFAULT_TAGS_TO_REMOVE) 2 [SPACE] = []
  /\ length (remove_tags (fst (load navbox_page [])) 5 DEFAULT_TAGS_TO_REMOVE)
     = length (fst (load navbox_page []))
  /\ tag_name (remove_tags (fst (load navbox_page [])) 5
                 DEFAULT_TAGS_TO_REMOVE) 2
     = tag_name (fst (load navbox_page [])) 2.
Proof.
  apply (remove_tags_empties DEFAULT_TAGS_TO_REMOVE 5
           (fst (load navbox_page []))
           (ByTagAttrs (py "div") (class_is (py "navbox"))) 2 [SPACE]).
  - unfold DEFAULT_TAGS_TO_REMOVE. simpl. tauto.
  - vm_compute. left. reflexivity.
Defined.

(** ** Table cells after [normalize_table_text] *)

(** A tag that is no string container counts plain strings as its
    text. *)
Lemma holds_string_all_strings (sp : soup) (i : nat) (t : str) :
  string_container (tag_name sp i) = None ->
  holds_string sp i t -> all_strings sp i = [t].
Proof.
  intros Hname (k & Hc & Hk). unfold all_strings, descendants.
  unfold interesting_string_types. rewrite Hname.
  destruct (length sp) as [|n] eqn:Hn.
  - destruct sp; [destruct k; discriminate Hk | discriminate Hn].
  - simpl. rewrite Hc. simpl.
    rewrite descendants_upto_leaf.
    + simpl. now rewrite Hk.
    + unfold contents. now rewrite Hk.
Qed.

(** A header or data cell is no string container. *)
Lemma cell_is_no_container (sp : soup) (table_tag cell : nat) :
  In cell (find_all sp table_tag [py "th"; py "td"] []) ->
  string_container (tag_name sp cell) = None.
Proof.
  intros Hin. unfold find_all in Hin. apply filter_In in Hin as [_ Hm].
  apply tag_matches_name in Hm. unfold name_matches, str_in in Hm.
  simpl in Hm. apply orb_prop in Hm as [Hm|Hm].
  - apply str_eqb_eq in Hm. now rewrite Hm.
  - apply orb_prop in Hm as [Hm|Hm]; [|discriminate].
    apply str_eqb_eq in Hm. now rewrite Hm.
Qed.

Lemma nth_error_set_string_old (sp : soup) (i : nat) (s : str) (j : nat) :
  i <> j -> (j < length sp)%nat ->
  nth_error (set_string sp i s) j = nth_error sp j.
Proof.
  intros Hij Hj. unfold set_string. rewrite nth_error_set_contents.
  destruct (Nat.eqb_spec i j) as [E|_]; [contradiction|].
  now apply nth_error_app1.
Qed.

Lemma holds_string_set_string_same (sp : soup) (i : nat) (t : str) :
  is_tag sp i = true -> holds_string (set_string sp i t) i t.
Proof.
  intros Ht. exists (length sp). unfold set_string. split.
  - rewrite contents_set_contents, Nat.eqb_refl, is_tag_new_string, Ht.
    reflexivity.
  - rewrite nth_error_set_contents.
    rewrite nth_error_app2, Nat.sub_diag by apply le_n. simpl.
    now destruct (Nat.eqb i (length sp)).
Qed.

Lemma holds_string_set_string_other (sp : soup) (i j : nat) (s t : str) :
  i <> j -> holds_string sp i t -> holds_string (set_string sp j s) i t.
Proof.
  intros Hij (k & Hc & Hk). exists k. unfold set_string. split.
  - rewrite contents_set_contents.
    destruct (Nat.eqb_spec j i) as [E|_]; [congruence|]. simpl.
    now rewrite contents_new_string.
  - rewrite nth_error_set_contents.
    assert (Hk' : nth_error (sp ++ [NavigableString Plain s]) k
                  = Some (NavigableString Plain t)).
    { rewrite nth_error_app1; [exact Hk|].
      apply nth_error_Some. congruence. }
    rewrite Hk'. now destruct (Nat.eqb j k).
Qed.

Lemma holds_string_is_tag (sp : soup) (i : nat) (t : str) :
  holds_string sp i t -> is_tag sp i = true.
Proof.
  intros (k & Hc & _). unfold contents in Hc. unfold is_tag.
  destruct (nth_error sp i) as [[s|name a cs]|]; congruence.
Qed.

Section TableCells.

Variable ucd_nfkc : str -> str.

Lemma normalize_table_text_fold (sp : soup) (table_tag : nat) :
  normalize_table_text ucd_nfkc sp table_tag
  = fold_left (rewrite_cell ucd_nfkc)
      (find_all sp table_tag [py "th"; py "td"] []) sp.
Proof. reflexivity. Qed.

Lemma rewrite_cells_shape (cell : nat) (l : list nat) :
  forall sp,
    is_tag sp cell = true ->
    In cell l
    \/ (exists x,
           holds_string sp cell
             (join [SPACE] (split (normalize_NFKC ucd_nfkc x)))) ->
    exists x,
      holds_string (fold_left (rewrite_cell ucd_nfkc) l sp) cell
        (join [SPACE] (split (normalize_NFKC ucd_nfkc x))).
Proof.
  induction l as [|d l IH]; intros sp Ht H; simpl.
  - destruct H as [[]|H]. exact H.
  - apply IH; [unfold rewrite_cell; now rewrite is_tag_set_string|].
    destruct (Nat.eq_dec d cell) as [->|Hd].
    + right. eexists. unfold rewrite_cell.
      now apply holds_string_set_string_same.
    + destruct H as [[H|H]|(x & H)]; [contradiction | now left |].
      right. exists x. unfold rewrite_cell.
      apply holds_string_set_string_other; auto.
Qed.

(** X13. After [normalize_table_text], every header or data cell of the
    table holds one string and nothing else, whatever it held before;
    that string has no white space at its ends and no two white-space
    characters in a row, and it is the text of the cell for every
    separator. *)
Theorem normalize_table_text_cells (sp : soup) (table_tag cell : nat) :
  In cell (find_all sp table_tag [py "th"; py "td"] []) ->
  exists t,
    all_strings (normalize_table_text ucd_nfkc sp table_tag) cell = [t]
    /\ (forall sep,
           get_text (normalize_table_text ucd_nfkc sp table_tag) cell sep = t)
    /\ leading_ws t = false
    /\ trailing_ws t = false
    /\ consecutive_ws t = false.
Proof.
  intros Hin.
  assert (Ht : is_tag sp cell = true).
  { unfold find_all in Hin. apply filter_In in Hin as [_ Hm].
    now apply tag_matches_is_tag in Hm. }
  destruct (rewrite_cells_shape cell _ sp Ht (or_introl Hin)) as [x Hx].
  rewrite <- normalize_table_text_fold in Hx.
  apply holds_string_all_strings in Hx;
    [|rewrite tag_name_normalize_table_text;
      now apply (cell_is_no_container sp table_tag)].
  exists (join [SPACE] (split (normalize_NFKC ucd_nfkc x))).
  split; [exact Hx|]. split.
  - intros sep. unfold get_text. rewrite Hx. reflexivity.
  - pose proof (split_words (normalize_NFKC ucd_nfkc x)) as Hw.
    auto using join_words_leading, join_words_trailing,
      join_words_consecutive.
Qed.

Lemma closed_descendants_upto (sp : soup) :
  closed sp ->
  forall depth i j,
    In j (descendants_upto depth sp i) -> (j < length sp)%nat.
Proof.
  intros Hc. induction depth as [|depth IH]; intros i j; simpl; [tauto|].
  rewrite in_flat_map. intros (c & Hin & [<-|Hj]); eauto.
Qed.

Lemma tidy_closed (sp : soup) : tidy sp -> closed sp.
Proof.
  intros Ht i c Hin. destruct (Ht i) as [Hlt _].
  rewrite Forall_forall in Hlt. specialize (Hlt c Hin).
  assert (i < length sp)%nat; [|lia].
  apply nth_error_Some. unfold contents in Hin.
  destruct (nth_error sp i); [discriminate | destruct Hin].
Qed.

(** What is below a tag is read the same in two stores that agree on the
    tag and on everything below it. *)
Lemma descendants_upto_agree (sp0 sp : soup) :
  forall depth i,
    (forall j, j = i \/ In j (descendants_upto depth sp0 i) ->
               nth_error sp j = nth_error sp0 j) ->
    descendants_upto depth sp i = descendants_upto depth sp0 i.
Proof.
  induction depth as [|depth IH]; intros i H; simpl; [reflexivity|].
  assert (Hc : contents sp i = contents sp0 i).
  { unfold contents. now rewrite (H i (or_introl eq_refl)). }
  rewrite Hc. apply flat_map_ext_in. intros c Hin. f_equal. apply IH.
  intros j Hj. apply H. right. simpl. apply in_flat_map. exists c.
  split; [exact Hin|]. destruct Hj as [->|Hj]; [now left | now right].
Qed.

Lemma all_strings_agree (sp0 sp : soup) (i : nat) :
  ordered sp0 -> (length sp0 <= length sp)%nat ->
  (forall j, j = i \/ In j (descendants sp0 i) ->
             nth_error sp j = nth_error sp0 j) ->
  all_strings sp i = all_strings sp0 i.
Proof.
  intros Ho Hlen H. unfold all_strings.
  assert (Hd : descendants sp i = descendants sp0 i).
  { unfold descendants at 1.
    rewrite <- (descendants_bound_adequate sp0 i (length sp) Ho Hlen).
    apply descendants_upto_agree. intros j Hj. apply H.
    now rewrite <- (descendants_bound_adequate sp0 i (length sp) Ho Hlen). }
  assert (Hn : tag_name sp i = tag_name sp0 i).
  { unfold tag_name. now rewrite (H i (or_introl eq_refl)). }
  rewrite Hd, Hn. apply flat_map_ext_in. intros j Hj.
  now rewrite (H j (or_intror Hj)).
Qed.

Lemma length_set_string (sp : soup) (i : nat) (s : str) :
  length (set_string sp i s) = S (length sp).
Proof.
  unfold set_string. rewrite length_set_contents, length_app. simpl. lia.
Qed.

Lemma is_tag_agree (sp0 sp : soup) (i : nat) :
  nth_error sp i = nth_error sp0 i -> is_tag sp i = is_tag sp0 i.
Proof. unfold is_tag. now intros ->. Qed.

(** The loop over the cells when no cell lies inside another: each cell
    ends with the normalised form of the text it had at the start. *)
Lemma rewrite_cells_flat (sp0 : soup) (cells : list nat) :
  ordered sp0 -> closed sp0 ->
  (forall c, In c cells -> is_tag sp0 c = true) ->
  (forall c d, In c cells -> In d cells -> ~ In d (descendants sp0 c)) ->
  forall l done sp,
    incl l cells -> incl done cells -> NoDup l ->
    (forall d, In d l -> ~ In d done) ->
    (length sp0 <= length sp)%nat ->
    (forall j, (j < length sp0)%nat -> ~ In j done ->
               nth_error sp j = nth_error sp0 j) ->
    (forall c, In c done ->
               holds_string sp c
                 (join [SPACE]
                    (split (normalize_NFKC ucd_nfkc
                              (get_text sp0 c [SPACE]))))) ->
    forall c,
      In c done \/ In c l ->
      holds_string (fold_left (rewrite_cell ucd_nfkc) l sp) c
        (join [SPACE]
           (split (normalize_NFKC ucd_nfkc (get_text sp0 c [SPACE])))).
Proof.
  intros Ho Hcl Htag Hflat.
  induction l as [|d l IH];
    intros done sp Hl Hdone Hnd Hfresh Hlen Hsame Hheld c Hc; simpl.
  - destruct Hc as [Hc|[]]. now apply Hheld.
  - assert (Hd : In d cells) by (apply Hl; now left).
    assert (Hd0 : (d < length sp0)%nat)
      by (apply is_tag_below_length; now apply Htag).
    assert (Hdd : ~ In d done) by (apply Hfresh; now left).
    assert (Htext : get_text sp d [SPACE] = get_text sp0 d [SPACE]).
    { unfold get_text. f_equal. apply all_strings_agree; auto.
      intros j [->|Hj]; [now apply Hsame|].
      apply Hsame.
      - exact (closed_descendants_upto sp0 Hcl _ _ _ Hj).
      - intros Hjd. exact (Hflat d j Hd (Hdone j Hjd) Hj). }
    inversion Hnd as [|d' l' Hnotin Hnd']; subst.
    apply (IH (d :: done)).
    + intros x Hx. apply Hl. now right.
    + intros x [<-|Hx]; [exact Hd | now apply Hdone].
    + exact Hnd'.
    + intros x Hx [<-|Hxd]; [contradiction|].
      apply (Hfresh x); [now right | exact Hxd].
    + unfold rewrite_cell. rewrite length_set_string. lia.
    + intros j Hj Hjd. unfold rewrite_cell.
      rewrite nth_error_set_string_old.
      * apply Hsame; [exact Hj|]. intros Hin. apply Hjd. now right.
      * intros E. apply Hjd. now left.
      * lia.
    + intros x [<-|Hx]; unfold rewrite_cell.
      * rewrite Htext. apply holds_string_set_string_same.
        rewrite (is_tag_agree sp0 sp d (Hsame d Hd0 Hdd)). now apply Htag.
      * apply holds_string_set_string_other; [|now apply Hheld].
        intros E. subst x. contradiction.
    + destruct Hc as [Hc|[<-|Hc]]; [left; now right | left; now left|].
      now right.
Qed.

(** X14. In a table where no cell lies inside another cell,
    [normalize_table_text] gives every header or data cell, as its only
    string, the text the cell had before (its strings joined by single
    spaces), put in NFKC form, with every run of white space collapsed
    to one space and the ends trimmed. *)
Theorem normalize_table_text_flat (sp : soup) (table_tag cell : nat) :
  ordered sp -> closed sp ->
  NoDup (find_all sp table_tag [py "th"; py "td"] []) ->
  (forall c d,
      In c (find_all sp table_tag [py "th"; py "td"] []) ->
      In d (find_all sp table_tag [py "th"; py "td"] []) ->
      ~ In d (descendants sp c)) ->
  In cell (find_all sp table_tag [py "th"; py "td"] []) ->
  all_strings (normalize_table_text ucd_nfkc sp table_tag) cell
  = [join [SPACE]
       (split (normalize_NFKC ucd_nfkc (get_text sp cell [SPACE])))].
Proof.
  intros Ho Hcl Hnd Hflat Hin.
  apply holds_string_all_strings;
    [rewrite tag_name_normalize_table_text;
     now apply (cell_is_no_container sp table_tag)|].
  rewrite normalize_table_text_fold.
  assert (Htag : forall c,
             In c (find_all sp table_tag [py "th"; py "td"] []) ->
             is_tag sp c = true).
  { intros c Hc. unfold find_all in Hc. apply filter_In in Hc as [_ Hm].
    now apply tag_matches_is_tag in Hm. }
  apply (rewrite_cells_flat sp (find_all sp table_tag [py "th"; py "td"] [])
           Ho Hcl Htag Hflat (find_all sp table_tag [py "th"; py "td"] [])
           [] sp (incl_refl _) (incl_nil_l _) Hnd).
  - intros d _ [].
  - apply le_n.
  - reflexivity.
  - intros c [].
  - now right.
Qed.

End TableCells.

Lemma normalize_table_text_cells_witness :
  exists t,
    all_strings
      (normalize_table_text ascii_nfkc (fst (load history_page [])) 17) 8
    = [t]
    /\ (forall sep,
           get_text
             (normalize_table_text ascii_nfkc (fst (load history_page [])) 17)
             8 sep = t)
    /\ leading_ws t = false
    /\ trailing_ws t = false
    /\ consecutive_ws t = false.
Proof.
  apply (normalize_table_text_cells ascii_nfkc (fst (load history_page []))
           17 8).
  vm_compute. left. reflexivity.
Defined.

Lemma normalize_table_text_flat_witness :
  all_strings
    (normalize_table_text ascii_nfkc (fst (load history_page [])) 17) 13
  = [py "c"].
Proof.
  refine (eq_trans
            (normalize_table_text_flat ascii_nfkc (fst (load history_page []))
               17 13 _ _ _ _ _) _).
  - apply tidy_ordered. apply (load_tidy history_page [] tidy_nil).
  - apply tidy_closed. apply (load_tidy history_page [] tidy_nil).
  - vm_compute. repeat constructor; simpl; intuition discriminate.
  - intros c d Hc Hd Hin. vm_compute in Hc.
    destruct Hc as [<-|[<-|[<-|[<-|[]]]]]; vm_compute in Hin;
      destruct Hin as [<-|[]]; vm_compute in Hd; intuition discriminate.
  - vm_compute. tauto.
  - reflexivity.
Defined.

(** ** What the generator yields, over a whole page *)

Lemma in_firstn {A : Type} (x : A) (n : nat) :
  forall l, In x (firstn n l) -> In x l.
Proof.
  induction n as [|n IH]; intros [|y l]; simpl; try tauto.
  intros [H|H]; [now left | right; now apply IH].
Qed.

Section Yielded.

Variable ucd_nfkc : str -> str.
Variable ucd_printable : char -> bool.
Variable text_maker_handle : markup -> str.

(** The text of a tag that is no table is an output of [normalize_text]. *)
Lemma paragraph_text_of_normalized (sp : soup) (section_title : str)
  (tag : nat) (inner : list str) (paragraph_text : str) :
  snd (paragraph_text_of ucd_nfkc ucd_printable text_maker_handle
         sp section_title tag inner) = Ok paragraph_text ->
  str_eqb (tag_name sp tag) (py "table") = false ->
  exists x, paragraph_text = normalize_text ucd_nfkc ucd_printable x.
Proof.
  unfold paragraph_text_of.
  set (sp1 := fold_left clear (find_all sp tag inner []) sp).
  assert (H1 : tag_name sp1 tag = tag_name sp tag)
    by (apply tag_name_fold_left; intros; apply tag_name_clear).
  rewrite H1. intros H Hname. rewrite Hname in H. simpl in H.
  injection H as <-. eauto.
Qed.

Lemma extract_tags_texts (section_title : str) (inner : list str)
  (tags : list nat) :
  forall sp,
    Forall (fun y =>
              str_eqb (snd y) (py "table") = false ->
              exists x, snd (fst y) = normalize_text ucd_nfkc ucd_printable x)
      (snd (fst (extract_tags ucd_nfkc ucd_printable text_maker_handle
                   sp section_title tags inner))).
Proof.
  induction tags as [|tag tags IH]; intros sp; simpl; [constructor|].
  pose proof (tag_name_paragraph_text_of ucd_nfkc ucd_printable
                text_maker_handle sp section_title tag inner tag) as Hn.
  pose proof (paragraph_text_of_normalized sp section_title tag inner) as Ht.
  destruct (paragraph_text_of ucd_nfkc ucd_printable text_maker_handle
              sp section_title tag inner) as [sp' [paragraph_text|e]];
    simpl in Hn, Ht; [|constructor].
  specialize (IH sp').
  destruct (extract_tags ucd_nfkc ucd_printable text_maker_handle
              sp' section_title tags inner) as [[sp'' yielded] raised].
  simpl in *. constructor; [|exact IH].
  simpl. rewrite Hn. intros Hname. now apply Ht.
Qed.

Lemma walk_section_texts (sp : soup) (section : nat) (section_title : str)
  (te : list str) (tr : list noise_spec) (inner : list str) :
  Forall (fun y =>
            str_eqb (snd y) (py "table") = false ->
            exists x, snd (fst y) = normalize_text ucd_nfkc ucd_printable x)
    (snd (fst (walk_section ucd_nfkc ucd_printable text_maker_handle
                 sp section section_title te tr inner))).
Proof.
  unfold walk_section.
  pose proof (extract_tags_texts (title_of_section sp section section_title)
                inner (find_all (remove_tags sp section tr) section te [])
                (remove_tags sp section tr)) as H.
  destruct (extract_tags _ _ _ _ _ _ _) as [[sp' yielded] raised].
  exact H.
Qed.

Lemma walk_section_kinds (sp : soup) (section : nat) (section_title : str)
  (te : list str) (tr : list noise_spec) (inner : list str) :
  Forall (fun y => name_matches te (snd y) = true)
    (snd (fst (walk_section ucd_nfkc ucd_printable text_maker_handle
                 sp section section_title te tr inner))).
Proof.
  pose proof (walk_section_spec ucd_nfkc ucd_printable text_maker_handle
                sp section section_title te tr inner) as H.
  cbv zeta in H.
  destruct (walk_section ucd_nfkc ucd_printable text_maker_handle
              sp section section_title te tr inner)
    as [[[sp' title'] yielded] raised].
  destruct H as (_ & _ & H & _). simpl.
  assert (Hm : Forall (fun k => name_matches te k = true) (map snd yielded)).
  { rewrite H, Forall_map. apply Forall_forall. intros j Hj.
    apply in_firstn in Hj.
    rewrite <- (tag_name_remove_tags sp section tr j).
    unfold find_all in Hj. apply filter_In in Hj as [_ Hm].
    exact (tag_matches_name te [] _ j Hm). }
  rewrite Forall_map in Hm. exact Hm.
Qed.

(** What holds of the paragraphs of every turn holds of all the
    paragraphs of the walk. *)
Lemma walk_Forall (P : paragraph -> Prop) (te : list str)
  (tr : list noise_spec) (inner : list str) :
  (forall sp section section_title,
      Forall P
        (snd (fst (walk_section ucd_nfkc ucd_printable text_maker_handle
                     sp section section_title te tr inner)))) ->
  forall turns sp section section_title yielded raised,
    walk ucd_nfkc ucd_printable text_maker_handle turns sp section
      section_title te tr inner = Some (yielded, raised) ->
    Forall P yielded.
Proof.
  intros HP.
  induction turns as [|turns IH];
    intros sp [sec|] section_title yielded raised H; simpl in H;
    try discriminate; try (injection H as <- <-; constructor).
  specialize (HP sp sec section_title).
  destruct (walk_section ucd_nfkc ucd_printable text_maker_handle
              sp sec section_title te tr inner)
    as [[[sp' title'] here] raised_here].
  simpl in HP.
  destruct raised_here as [e|]; [injection H as <- <-; exact HP|].
  destruct (walk ucd_nfkc ucd_printable text_maker_handle turns sp'
              (find_next_sibling sp' sec [py "section"]) title' te tr inner)
    as [[later raised']|] eqn:Hw; [|discriminate].
  injection H as <- <-. apply Forall_app. split; [exact HP|].
  exact (IH _ _ _ _ _ Hw).
Qed.

Lemma extract_paragraphs_from_html_Forall (P : paragraph -> Prop)
  (te : list str) (tr : list noise_spec) (inner : list str) :
  (forall sp section section_title,
      Forall P
        (snd (fst (walk_section ucd_nfkc ucd_printable text_maker_handle
                     sp section section_title te tr inner)))) ->
  forall html yielded raised,
    extract_paragraphs_from_html ucd_nfkc ucd_printable text_maker_handle
      html te tr inner = Some (yielded, raised) ->
    Forall P yielded.
Proof.
  intros HP html yielded raised. unfold extract_paragraphs_from_html.
  destruct (load html []) as [sp root]. apply walk_Forall. exact HP.
Qed.

Lemma normalized_text_shape (x : str) :
  leading_ws (normalize_text ucd_nfkc ucd_printable x) = false
  /\ trailing_ws (normalize_text ucd_nfkc ucd_printable x) = false
  /\ forallb (isprintable ucd_printable)
       (normalize_text ucd_nfkc ucd_printable x) = true.
Proof.
  unfold normalize_text. split; [apply leading_ws_strip|].
  split; [apply trailing_ws_strip|].
  apply forallb_strip, forallb_filter_same.
Qed.

Lemma yielded_well_formed (te : list str) (tr : list noise_spec)
  (inner : list str) (sp : soup) (section : nat) (section_title : str) :
  Forall (fun y =>
            name_matches te (snd y) = true
            /\ (str_eqb (snd y) (py "table") = false ->
                leading_ws (snd (fst y)) = false
                /\ trailing_ws (snd (fst y)) = false
                /\ forallb (isprintable ucd_printable) (snd (fst y)) = true))
    (snd (fst (walk_section ucd_nfkc ucd_printable text_maker_handle
                 sp section section_title te tr inner))).
Proof.
  pose proof (walk_section_kinds sp section section_title te tr inner) as Hk.
  pose proof (walk_section_texts sp section section_title te tr inner) as Ht.
  rewrite Forall_forall in *. intros y Hy. split; [now apply Hk|].
  intros Hname. destruct (Ht y Hy Hname) as [x ->].
  apply normalized_text_shape.
Qed.

(** X15. Every triple the generator yields for a page, whichever section
    it comes from, has as its tag kind one of the names of
    [tags_to_extract]; and unless that kind is [table], its text is
    normalised: no white space at either end and printable characters
    only. *)
Theorem yielded_paragraphs_well_formed (html : markup) (te : list str)
  (tr : list noise_spec) (inner : list str) (yielded : list paragraph)
  (raised : option exn) :
  extract_paragraphs_from_html ucd_nfkc ucd_printable text_maker_handle
    html te tr inner = Some (yielded, raised) ->
  Forall (fun y =>
            name_matches te (snd y) = true
            /\ (str_eqb (snd y) (py "table") = false ->
                leading_ws (snd (fst y)) = false
                /\ trailing_ws (snd (fst y)) = false
                /\ forallb (isprintable ucd_printable) (snd (fst y)) = true))
    yielded.
Proof.
  apply extract_paragraphs_from_html_Forall. intros sp section section_title.
  apply yielded_well_formed.
Qed.

End Yielded.

Lemma yielded_paragraphs_well_formed_witness :
  Forall (fun y =>
            name_matches DEFAULT_TAGS_TO_EXTRACT (snd y) = true
            /\ (str_eqb (snd y) (py "table") = false ->
                leading_ws (snd (fst y)) = false
                /\ trailing_ws (snd (fst y)) = false
                /\ forallb (isprintable ascii_printable) (snd (fst y)) = true))
    [ (LEAD, [], py "table");
      (LEAD, py "in a cell", py "p");
      (LEAD, py "quoted", py "blockquote");
      (LEAD, py "quoted", py "p") ].
Proof.
  apply (yielded_paragraphs_well_formed ascii_nfkc ascii_printable
           no_text_maker nested_page DEFAULT_TAGS_TO_EXTRACT
           DEFAULT_TAGS_TO_REMOVE DEFAULT_INNER_TAGS_TO_REMOVE _ None).
  reflexivity.
Defined.

(** ** A page without [section] elements *)

(** The tags [load] adds to a store carry names of elements of the
    markup. *)
Lemma load_in_tags (m : markup) :
  forall container sp j name a cs,
    nth_error (fst (load_in container m sp)) j = Some (Tag name a cs) ->
    nth_error sp j = Some (Tag name a cs) \/ In name (element_names m).
Proof.
  assert (Hstring : forall c s sp j name a cs,
             nth_error (sp ++ [NavigableString c s]) j
             = Some (Tag name a cs) ->
             nth_error sp j = Some (Tag name a cs)).
  { intros c s sp j name a cs H. rewrite nth_error_new_string in H.
    destruct (Nat.eqb j (length sp)); [discriminate H | exact H]. }
  induction m as [s|c s|name0 a0 children IH] using markup_induction;
    intros container sp j name a cs H.
  - left. exact (Hstring _ _ _ _ _ _ _ H).
  - left. exact (Hstring _ _ _ _ _ _ _ H).
  - rewrite load_element in H. set (inside := container_in name0 container) in *.
    assert (Hall : forall sp0,
               nth_error (fst (load_all inside children sp0)) j
               = Some (Tag name a cs) ->
               nth_error sp0 j = Some (Tag name a cs)
               \/ In name (flat_map element_names children)).
    { clear sp H. induction IH as [|m ms Hm Hms IHms]; intros sp0 H.
      - now left.
      - rewrite load_all_cons in H. specialize (Hm inside sp0 j name a cs).
        destruct (load_in inside m sp0) as [sp1 r]. specialize (IHms sp1).
        destruct (load_all inside ms sp1) as [sp2 ids]. simpl in *.
        destruct (IHms H) as [H1|H1];
          [|right; apply in_or_app; now right].
        destruct (Hm H1) as [H0|H0]; [now left|].
        right. apply in_or_app. now left. }
    specialize (Hall sp). destruct (load_all inside children sp) as [sp' cs'].
    simpl in *. destruct (Nat.lt_ge_cases j (length sp')) as [Hj|Hj].
    + rewrite nth_error_app1 in H by exact Hj.
      destruct (Hall H) as [H0|H0]; [now left | right; now right].
    + rewrite nth_error_app2 in H by exact Hj.
      destruct (j - length sp')%nat as [|[|n]]; try discriminate H.
      injection H as -> _ _. right. now left.
Qed.

Lemma load_tags (m : markup) :
  forall sp j name a cs,
    nth_error (fst (load m sp)) j = Some (Tag name a cs) ->
    nth_error sp j = Some (Tag name a cs) \/ In name (element_names m).
Proof. intros sp. apply load_in_tags. Qed.

Section NoSection.

Variable ucd_nfkc : str -> str.
Variable ucd_printable : char -> bool.
Variable text_maker_handle : markup -> str.

(** X16. A page that has no [section] element yields no paragraph at
    all, whatever else it holds, and raises nothing: the generator walks
    sections only. *)
Theorem no_section_element_no_paragraphs (html : markup) (te : list str)
  (tr : list noise_spec) (inner : list str) :
  ~ In (py "section") (element_names html) ->
  extract_paragraphs_from_html ucd_nfkc ucd_printable text_maker_handle
    html te tr inner = Some ([], None).
Proof.
  intros Hno. unfold extract_paragraphs_from_html.
  pose proof (load_tags html []) as Ht.
  destruct (load html []) as [sp root]. simpl in Ht.
  assert (Hfind : find sp root [py "section"] = None).
  { unfold find, find_all.
    assert (Hf : forall l,
               filter (fun j => tag_matches [py "section"] []
                                  (nth_error sp j)) l = []).
    { induction l as [|j l IHl]; [reflexivity|]. simpl. rewrite IHl.
      destruct (nth_error sp j) as [[s|name a cs]|] eqn:Hj; try reflexivity.
      destruct (Ht j name a cs Hj) as [H0|H0];
        [destruct j; discriminate H0|].
      simpl. unfold str_in. simpl.
      destruct (str_eqb name (py "section")) eqn:E; [|reflexivity].
      apply str_eqb_eq in E. subst name. contradiction. }
    now rewrite Hf. }
  rewrite Hfind. now destruct (length sp).
Qed.

End NoSection.

Lemma no_section_element_no_paragraphs_witness :
  extract_paragraphs_from_html ascii_nfkc ascii_printable no_text_maker
    bare_page DEFAULT_TAGS_TO_EXTRACT DEFAULT_TAGS_TO_REMOVE
    DEFAULT_INNER_TAGS_TO_REMOVE = Some ([], None).
Proof.
  apply (no_section_element_no_paragraphs ascii_nfkc ascii_printable
           no_text_maker bare_page).
  vm_compute. intuition discriminate.
Defined.

(** ** The pedigree parser over the rows of a table *)

Lemma blood_rows_lines (rows : list (list str)) :
  forall csv_data,
    blood_rows csv_data rows
    = if existsb row_raises rows then Raise IndexError
      else Ok (csv_data ++ flat_map kept_line rows).
Proof.
  induction rows as [|row rows IH]; intros csv_data; simpl.
  - now rewrite app_nil_r.
  - unfold row_raises at 1, kept_line at 1.
    destruct (blood_row row) as [[line|]|[]]; simpl; [| |reflexivity].
    + rewrite IH. destruct (existsb row_raises rows); [reflexivity|].
      now rewrite <- app_assoc.
    + apply IH.
Qed.

Lemma replace_char_empty_gone (c : char) (s : str) :
  ~ In c (replace_char_empty c s).
Proof.
  unfold replace_char_empty. intros H. apply filter_In in H as [_ H].
  unfold char_eqb in H. now rewrite N.eqb_refl in H.
Qed.

Section Pedigree.

Variable ucd_nfkc : str -> str.

(** X17. The pedigree parser raises [IndexError] exactly when one of the
    rows of the table raises; otherwise its result is the NFKC form of
    the lines of the rows that are kept, in the order of the rows, with
    one line feed between two lines and none after the last; a table
    none of whose rows is kept gives the empty text. *)
Theorem normalize_blood_table_text_lines (sp : soup) (table_tag : nat) :
  normalize_blood_table_text ucd_nfkc sp table_tag
  = if existsb row_raises
         (map (row_of_tr sp) (find_all sp table_tag [py "tr"] []))
    then Raise IndexError
    else Ok (normalize_NFKC ucd_nfkc
               (join [NEWLINE]
                  (flat_map kept_line
                     (map (row_of_tr sp)
                        (find_all sp table_tag [py "tr"] []))))).
Proof.
  unfold normalize_blood_table_text. rewrite blood_rows_lines.
  now destruct (existsb row_raises _).
Qed.

End Pedigree.

(** X18. The row the pedigree parser builds for a [tr] has one text for
    each [td] or [th] below the [tr], none when there is none; and no
    text of the row holds an asterisk or starts or ends with white
    space. *)
Theorem row_of_tr_cells (sp : soup) (tr : nat) :
  length (row_of_tr sp tr) = length (find_all sp tr [py "td"; py "th"] [])
  /\ forall cell,
       In cell (row_of_tr sp tr) ->
       ~ In ASTERISK cell
       /\ leading_ws cell = false
       /\ trailing_ws cell = false.
Proof.
  unfold row_of_tr. split; [apply length_map|].
  intros cell H. apply in_map_iff in H as (td & <- & _).
  split; [|split; [apply leading_ws_strip | apply trailing_ws_strip]].
  intros Hin. apply in_strip in Hin.
  exact (replace_char_empty_gone ASTERISK _ Hin).
Qed.

(** ** The records of the output file *)

Lemma passes_filters_spec (ignore : list str) (min_length max_length : Z)
  (item : paragraph) :
  passes_filters ignore min_length max_length item = true ->
  str_in (fst (fst item)) ignore = false
  /\ (min_length <= Z.of_nat (length (snd (fst item))) <= max_length)%Z.
Proof.
  destruct item as [[section_title paragraph_text] tag_name]. simpl.
  intros H. apply andb_prop in H as [H H3]. apply andb_prop in H as [H1 H2].
  apply negb_true_iff in H1, H2, H3. split; [exact H1|].
  apply Z.ltb_ge in H2. rewrite Z.gtb_ltb in H3. apply Z.ltb_ge in H3. lia.
Qed.

Section Records.

Variable ucd_nfkc : str -> str.
Variable ucd_printable : char -> bool.
Variable text_maker_handle : markup -> str.

Lemma main_page_records (args : Args) (page : input_item)
  (written : list output_item) (raised : option exn) :
  main_page ucd_nfkc ucd_printable text_maker_handle args page
  = Some (written, raised) ->
  Forall (fun r =>
            (pageid r = in_pageid page /\ revid r = in_revid page
             /\ title r = in_title page)
            /\ str_in (section r)
                 (or_default (sections_to_ignore args)
                    DEFAULT_SECTIONS_TO_IGNORE) = false
            /\ (min_paragraph_length args <= Z.of_nat (length (text r))
                <= max_paragraph_length args)%Z
            /\ name_matches
                 (or_default (tags_to_extract args) DEFAULT_TAGS_TO_EXTRACT)
                 (html_tag r) = true
            /\ (str_eqb (html_tag r) (py "table") = false ->
                leading_ws (text r) = false
                /\ trailing_ws (text r) = false
                /\ forallb (isprintable ucd_printable) (text r) = true))
    written.
Proof.
  unfold main_page.
  destruct (extract_paragraphs_from_html _ _ _ _ _ _ _)
    as [[items raised0]|] eqn:He; [|discriminate].
  intros H. injection H as <- <-.
  pose proof (extract_paragraphs_from_html_Forall ucd_nfkc ucd_printable
                text_maker_handle _ _ _ _
                (fun sp section section_title =>
                   yielded_well_formed ucd_nfkc ucd_printable
                     text_maker_handle _ _ _ sp section section_title)
                _ _ _ He) as Hitems.
  pose proof (write_paragraphs_page page
                (or_default (sections_to_ignore args)
                   DEFAULT_SECTIONS_TO_IGNORE)
                (min_paragraph_length args) (max_paragraph_length args)
                items 0%Z) as Hpage.
  pose proof (write_paragraphs_map page
                (or_default (sections_to_ignore args)
                   DEFAULT_SECTIONS_TO_IGNORE)
                (min_paragraph_length args) (max_paragraph_length args)
                items 0%Z) as Hmap.
  rewrite Forall_forall in *. intros r Hr. split; [now apply Hpage|].
  assert (Hin : In (paragraph_of_output r)
                  (filter (passes_filters
                             (or_default (sections_to_ignore args)
                                DEFAULT_SECTIONS_TO_IGNORE)
                             (min_paragraph_length args)
                             (max_paragraph_length args)) items)).
  { rewrite <- Hmap. now apply in_map. }
  apply filter_In in Hin as [Hin Hpass].
  apply passes_filters_spec in Hpass as [Hs Hl].
  destruct (Hitems _ Hin) as [Hk Ht]. auto.
Qed.

(** X19. Every record [main] writes carries the page id, revision id and
    title of one of the input pages; its section is none of the sections
    to ignore; its text has between [min_paragraph_length] and
    [max_paragraph_length] characters; its tag kind is one of the tags to
    extract; and unless it is a table, its text has no white space at
    either end and holds printable characters only. *)
Theorem main_records (args : Args) (pages : list input_item)
  (written : list output_item) (raised : option exn) :
  main ucd_nfkc ucd_printable text_maker_handle args pages
  = Some (written, raised) ->
  Forall (fun r =>
            (exists page,
                In page pages /\ pageid r = in_pageid page
                /\ revid r = in_revid page /\ title r = in_title page)
            /\ str_in (section r)
                 (or_default (sections_to_ignore args)
                    DEFAULT_SECTIONS_TO_IGNORE) = false
            /\ (min_paragraph_length args <= Z.of_nat (length (text r))
                <= max_paragraph_length args)%Z
            /\ name_matches
                 (or_default (tags_to_extract args) DEFAULT_TAGS_TO_EXTRACT)
                 (html_tag r) = true
            /\ (str_eqb (html_tag r) (py "table") = false ->
                leading_ws (text r) = false
                /\ trailing_ws (text r) = false
                /\ forallb (isprintable ucd_printable) (text r) = true))
    written.
Proof.
  revert written raised.
  induction pages as [|page pages IH]; intros written raised H; simpl in H.
  - injection H as <- <-. constructor.
  - destruct (main_page ucd_nfkc ucd_printable text_maker_handle args page)
      as [[here raised_here]|] eqn:Hp; [|discriminate].
    pose proof (main_page_records args page here raised_here Hp) as Hhere.
    assert (Hhere' :
              Forall (fun r =>
                        (exists page0,
                            In page0 (page :: pages)
                            /\ pageid r = in_pageid page0
                            /\ revid r = in_revid page0
                            /\ title r = in_title page0)
                        /\ str_in (section r)
                             (or_default (sections_to_ignore args)
                                DEFAULT_SECTIONS_TO_IGNORE) = false
                        /\ (min_paragraph_length args
                            <= Z.of_nat (length (text r))
                            <= max_paragraph_length args)%Z
                        /\ name_matches
                             (or_default (tags_to_extract args)
                                DEFAULT_TAGS_TO_EXTRACT) (html_tag r) = true
                        /\ (str_eqb (html_tag r) (py "table") = false ->
                            leading_ws (text r) = false
                            /\ trailing_ws (text r) = false
                            /\ forallb (isprintable ucd_printable) (text r)
                               = true)) here).
    { eapply Forall_impl; [|exact Hhere]. simpl.
      intros r (Hr & Hrest). split; [|exact Hrest].
      exists page. split; [now left | exact Hr]. }
    destruct raised_here as [e|]; [injection H as <- <-; exact Hhere'|].
    destruct (main ucd_nfkc ucd_printable text_maker_handle args pages)
      as [[later raised']|] eqn:Hm; [|discriminate].
    injection H as <- <-. apply Forall_app. split; [exact Hhere'|].
    eapply Forall_impl; [|exact (IH _ _ eq_refl)]. simpl.
    intros r ((page0 & Hin & Hr) & Hrest). split; [|exact Hrest].
    exists page0. split; [now right | exact Hr].
Qed.


End Records.

Lemma main_records_witness :
  Forall (fun r =>
            (exists page,
                In page [one_paragraph_page (py "Hello, world of text")]
                /\ pageid r = in_pageid page
                /\ revid r = in_revid page /\ title r = in_title page)
            /\ str_in (section r)
                 (or_default (sections_to_ignore default_args)
                    DEFAULT_SECTIONS_TO_IGNORE) = false
            /\ (min_paragraph_length default_args
                <= Z.of_nat (length (text r))
                <= max_paragraph_length default_args)%Z
            /\ name_matches
                 (or_default (tags_to_extract default_args)
                    DEFAULT_TAGS_TO_EXTRACT) (html_tag r) = true
            /\ (str_eqb (html_tag r) (py "table") = false ->
                leading_ws (text r) = false
                /\ trailing_ws (text r) = false
                /\ forallb (isprintable ascii_printable) (text r) = true))
    [output_of (one_paragraph_page (py "Hello, world of text")) 0 LEAD
       (py "Hello, world of text") (py "p")].
Proof.
  apply (main_records ascii_nfkc ascii_printable no_text_maker default_args
           [one_paragraph_page (py "Hello, world of text")] _ None).
  reflexivity.
Defined.

(** ** What stands below a cleared tag is out of reach *)

Lemma descendants_upto_last (sp : soup) :
  forall depth i j,
    In j (descendants_upto (S depth) sp i) ->
    exists p,
      In j (contents sp p) /\ (p = i \/ In p (descendants_upto depth sp i)).
Proof.
  induction depth as [|depth IH]; intros i j H; simpl in H;
    apply in_flat_map in H as (c & Hc & Hj).
  - destruct Hj as [<-|[]]. exists i. auto.
  - destruct Hj as [<-|Hj]; [exists i; auto|].
    destruct (IH c j Hj) as (p & Hp & Hreach). exists p.
    split; [exact Hp|]. right. simpl. apply in_flat_map. exists c.
    split; [exact Hc|]. destruct Hreach as [->|Hreach]; [now left|now right].
Qed.

(** In a tree, the parent of what stands below a tag is the tag or
    stands below it. *)
Lemma parent_below (sp : soup) :
  single_parent sp ->
  forall depth b j p,
    In j (descendants_upto depth sp b) -> In j (contents sp p) ->
    p = b \/ In p (descendants_upto depth sp b).
Proof.
  intros Hs. induction depth as [|depth IH]; intros b j p H Hp; simpl in H;
    [destruct H|].
  apply in_flat_map in H as (c & Hc & Hj). destruct Hj as [<-|Hj].
  - left. exact (Hs p b c Hp Hc).
  - right. simpl. apply in_flat_map. exists c. split; [exact Hc|].
    destruct (IH c j p Hj Hp) as [->|H]; [now left | now right].
Qed.

Lemma narrows_contents (sp sp' : soup) (i c : nat) :
  narrows sp sp' -> In c (contents sp' i) -> In c (contents sp i).
Proof.
  intros (_ & Hc & _) H. destruct (Hc i) as [E|E]; rewrite E in H;
    [exact H | destruct H].
Qed.

Lemma contents_is_tag (sp : soup) (i c : nat) :
  In c (contents sp i) -> is_tag sp i = true.
Proof.
  unfold contents, is_tag.
  destruct (nth_error sp i) as [[s|name a cs]|]; simpl; tauto.
Qed.

(** After tags of a tree have been cleared, whatever is still in reach
    of [root] is reached through each of the tags it stood below: so
    such a tag is still in reach, and still has children. *)
Lemma reached_through (sp sp' : soup) (root b : nat) :
  narrows sp sp' -> ordered sp -> single_parent sp ->
  is_tag sp b = true -> In b (descendants sp root) ->
  forall depth j,
    In j (descendants_upto depth sp' root) -> In j (descendants sp b) ->
    In b (descendants_upto depth sp' root) /\ contents sp' b <> [].
Proof.
  intros Hn Ho Hs Hb Hroot.
  induction depth as [|depth IH]; intros j Hj Hjb; [destruct Hj|].
  destruct (descendants_upto_last sp' depth root j Hj) as (p & Hp & Hreach).
  pose proof (narrows_contents sp sp' p j Hn Hp) as Hp0.
  assert (Hup : forall k,
             In k (descendants_upto depth sp' root) ->
             In k (descendants_upto (S depth) sp' root)).
  { intros k. apply descendants_upto_mono. lia. }
  destruct (parent_below sp Hs _ b j p Hjb Hp0) as [->|Hpb].
  - split; [|intros E; rewrite E in Hp; destruct Hp].
    destruct Hreach as [->|Hreach]; [|now apply Hup].
    exfalso.
    destruct (descendants_upto_before sp Ho _ _ _ Hroot) as [H|H];
      [lia | congruence].
  - destruct Hreach as [->|Hreach].
    + exfalso.
      pose proof (contents_is_tag sp root j Hp0) as Hr.
      destruct (descendants_upto_before sp Ho _ _ _ Hpb) as [H1|H1];
        [|congruence].
      destruct (descendants_upto_before sp Ho _ _ _ Hroot) as [H2|H2];
        [lia | congruence].
    + destruct (IH p Hreach Hpb) as [H1 H2]. split; [now apply Hup | exact H2].
Qed.

Lemma find_all_descendant (sp : soup) (i j : nat) (names : list str)
  (want : list (str * str)) :
  In j (find_all sp i names want) ->
  In j (descendants sp i)
  /\ tag_matches names want (nth_error sp j) = true.
Proof. unfold find_all. apply filter_In. Qed.

(** X21. In a tree, nothing that stood below a tag matched by a removal
    rule is among the tags the section is then searched for: no
    paragraph, table or quotation inside a removed box is extracted. *)
Theorem removed_content_not_extracted (sp : soup) (section : nat)
  (specs : list noise_spec) (te : list str) (spec : noise_spec) (b j : nat) :
  ordered sp -> single_parent sp ->
  In spec specs ->
  In b (find_all sp section [spec_name spec] (spec_want spec)) ->
  In j (descendants sp b) ->
  ~ In j (find_all (remove_tags sp section specs) section te []).
Proof.
  intros Ho Hs Hspec Hb Hj Hfound.
  apply find_all_descendant in Hb as [Hb Hm].
  apply find_all_descendant in Hfound as [Hreach _].
  pose proof (remove_tags_narrows specs section sp) as Hn.
  destruct (reached_through sp _ section b Hn Ho Hs
              (tag_matches_is_tag _ _ sp b Hm) Hb _ j Hreach Hj)
    as [Hin Hne].
  apply Hne.
  apply (remove_tags_found_empty specs section sp spec b Hspec).
  unfold find_all. apply filter_In. split; [exact Hin|].
  destruct Hn as (_ & _ & Ht). now rewrite Ht.
Qed.

(** *** The store the parser builds is a tree *)

Lemma contents_snoc (sp : soup) (nd : node) (p : nat) :
  contents (sp ++ [nd]) p
  = if Nat.ltb p (length sp) then contents sp p
    else if Nat.eqb p (length sp) then
           match nd with Tag _ _ cs => cs | _ => [] end
         else [].
Proof.
  destruct (Nat.ltb_spec p (length sp)) as [H|H].
  - now apply contents_app_old.
  - destruct (Nat.eqb_spec p (length sp)) as [->|Hne].
    + apply contents_app_new.
    + apply contents_beyond. rewrite length_app. simpl. lia.
Qed.

Lemma load_last (container : string_class) (m : markup) (sp : soup) :
  S (snd (load_in container m sp)) = length (fst (load_in container m sp)).
Proof.
  destruct m as [s|c s|name a children].
  - simpl. rewrite length_app. simpl. lia.
  - simpl. rewrite length_app. simpl. lia.
  - rewrite load_element.
    destruct (load_all (container_in name container) children sp)
      as [sp' cs].
    simpl. rewrite length_app. simpl. lia.
Qed.

Lemma single_parent_nil : single_parent [].
Proof. intros p q c H. unfold contents in H. now destruct p. Qed.

(** [load_in] keeps the objects of the store, gives the objects it adds
    children among those it adds, and keeps the store a tree. *)
Lemma load_tree (m : markup) :
  forall container sp,
    tidy sp -> single_parent sp ->
    (exists ext, fst (load_in container m sp) = sp ++ ext)
    /\ (forall q c, (length sp <= q)%nat ->
                    In c (contents (fst (load_in container m sp)) q) ->
                    (length sp <= c)%nat)
    /\ single_parent (fst (load_in container m sp)).
Proof.
  assert (Hstring : forall c s sp,
             tidy sp -> single_parent sp ->
             (exists ext, sp ++ [NavigableString c s] = sp ++ ext)
             /\ (forall q c0, (length sp <= q)%nat ->
                              In c0 (contents (sp ++ [NavigableString c s]) q)
                              -> (length sp <= c0)%nat)
             /\ single_parent (sp ++ [NavigableString c s])).
  { intros c s sp Ht Hs. split; [now exists [NavigableString c s]|]. split.
    - intros q c0 Hq Hc. rewrite contents_new_string in Hc.
      rewrite contents_beyond in Hc by exact Hq. destruct Hc.
    - intros p q c0. rewrite !contents_new_string. apply Hs. }
  induction m as [s|c s|name a children IH] using markup_induction;
    intros container sp Ht Hs.
  - now apply Hstring.
  - now apply Hstring.
  - rewrite load_element. set (inside := container_in name container).
    assert (Hall : forall sp0,
               tidy sp0 -> single_parent sp0 ->
               (exists ext, fst (load_all inside children sp0) = sp0 ++ ext)
               /\ tidy (fst (load_all inside children sp0))
               /\ (forall q c, (length sp0 <= q)%nat ->
                               In c (contents
                                       (fst (load_all inside children sp0)) q)
                               -> (length sp0 <= c)%nat)
               /\ single_parent (fst (load_all inside children sp0))
               /\ (forall c, In c (snd (load_all inside children sp0)) ->
                             (length sp0 <= c)%nat
                             /\ forall q,
                                  ~ In c (contents
                                            (fst (load_all inside children
                                                    sp0)) q))).
    { clear sp Ht Hs. induction IH as [|m ms Hm Hms IHms]; intros sp0 Ht Hs.
      - simpl. split; [exists []; now rewrite app_nil_r|].
        split; [exact Ht|]. split.
        + intros q c Hq Hc. rewrite contents_beyond in Hc by exact Hq.
          destruct Hc.
        + split; [exact Hs | intros c []].
      - rewrite load_all_cons.
        destruct (load_in_tidy m inside sp0 Ht) as [Ht1 Hr1].
        pose proof (load_last inside m sp0) as Hlast.
        destruct (Hm inside sp0 Ht Hs) as ((ext1 & He1) & Hf1 & Hs1).
        destruct (load_in inside m sp0) as [spa r].
        simpl in Ht1, Hr1, Hlast, He1, Hf1, Hs1.
        destruct (IHms spa Ht1 Hs1)
          as ((ext2 & He2) & Ht2 & Hf2 & Hs2 & Hroots).
        destruct (load_all inside ms spa) as [spb ids].
        simpl in He2, Ht2, Hf2, Hs2, Hroots. simpl.
        assert (Hold : forall q, (q < length spa)%nat ->
                                 contents spb q = contents spa q).
        { intros q Hq. rewrite He2. now apply contents_app_old. }
        split; [exists (ext1 ++ ext2); now rewrite He2, He1, <- app_assoc|].
        split; [exact Ht2|]. split; [|split; [exact Hs2|]].
        + intros q c Hq Hc.
          destruct (Nat.lt_ge_cases q (length spa)) as [Hlt|Hge].
          * rewrite (Hold q Hlt) in Hc. exact (Hf1 q c Hq Hc).
          * pose proof (Hf2 q c Hge Hc). lia.
        + intros c [<-|Hc].
          * split; [lia|]. intros q Hin.
            destruct (Nat.lt_ge_cases q (length spa)) as [Hlt|Hge].
            -- rewrite (Hold q Hlt) in Hin.
               destruct (Ht1 q) as [Hbelow _].
               rewrite Forall_forall in Hbelow.
               specialize (Hbelow r Hin). lia.
            -- pose proof (Hf2 q r Hge Hin). lia.
          * destruct (Hroots c Hc) as [Hc1 Hc2]. split; [lia | exact Hc2]. }
    destruct (Hall sp Ht Hs) as ((ext & He) & Ht1 & Hf & Hs1 & Hroots).
    destruct (load_all inside children sp) as [sp1 cs].
    simpl in He, Ht1, Hf, Hs1, Hroots. simpl.
    assert (Hlen : (length sp <= length sp1)%nat).
    { rewrite He, length_app. lia. }
    split; [exists (ext ++ [Tag name a cs]); now rewrite He, <- app_assoc|].
    split.
    + intros q c Hq. rewrite contents_snoc.
      destruct (Nat.ltb q (length sp1)); [now apply Hf|].
      destruct (Nat.eqb q (length sp1)); [|intros []].
      intros Hc. now apply Hroots.
    + intros p q c. rewrite !contents_snoc.
      destruct (Nat.ltb_spec p (length sp1)) as [Hp|Hp];
        destruct (Nat.ltb_spec q (length sp1)) as [Hq|Hq].
      * apply Hs1.
      * destruct (Nat.eqb q (length sp1)); [|intros _ []].
        intros Hin Hc. destruct (Hroots c Hc) as [_ Hno].
        destruct (Hno p Hin).
      * destruct (Nat.eqb p (length sp1)); [|intros []].
        intros Hc Hin. destruct (Hroots c Hc) as [_ Hno].
        destruct (Hno q Hin).
      * destruct (Nat.eqb_spec p (length sp1)) as [->|_]; [|intros []].
        destruct (Nat.eqb_spec q (length sp1)) as [->|_]; [|intros _ []].
        reflexivity.
Qed.

Lemma load_single_parent (html : markup) : single_parent (fst (load html [])).
Proof. apply (load_tree html Plain [] tidy_nil single_parent_nil). Qed.

Lemma load_ordered (html : markup) : ordered (fst (load html [])).
Proof. apply tidy_ordered. apply (load_tidy html [] tidy_nil). Qed.

Lemma removed_content_not_extracted_witness :
  In 1%nat (descendants (fst (load navbox_page [])) 2)
  /\ ~ In 1%nat
         (find_all
            (remove_tags (fst (load navbox_page [])) 5 DEFAULT_TAGS_TO_REMOVE)
            5 DEFAULT_TAGS_TO_EXTRACT []).
Proof.
  split; [vm_compute; left; reflexivity|].
  apply (removed_content_not_extracted (fst (load navbox_page [])) 5
           DEFAULT_TAGS_TO_REMOVE DEFAULT_TAGS_TO_EXTRACT
           (ByTagAttrs (py "div") (class_is (py "navbox"))) 2 1).
  - apply load_ordered.
  - apply load_single_parent.
  - unfold DEFAULT_TAGS_TO_REMOVE. simpl. tauto.
  - vm_compute. left. reflexivity.
  - vm_compute. left. reflexivity.
Defined.

Lemma cleared_out_of_reach (sp : soup) (root : nat) (names : list str)
  (want : list (str * str)) (b j : nat) :
  ordered sp -> single_parent sp ->
  In b (find_all sp root names want) ->
  In j (descendants sp b) ->
  ~ In j (descendants
            (fold_left clear (find_all sp root names want) sp) root).
Proof.
  intros Ho Hs Hb Hj Hreach.
  pose proof (fold_clear_empties (find_all sp root names want) b sp
                (or_introl Hb)) as E.
  apply find_all_descendant in Hb as [Hb Hm].
  destruct (reached_through sp _ root b
              (narrows_fold_clear _ sp) Ho Hs
              (tag_matches_is_tag _ _ sp b Hm) Hb _ j Hreach Hj)
    as [_ Hne].
  exact (Hne E).
Qed.

Section InnerContent.

Variable ucd_nfkc : str -> str.
Variable ucd_printable : char -> bool.
Variable text_maker_handle : markup -> str.

(** X22. In a tree, for a tag that is no table, the paragraph text is
    the normalised concatenation of the strings still in reach of the
    tag after the inner tags have been cleared, and no object that stood
    below one of the inner tags to remove is in reach: the text of a
    footnote marker is no part of the paragraph, at whatever depth it
    stood. *)
Theorem inner_content_not_in_text (sp : soup) (section_title : str)
  (tag : nat) (inner : list str) (b j : nat) :
  ordered sp -> single_parent sp ->
  str_eqb (tag_name sp tag) (py "table") = false ->
  In b (find_all sp tag inner []) ->
  In j (descendants sp b) ->
  snd (paragraph_text_of ucd_nfkc ucd_printable text_maker_handle
         sp section_title tag inner)
  = Ok (normalize_text ucd_nfkc ucd_printable
          (concat
             (all_strings
                (fst (paragraph_text_of ucd_nfkc ucd_printable
                        text_maker_handle sp section_title tag inner)) tag)))
  /\ ~ In j (descendants
               (fst (paragraph_text_of ucd_nfkc ucd_printable
                       text_maker_handle sp section_title tag inner)) tag).
Proof.
  intros Ho Hs Hname Hb Hj. unfold paragraph_text_of.
  set (sp1 := fold_left clear (find_all sp tag inner []) sp).
  assert (H1 : tag_name sp1 tag = tag_name sp tag)
    by (apply tag_name_fold_left; intros; apply tag_name_clear).
  rewrite H1, Hname. simpl. split.
  - unfold get_text. now rewrite join_empty_sep.
  - now apply (cleared_out_of_reach sp tag inner [] b j).
Qed.

End InnerContent.

Lemma inner_content_not_in_text_witness :
  snd (paragraph_text_of ascii_nfkc ascii_printable no_text_maker
         (fst (load history_page [])) LEAD 3 DEFAULT_INNER_TAGS_TO_REMOVE)
  = Ok (normalize_text ascii_nfkc ascii_printable
          (concat
             (all_strings
                (fst (paragraph_text_of ascii_nfkc ascii_printable
                        no_text_maker (fst (load history_page [])) LEAD 3
                        DEFAULT_INNER_TAGS_TO_REMOVE)) 3)))
  /\ ~ In 1%nat (descendants
               (fst (paragraph_text_of ascii_nfkc ascii_printable
                       no_text_maker (fst (load history_page [])) LEAD 3
                       DEFAULT_INNER_TAGS_TO_REMOVE)) 3).
Proof.
  apply (inner_content_not_in_text ascii_nfkc ascii_printable no_text_maker
           (fst (load history_page [])) LEAD 3 DEFAULT_INNER_TAGS_TO_REMOVE
           2 1).
  - apply load_ordered.
  - apply load_single_parent.
  - reflexivity.
  - vm_compute. left. reflexivity.
  - vm_compute. left. reflexivity.
Defined.
